(** * Minimum channel-width search and channel-width distribution (VPR)

    A shallow embedding of [place_and_route], [binary_search_place_and_route],
    [init_chan] and [comp_width], followed by the properties of the search
    controller, the convergence verifier and the distribution calculator.

    Conventions.
    - C [int] values are integers of [Z]; [/] and [%] on them are [Z.quot]
      and [Z.rem].  Signed overflow is undefined in C and is not modelled:
      the guards of the search keep every width below [1000] or [4 * W].
    - C [float] and [double] values are [spec_float] values of the IEEE-754
      binary32 and binary64 formats, computed with the operations of
      [SpecFloat]; mixed [int]/[float] arithmetic is written with the
      conversions C inserts.
    - The router, the placer and the other collaborators are opaque: they
      act on an abstract [World], and every call is recorded in a log.
      Release of memory, timing, echo files, the serial number and the
      set-up of the drawing are left out, and so are the allocations
      whose result no test or assertion reads: nothing the routines read
      depends on them.  [alloc_net_delay] in [place_and_route] is kept,
      for the assertion on its result. *)

From Stdlib Require Import ZArith Lia Bool List.
From Stdlib Require Import Floats.SpecFloat.
From stdpp Require Import base list.
Import ListNotations.

Local Open Scope Z_scope.

(** ** Floating point *)

(** binary32, the C type [float]. *)
Module F32.
Definition prec : Z := 24.
Definition emax : Z := 128.
Definition zero : spec_float := S754_zero false.
Definition of_int (n : Z) : spec_float := binary_normalize prec emax n 0 false.
Definition neg : spec_float -> spec_float := SFopp.
Definition add : spec_float -> spec_float -> spec_float := SFadd prec emax.
Definition sub : spec_float -> spec_float -> spec_float := SFsub prec emax.
Definition mul : spec_float -> spec_float -> spec_float := SFmul prec emax.
Definition div : spec_float -> spec_float -> spec_float := SFdiv prec emax.
(** [(float) d] for a double [d]. *)
Definition of_double (d : spec_float) : spec_float :=
  match d with
  | S754_finite s m e => binary_round prec emax s m e
  | _ => d
  end.
End F32.

(** binary64, the C type [double]. *)
Module F64.
Definition prec : Z := 53.
Definition emax : Z := 1024.
Definition of_int (n : Z) : spec_float := binary_normalize prec emax n 0 false.
Definition add : spec_float -> spec_float -> spec_float := SFadd prec emax.
Definition sub : spec_float -> spec_float -> spec_float := SFsub prec emax.
Definition div : spec_float -> spec_float -> spec_float := SFdiv prec emax.
(** The promotion of a [float] to [double]; it is exact. *)
Definition of_float (x : spec_float) : spec_float :=
  match x with
  | S754_finite s m e => binary_round prec emax s m e
  | _ => x
  end.
(** [a > b] and [a <= b]; both are false when an operand is a NaN. *)
Definition gt (a b : spec_float) : bool := SFltb b a.
Definition le (a b : spec_float) : bool := SFleb a b.
Definition one : spec_float := of_int 1.
Definition two : spec_float := of_int 2.
Definition half : spec_float := div one two.
End F64.

Definition is_nan (x : spec_float) : bool :=
  match x with
  | S754_nan => true
  | _ => false
  end.

Definition INT_MIN : Z := - 2 ^ 31.
Definition INT_MAX : Z := 2 ^ 31 - 1.

(** The value of a finite float, rounded to an integer toward zero
    ([toward_zero = true]) or toward minus infinity. *)
Definition round_to_Z (toward_zero : bool) (x : spec_float) : option Z :=
  match x with
  | S754_zero _ => Some 0
  | S754_finite s m e =>
      let v := cond_Zopp s (Zpos m) in
      Some match e with
           | Zneg p => if toward_zero then Z.quot v (2 ^ Zpos p) else Z.div v (2 ^ Zpos p)
           | _ => v * 2 ^ e
           end
  | _ => None
  end.

(** A conversion to [int] is undefined in C when the value does not fit;
    the model returns [INT_MIN] there, as the x86 conversion does. *)
Definition int_of_option (v : option Z) : Z :=
  match v with
  | Some n => if (INT_MIN <=? n) && (n <=? INT_MAX) then n else INT_MIN
  | None => INT_MIN
  end.

(** [(int) x]. *)
Definition int_of_float (x : spec_float) : Z := int_of_option (round_to_Z true x).

(** [(int) floor(d)]. *)
Definition int_of_floor (d : spec_float) : Z := int_of_option (round_to_Z false d).

(** [(int) floor(x + 0.5)] for a [float] [x]: the sum is a [double]. *)
Definition round_half_up (x : spec_float) : Z :=
  int_of_floor (F64.add (F64.of_float x) F64.half).

(** The two values [scale_factor] takes: [2] and [1.1] (the [double]
    literal, stored in a [float]). *)
Definition double_1_1 : spec_float := S754_finite false 4953959590107546 (-52).
Definition scale_two : spec_float := F32.of_int 2.
Definition scale_hint : spec_float := F32.of_double double_1_1.

(** [n / scale_factor] and [n * scale_factor] assigned to an [int]. *)
Definition div_scale (n : Z) (scale_factor : spec_float) : Z :=
  int_of_float (F32.div (F32.of_int n) scale_factor).
Definition mul_scale (n : Z) (scale_factor : spec_float) : Z :=
  int_of_float (F32.mul (F32.of_int n) scale_factor).

(** ** Architecture and option types *)

(** [enum e_stat], kept as the [int] it is in C so that the [default] case
    of [comp_width] has inputs. *)
Definition UNIFORM : Z := 0.
Definition GAUSSIAN : Z := 1.
Definition PULSE : Z := 2.
Definition DELTA : Z := 3.

Record t_chan := {
  type : Z;
  peak : spec_float;
  width : spec_float;
  xpeak : spec_float;
  dc : spec_float
}.

Record t_chan_width_dist := {
  chan_width_io : spec_float;
  chan_x_dist : t_chan;
  chan_y_dist : t_chan
}.

Inductive e_directionality := UNI_DIRECTIONAL | BI_DIRECTIONAL.

(** Modelled from the spec: [enum pfreq] is declared in vpr_types.h, which
    is not among the sources; the placement policy is one of never, once,
    always. *)
Inductive pfreq := PLACE_NEVER | PLACE_ONCE | PLACE_ALWAYS.

(** The global [chan_width]: per-row ([x_list], indices [0..ny]) and
    per-column ([y_list], indices [0..nx]) track counts and their cached
    extrema. *)
Record t_chan_width := {
  cw_max : Z;
  x_max : Z;
  y_max : Z;
  x_min : Z;
  y_min : Z;
  x_list : list Z;
  y_list : list Z
}.

(** The inputs the routines read and never write: the fields of
    [placer_opts], [router_opts], [det_routing_arch] and [arch] they use,
    and the globals [type_descriptors], [nx], [ny]. *)
Record config := {
  doPlacement : bool;
  place_freq : pfreq;
  place_chan_width : Z;
  doRouting : bool;
  fixed_channel_width : Z;
  verify_binary_search : bool;
  min_channel_width_hint : Z;
  directionality : e_directionality;
  Fs : Z;
  Chans : t_chan_width_dist;
  num_pins : list Z;
  nx : Z;
  ny : Z
}.

(** ** Errors, messages and calls *)

(** One constructor per [vpr_throw], with the arguments of its message. *)
Inductive vpr_error :=
| GivenOddChanWidth (width_fac : Z)
| TriedOddChanWidth (current : Z)
| FsMustBeThree
| AppearsUnroutable (low : Z)
| WidthAbove1000
| WneedTooLarge (low : Z)
| UnknownChannelType (t : Z).

Inductive message :=
| InitFromHint
| InitFromMaxPins
| Attempting (current low high : Z)
| BelowFs
| FcClippedWarning
| RoutingRejectedFc
| Verifying
| BestFcClippedWarning
| BestWidth (final : Z)
| Unroutable (width_fac : Z)
| Routed (width_fac : Z).

(** The collaborators that return nothing the search looks at. *)
Inductive ext_call :=
| ReadPlace
| TryPlace (chan_width : Z)
| PrintPlace
| PostPlaceSync
| TryGraph (width_fac : Z)
| SaveRouting
| RestoreRouting
| BuildRRGraph (cw : t_chan_width)
| CheckRoute
| PrintRoute
| UpdateScreen.

Inductive event :=
| Printed (m : message)
| Called (c : ext_call)
| Routed_at (width_fac : Z) (success : bool).

(** The outcome of a routine: a value, a [vpr_throw], a failed
    [VTR_ASSERT], or a loop of the model that ran out of fuel. *)
Inductive result (A : Type) :=
| Ok (a : A)
| Throw (e : vpr_error)
| AssertFailed
| OutOfFuel.
Arguments Ok {A} a.
Arguments Throw {A} e.
Arguments AssertFailed {A}.
Arguments OutOfFuel {A}.

(** The mutable globals: what the collaborators own, the channel widths,
    and the record of what happened. *)
Record globals (World : Type) := {
  world : World;
  chan_width : t_chan_width;
  log : list event
}.
Arguments world {World} g.
Arguments chan_width {World} g.
Arguments log {World} g.

(** The collaborators and the constants the sources take from elsewhere.
    [NO_FIXED_CHANNEL_WIDTH] is a macro of vpr_types.h, [try_route] the
    router, [alloc_net_delay] the allocator of the delay array, with
    whether the pointer it returns is not null, [call] every other
    collaborator, [expf] the [exp] of <cmath> at [float]. *)
Class Environment (World : Type) := {
  NO_FIXED_CHANNEL_WIDTH : Z;
  try_route : Z -> World -> bool * World;
  alloc_net_delay : World -> bool * World;
  call : ext_call -> World -> World;
  expf : spec_float -> spec_float
}.

(** The locals of [binary_search_place_and_route] that live across
    iterations. *)
Record locals := {
  current : Z;
  low : Z;
  high : Z;
  final : Z;
  attempt_count : Z;
  using_minw_hint : bool;
  Fc_clipped : bool
}.

Definition set_current (v : Z) (l : locals) : locals :=
  {| current := v; low := low l; high := high l; final := final l;
     attempt_count := attempt_count l; using_minw_hint := using_minw_hint l;
     Fc_clipped := Fc_clipped l |}.
Definition set_low (v : Z) (l : locals) : locals :=
  {| current := current l; low := v; high := high l; final := final l;
     attempt_count := attempt_count l; using_minw_hint := using_minw_hint l;
     Fc_clipped := Fc_clipped l |}.
Definition set_high (v : Z) (l : locals) : locals :=
  {| current := current l; low := low l; high := v; final := final l;
     attempt_count := attempt_count l; using_minw_hint := using_minw_hint l;
     Fc_clipped := Fc_clipped l |}.
Definition set_final (v : Z) (l : locals) : locals :=
  {| current := current l; low := low l; high := high l; final := v;
     attempt_count := attempt_count l; using_minw_hint := using_minw_hint l;
     Fc_clipped := Fc_clipped l |}.
Definition set_attempt_count (v : Z) (l : locals) : locals :=
  {| current := current l; low := low l; high := high l; final := final l;
     attempt_count := v; using_minw_hint := using_minw_hint l;
     Fc_clipped := Fc_clipped l |}.

(** How an iteration of the search loop ends: at the bottom of the body or
    by [break]. *)
Inductive loop_ctl := Continue | Break.

(** ** The routines *)

Section Model.
Context {World : Type} {env : Environment World}.

(** A computation over the globals that may throw. *)
Definition M (A : Type) : Type := globals World -> result A * globals World.

Definition ret {A} (a : A) : M A := fun g => (Ok a, g).

Definition bind {A B} (m : M A) (k : A -> M B) : M B := fun g =>
  match m g with
  | (Ok a, g') => k a g'
  | (Throw e, g') => (Throw e, g')
  | (AssertFailed, g') => (AssertFailed, g')
  | (OutOfFuel, g') => (OutOfFuel, g')
  end.

Notation "'let*' x ':=' m 'in' k" := (bind m (fun x => k))
  (at level 10, x name, m at level 100, k at level 200, only parsing).
Notation "m ;; k" := (bind m (fun _ => k))
  (at level 100, k at level 200, right associativity, only parsing).

Definition vpr_throw {A} (e : vpr_error) : M A := fun g => (Throw e, g).

Definition VTR_ASSERT (b : bool) : M unit := fun g =>
  (if b then Ok tt else AssertFailed, g).

Definition out_of_fuel {A} : M A := fun g => (OutOfFuel, g).

Definition when (b : bool) (m : M unit) : M unit := if b then m else ret tt.

Definition emit (ev : event) : M unit := fun g =>
  (Ok tt, {| world := world g; chan_width := chan_width g; log := log g ++ [ev] |}).

Definition printf (m : message) : M unit := emit (Printed m).

Definition extern (c : ext_call) : M unit := fun g =>
  (Ok tt, {| world := call c (world g); chan_width := chan_width g;
             log := log g ++ [Called c] |}).

(** A call of [try_route] at [width_fac]. *)
Definition route (width_fac : Z) : M bool := fun g =>
  let (success, w) := try_route width_fac (world g) in
  (Ok success, {| world := w; chan_width := chan_width g;
                  log := log g ++ [Routed_at width_fac success] |}).

(** [net_delay = alloc_net_delay(...)]: the value is whether the
    pointer is not null. *)
Definition allocate_net_delay : M bool := fun g =>
  let (net_delay, w) := alloc_net_delay (world g) in
  (Ok net_delay, {| world := w; chan_width := chan_width g; log := log g |}).

Definition get_chan_width : M t_chan_width := fun g => (Ok (chan_width g), g).

Definition put_chan_width (cw : t_chan_width) : M unit := fun g =>
  (Ok tt, {| world := world g; chan_width := cw; log := log g |}).

(** *** [comp_width] *)

Definition comp_width (chan : t_chan) (x separation : spec_float) : M spec_float :=
  if type chan =? UNIFORM then
    ret (peak chan)
  else if type chan =? GAUSSIAN then
    let val := F32.div (F32.mul (F32.sub x (xpeak chan)) (F32.sub x (xpeak chan)))
                       (F32.mul (F32.mul (F32.of_int 2) (width chan)) (width chan)) in
    let val := F32.mul (peak chan) (expf (F32.neg val)) in
    ret (F32.add val (dc chan))
  else if type chan =? PULSE then
    let val := F32.of_double (SFabs (F64.of_float (F32.sub x (xpeak chan)))) in
    let val := if F64.gt (F64.of_float val) (F64.div (F64.of_float (width chan)) F64.two)
               then F32.zero else peak chan in
    ret (F32.add val (dc chan))
  else if type chan =? DELTA then
    let val := F32.sub x (xpeak chan) in
    let val := if F64.gt (F64.of_float val)
                         (F64.div (F64.of_float (F32.neg separation)) F64.two)
                  && F64.le (F64.of_float val)
                            (F64.div (F64.of_float separation) F64.two)
               then peak chan else F32.zero in
    ret (F32.add val (dc chan))
  else
    vpr_throw (UnknownChannelType (type chan)).

(** *** [init_chan] *)

(** The two arrays of [chan_width]: [x_list] is indexed by rows and
    filled from [chan_x_dist], [y_list] by columns from [chan_y_dist]. *)
Inductive axis := XList | YList.

Definition axis_list (a : axis) (cw : t_chan_width) : list Z :=
  match a with
  | XList => x_list cw
  | YList => y_list cw
  end.

Definition set_axis_list (a : axis) (l : list Z) (cw : t_chan_width) : t_chan_width :=
  match a with
  | XList =>
      {| cw_max := cw_max cw; x_max := x_max cw; y_max := y_max cw;
         x_min := x_min cw; y_min := y_min cw;
         x_list := l; y_list := y_list cw |}
  | YList =>
      {| cw_max := cw_max cw; x_max := x_max cw; y_max := y_max cw;
         x_min := x_min cw; y_min := y_min cw;
         x_list := x_list cw; y_list := l |}
  end.

(** A read of [list[i]]; outside the array C reads whatever is there,
    the model reads 0. *)
Definition load (a : axis) (i : Z) : M Z :=
  let* cw := get_chan_width in
  ret (default 0 (axis_list a cw !! Z.to_nat i)).

(** [list[i] = v]; outside the array C overwrites its neighbour, the
    model writes nothing. *)
Definition store (a : axis) (i v : Z) : M unit :=
  let* cw := get_chan_width in
  put_chan_width (set_axis_list a (<[Z.to_nat i := v]> (axis_list a cw)) cw).

(** [list[i] = (int) floor(cfactor * comp_width(dist, pos, separation) + 0.5);
     list[i] = max(list[i], 1);] *)
Definition set_interior (a : axis) (i cfactor : Z) (dist : t_chan)
    (pos separation : spec_float) : M unit :=
  let* w := comp_width dist pos separation in
  store a i (round_half_up (F32.mul (F32.of_int cfactor) w)) ;;
  let* v := load a i in
  store a i (Z.max v 1).

(** [for (int i = from; i < n - 1; ++i)] with [todo] iterations left. *)
Fixpoint fill_interior (todo : nat) (a : axis) (i n cfactor : Z) (dist : t_chan)
    (separation : spec_float) : M unit :=
  match todo with
  | O => ret tt
  | S todo' =>
      let pos := F32.div (F32.of_int i)
                         (F32.of_double (F64.sub (F64.of_int n) F64.two)) in
      set_interior a (i + 1) cfactor dist pos separation ;;
      fill_interior todo' a (i + 1) n cfactor dist separation
  end.

(** The body of [if (n > 1) { ... }] for one axis. *)
Definition init_axis (a : axis) (n cfactor : Z) (dist : t_chan) : M unit :=
  when (n >? 1)
    (let separation := F32.of_double (F64.div F64.one (F64.sub (F64.of_int n) F64.two)) in
     set_interior a 1 cfactor dist F32.zero separation ;;
     fill_interior (Z.to_nat (n - 2)) a 1 n cfactor dist separation).

(** The statistics loops at the end of [init_chan]. *)
Definition update_stats (n_x n_y : Z) (cw : t_chan_width) : t_chan_width :=
  let xs := take (Z.to_nat (n_y + 1)) (x_list cw) in
  let ys := take (Z.to_nat (n_x + 1)) (y_list cw) in
  {| cw_max := fold_left Z.max ys (fold_left Z.max xs 0);
     x_max := fold_left Z.max xs INT_MIN;
     y_max := fold_left Z.max ys INT_MIN;
     x_min := fold_left Z.min xs INT_MAX;
     y_min := fold_left Z.min ys INT_MAX;
     x_list := x_list cw;
     y_list := y_list cw |}.

Definition init_chan (cfg : config) (cfactor : Z) (chan_width_dist : t_chan_width_dist)
    : M unit :=
  let nio := round_half_up (F32.mul (F32.of_int cfactor) (chan_width_io chan_width_dist)) in
  let nio := if nio =? 0 then 1 else nio in
  store XList (ny cfg) nio ;;
  store XList 0 nio ;;
  store YList (nx cfg) nio ;;
  store YList 0 nio ;;
  init_axis XList (ny cfg) cfactor (chan_x_dist chan_width_dist) ;;
  init_axis YList (nx cfg) cfactor (chan_y_dist chan_width_dist) ;;
  let* cw := get_chan_width in
  put_chan_width (update_stats (nx cfg) (ny cfg) cw).

(** *** [binary_search_place_and_route] *)

Definition udsd_multiplier (cfg : config) : Z :=
  match directionality cfg with
  | BI_DIRECTIONAL => 1
  | UNI_DIRECTIONAL => 2
  end.

(** [router_opts.fixed_channel_width != NO_FIXED_CHANNEL_WIDTH] *)
Definition fixed_width_mode (cfg : config) : bool :=
  negb (fixed_channel_width cfg =? NO_FIXED_CHANNEL_WIDTH).

Definition place_always (cfg : config) : bool :=
  match place_freq cfg with
  | PLACE_ALWAYS => true
  | _ => false
  end.

Definition max_pins_per_clb (cfg : config) : Z := fold_left Z.max (num_pins cfg) 0.

(** Everything before [while (final == -1)]. *)
Definition init_search (cfg : config) (min_chan_width_hint : Z) : M locals :=
  let* l :=
    if fixed_width_mode cfg then
      ret {| current := fixed_channel_width cfg + 5 * udsd_multiplier cfg;
             low := fixed_channel_width cfg - 1 * udsd_multiplier cfg;
             high := -1; final := -1; attempt_count := 0;
             using_minw_hint := false; Fc_clipped := false |}
    else if min_chan_width_hint >? 0 then
      printf InitFromHint ;;
      ret {| current := min_chan_width_hint;
             low := -1;
             high := -1; final := -1; attempt_count := 0;
             using_minw_hint := true; Fc_clipped := false |}
    else
      printf InitFromMaxPins ;;
      ret {| current := max_pins_per_clb cfg + Z.rem (max_pins_per_clb cfg) 2;
             low := -1;
             high := -1; final := -1; attempt_count := 0;
             using_minw_hint := false; Fc_clipped := false |} in
  match directionality cfg with
  | UNI_DIRECTIONAL =>
      if negb (Z.rem (current l) 2 =? 0)
      then vpr_throw (TriedOddChanWidth (current l)) else ret tt
  | BI_DIRECTIONAL =>
      if negb (Z.rem (Fs cfg) 3 =? 0) then vpr_throw FsMustBeThree else ret tt
  end ;;
  VTR_ASSERT (current l >? 0) ;;
  ret l.

(** The overflow guard at the top of the loop body. *)
Definition check_width (cfg : config) (l : locals) : M unit :=
  if fixed_width_mode cfg then
    if current l >? fixed_channel_width cfg * 4
    then vpr_throw (AppearsUnroutable (low l)) else ret tt
  else
    if current l >? 1000 then vpr_throw WidthAbove1000 else ret tt.

(** The branch [if (success && !Fc_clipped)]. *)
Definition route_succeeded (cfg : config) (l : locals) : M locals :=
  let l := if current l =? high l then set_final (current l) l else l in
  let l := set_high (current l) l in
  when (Fc_clipped l) (printf FcClippedWarning) ;;
  extern SaveRouting ;;
  let scale_factor :=
    if using_minw_hint l && (attempt_count l =? 1) then scale_hint else scale_two in
  let l := if high l - low l <=? 1 * udsd_multiplier cfg
           then set_final (high l) l else l in
  ret (if negb (low l =? -1)
       then set_current (div_scale (high l + low l) scale_factor) l
       else set_current (div_scale (high l) scale_factor) l).

(** The branch [else], "last route not successful". *)
Definition route_failed (cfg : config) (success : bool) (l : locals) : M locals :=
  when (success && Fc_clipped l) (printf RoutingRejectedFc) ;;
  let l := set_low (current l) l in
  if negb (high l =? -1) then
    let l := if high l - low l <=? 1 * udsd_multiplier cfg
             then set_final (high l) l else l in
    ret (set_current (div_scale (high l + low l) scale_two) l)
  else if fixed_width_mode cfg then
    if low l <? fixed_channel_width cfg + 30
    then ret (set_current (low l + 5 * udsd_multiplier cfg) l)
    else vpr_throw (WneedTooLarge (low l))
  else
    ret (set_current (mul_scale (low l) scale_two) l).

(** One pass through the body of [while (final == -1)]. *)
Definition search_iteration (cfg : config) (l : locals) : M (loop_ctl * locals) :=
  printf (Attempting (current l) (low l) (high l)) ;;
  check_width cfg l ;;
  if current l * 3 <? Fs cfg then
    printf BelowFs ;;
    ret (Break, set_final (high l) l)
  else
    when (place_always cfg) (extern (TryPlace (current l))) ;;
    let* success := route (current l) in
    let l := set_attempt_count (attempt_count l + 1) l in
    let* l := if success && negb (Fc_clipped l)
              then route_succeeded cfg l
              else route_failed cfg success l in
    ret (Continue, set_current (current l + Z.rem (current l) (udsd_multiplier cfg)) l).

Fixpoint search_loop (cfg : config) (fuel : nat) (l : locals) : M locals :=
  if final l =? -1 then
    match fuel with
    | O => out_of_fuel
    | S fuel' =>
        let* r := search_iteration cfg l in
        match r with
        | (Break, l') => ret l'
        | (Continue, l') => search_loop cfg fuel' l'
        end
    end
  else ret l.

(** The body of [while (prev2_success || prev_success)] after its two
    [break] tests; it returns [success] with the locals. *)
Definition verify_iteration (cfg : config) (l : locals) : M (bool * locals) :=
  when (place_always cfg) (extern (TryPlace (current l))) ;;
  let* success := route (current l) in
  let* l :=
    if success && Bool.eqb (Fc_clipped l) false then
      let l := set_final (current l) l in
      extern SaveRouting ;;
      when (place_always cfg) (extern PrintPlace) ;;
      ret l
    else ret l in
  let l := set_current (current l - 1) l in
  let l := match directionality cfg with
           | UNI_DIRECTIONAL => set_current (current l - 1) l
           | BI_DIRECTIONAL => l
           end in
  ret (success, l).

(** The verification of the minimum. *)
Fixpoint verify_loop (cfg : config) (fuel : nat) (l : locals)
    (prev_success prev2_success : bool) : M locals :=
  if prev2_success || prev_success then
    if fixed_width_mode cfg && (current l <? fixed_channel_width cfg) then ret l
    else if current l <? 1 then ret l
    else
      match fuel with
      | O => out_of_fuel
      | S fuel' =>
          let* r := verify_iteration cfg l in
          verify_loop cfg fuel' (snd r) (fst r) prev_success
      end
  else ret l.

(** The search, with [fuel] bounding the iterations of its first loop;
    the second loop decreases [current] and stops below 1, so
    [final - 2] iterations are all it can make. *)
Definition binary_search_place_and_route (cfg : config)
    (verify_binary_search : bool) (min_chan_width_hint : Z) (fuel : nat) : M Z :=
  let* l := init_search cfg min_chan_width_hint in
  let* l := search_loop cfg fuel l in
  let* l :=
    if verify_binary_search then
      printf Verifying ;;
      verify_loop cfg (Z.to_nat (final l - 2)) (set_current (final l - 2) l) true true
    else ret l in
  init_chan cfg (final l) (Chans cfg) ;;
  let* cw := get_chan_width in
  extern (BuildRRGraph cw) ;;
  extern RestoreRouting ;;
  extern CheckRoute ;;
  when (Fc_clipped l) (printf BestFcClippedWarning) ;;
  printf (BestWidth (final l)) ;;
  extern PrintRoute ;;
  extern UpdateScreen ;;
  ret (final l).

(** *** [place_and_route] *)

(** The placement at the head of [place_and_route], up to
    [post_place_sync]. *)
Definition placement (cfg : config) : M unit :=
  (if negb (doPlacement cfg)
      || match place_freq cfg with PLACE_NEVER => true | _ => false end
   then extern ReadPlace
   else
     VTR_ASSERT match place_freq cfg with
                | PLACE_ONCE | PLACE_ALWAYS => true
                | PLACE_NEVER => false
                end ;;
     extern (TryPlace (place_chan_width cfg)) ;;
     extern PrintPlace) ;;
  extern PostPlaceSync.

Definition place_and_route (cfg : config) (fuel : nat) : M bool :=
  placement cfg ;;
  let width_fac := fixed_channel_width cfg in
  if negb (doRouting cfg) then
    when (negb (width_fac =? NO_FIXED_CHANNEL_WIDTH)) (extern (TryGraph width_fac)) ;;
    ret true
  else if NO_FIXED_CHANNEL_WIDTH =? width_fac then
    let* channel_width :=
      binary_search_place_and_route cfg (verify_binary_search cfg)
        (min_channel_width_hint cfg) fuel in
    ret (channel_width >? 0)
  else
    match directionality cfg with
    | UNI_DIRECTIONAL =>
        if negb (Z.rem width_fac 2 =? 0)
        then vpr_throw (GivenOddChanWidth width_fac) else ret tt
    | BI_DIRECTIONAL => ret tt
    end ;;
    let* net_delay := allocate_net_delay in
    let* success := route width_fac in
    (if negb success then printf (Unroutable width_fac)
     else
       extern CheckRoute ;;
       printf (Routed width_fac) ;;
       extern PrintRoute) ;;
    extern UpdateScreen ;;
    VTR_ASSERT net_delay ;;
    ret success.

End Model.

(** ** The effect of the search on its locals *)

(** What the monadic routines do to the locals and to the log, as plain
    functions of the locals and of the router's answer.  The theorems
    relate them to the routines. *)
Section Analysis.
Context {World : Type} {env : Environment World}.

Definition add_events (g : globals World) (evs : list event) : globals World :=
  {| world := world g; chan_width := chan_width g; log := log g ++ evs |}.

(** The width, bounds and flags the initialisation assigns. *)
Definition initial_guess (cfg : config) (min_chan_width_hint : Z) : locals :=
  if fixed_width_mode cfg then
    {| current := fixed_channel_width cfg + 5 * udsd_multiplier cfg;
       low := fixed_channel_width cfg - 1 * udsd_multiplier cfg;
       high := -1; final := -1; attempt_count := 0;
       using_minw_hint := false; Fc_clipped := false |}
  else if min_chan_width_hint >? 0 then
    {| current := min_chan_width_hint; low := -1;
       high := -1; final := -1; attempt_count := 0;
       using_minw_hint := true; Fc_clipped := false |}
  else
    {| current := max_pins_per_clb cfg + Z.rem (max_pins_per_clb cfg) 2; low := -1;
       high := -1; final := -1; attempt_count := 0;
       using_minw_hint := false; Fc_clipped := false |}.

Definition init_events (cfg : config) (min_chan_width_hint : Z) : list event :=
  if fixed_width_mode cfg then []
  else if min_chan_width_hint >? 0 then [Printed InitFromHint]
  else [Printed InitFromMaxPins].

Definition init_result (cfg : config) (min_chan_width_hint : Z) : result locals :=
  let l := initial_guess cfg min_chan_width_hint in
  if match directionality cfg with
     | UNI_DIRECTIONAL => negb (Z.rem (current l) 2 =? 0)
     | BI_DIRECTIONAL => negb (Z.rem (Fs cfg) 3 =? 0)
     end
  then Throw match directionality cfg with
             | UNI_DIRECTIONAL => TriedOddChanWidth (current l)
             | BI_DIRECTIONAL => FsMustBeThree
             end
  else if current l >? 0 then Ok l else AssertFailed.

(** The error of the overflow guard, if it fires. *)
Definition width_guard (cfg : config) (l : locals) : option vpr_error :=
  if fixed_width_mode cfg then
    if current l >? fixed_channel_width cfg * 4
    then Some (AppearsUnroutable (low l)) else None
  else
    if current l >? 1000 then Some WidthAbove1000 else None.

(** The locals at the end of the branch of a successful trial. *)
Definition succeeded_locals (cfg : config) (l : locals) : locals :=
  let l := if current l =? high l then set_final (current l) l else l in
  let l := set_high (current l) l in
  let scale_factor :=
    if using_minw_hint l && (attempt_count l =? 1) then scale_hint else scale_two in
  let l := if high l - low l <=? 1 * udsd_multiplier cfg
           then set_final (high l) l else l in
  if negb (low l =? -1)
  then set_current (div_scale (high l + low l) scale_factor) l
  else set_current (div_scale (high l) scale_factor) l.

(** The locals at the end of the branch of a failed trial, or its error. *)
Definition failed_locals (cfg : config) (l : locals) : result locals :=
  let l := set_low (current l) l in
  if negb (high l =? -1) then
    let l := if high l - low l <=? 1 * udsd_multiplier cfg
             then set_final (high l) l else l in
    Ok (set_current (div_scale (high l + low l) scale_two) l)
  else if fixed_width_mode cfg then
    if low l <? fixed_channel_width cfg + 30
    then Ok (set_current (low l + 5 * udsd_multiplier cfg) l)
    else Throw (WneedTooLarge (low l))
  else
    Ok (set_current (mul_scale (low l) scale_two) l).

(** [current = current + current % udsd_multiplier] *)
Definition round_to_step (cfg : config) (l : locals) : locals :=
  set_current (current l + Z.rem (current l) (udsd_multiplier cfg)) l.

(** The outcome of an iteration whose trial, if it runs, answers
    [success]. *)
Definition iteration_result (cfg : config) (l : locals) (success : bool)
    : result (loop_ctl * locals) :=
  match width_guard cfg l with
  | Some e => Throw e
  | None =>
      if current l * 3 <? Fs cfg then Ok (Break, set_final (high l) l)
      else
        let l := set_attempt_count (attempt_count l + 1) l in
        if success && negb (Fc_clipped l)
        then Ok (Continue, round_to_step cfg (succeeded_locals cfg l))
        else match failed_locals cfg l with
             | Ok l => Ok (Continue, round_to_step cfg l)
             | Throw e => Throw e
             | AssertFailed => AssertFailed
             | OutOfFuel => OutOfFuel
             end
  end.

(** What the iteration appends to the log. *)
Definition iteration_events (cfg : config) (l : locals) (success : bool)
    : list event :=
  Printed (Attempting (current l) (low l) (high l)) ::
  match width_guard cfg l with
  | Some _ => []
  | None =>
      if current l * 3 <? Fs cfg then [Printed BelowFs]
      else
        (if place_always cfg then [Called (TryPlace (current l))] else []) ++
        Routed_at (current l) success ::
        (if success && negb (Fc_clipped l)
         then (if Fc_clipped l then [Printed FcClippedWarning] else []) ++
              [Called SaveRouting]
         else if success && Fc_clipped l then [Printed RoutingRejectedFc] else [])
  end.

(** The world [try_route] is called in by an iteration started in [g]. *)
Definition world_at_trial (cfg : config) (l : locals) (g : globals World) : World :=
  if place_always cfg then call (TryPlace (current l)) (world g) else world g.

(** The answer of that call. *)
Definition trial_answer (cfg : config) (l : locals) (g : globals World) : bool :=
  fst (try_route (current l) (world_at_trial cfg l g)).

(** The locals after an iteration of the verification whose trial
    answers [success]. *)
Definition verified_locals (cfg : config) (l : locals) (success : bool) : locals :=
  let l := if success && Bool.eqb (Fc_clipped l) false
           then set_final (current l) l else l in
  let l := set_current (current l - 1) l in
  match directionality cfg with
  | UNI_DIRECTIONAL => set_current (current l - 1) l
  | BI_DIRECTIONAL => l
  end.

Definition verify_events (cfg : config) (l : locals) (success : bool) : list event :=
  (if place_always cfg then [Called (TryPlace (current l))] else []) ++
  Routed_at (current l) success ::
  (if success && Bool.eqb (Fc_clipped l) false
   then Called SaveRouting :: (if place_always cfg then [Called PrintPlace] else [])
   else []).

(** The profile kinds [comp_width] has a case for. *)
Definition known_chan_type (t : Z) : bool :=
  (t =? UNIFORM) || (t =? GAUSSIAN) || (t =? PULSE) || (t =? DELTA).

(** The outcome of a routine that can only throw through [comp_width]
    on the profile [dist], and returns when the kind of [dist] is known. *)
Definition chan_outcome {A} (dist : t_chan) (r : result A) : Prop :=
  match r with
  | Ok _ => True
  | Throw e => e = UnknownChannelType (type dist) /\ known_chan_type (type dist) = false
  | _ => False
  end.

(** [l'] is [l] with the entries at [lo + 1 .. hi] replaced by counts of
    at least 1. *)
Definition filled (lo hi : nat) (l l' : list Z) : Prop :=
  length l' = length l /\
  (forall j, (j <= lo \/ hi < j)%nat -> l' !! j = l !! j) /\
  (forall j, (lo < j <= hi)%nat -> (j < length l)%nat ->
             exists w, l' !! j = Some w /\ 1 <= w).

(** The counts [init_chan] leaves in a list of [n + 1] entries: the
    I/O count at both ends, counts of at least 1 in between. *)
Definition counts_of (n : Z) (edge : Z) (l : list Z) : Prop :=
  l !! 0%nat = Some edge /\
  l !! Z.to_nat n = Some edge /\
  (forall j, (0 < j < Z.to_nat n)%nat -> exists w, l !! j = Some w /\ 1 <= w).

(** [m] appends to the log only events that satisfy [P], and its outcome
    satisfies [R]. *)
Definition performs {A} (P : event -> Prop) (m : @M World A)
    (R : result A -> Prop) : Prop :=
  forall g r g', m g = (r, g') ->
    (exists evs, log g' = log g ++ evs /\ Forall P evs) /\ R r.

(** The locals the search loop ends on, when [Inv] holds at the top of
    its body: [final] is known, or an iteration left by [break]. *)
Definition search_exit (cfg : config) (Inv : locals -> Prop) (l' : locals) : Prop :=
  (Inv l' /\ final l' <> -1) \/
  (exists l g0, Inv l /\ final l = -1 /\
     iteration_result cfg l (trial_answer cfg l g0) = Ok (Break, l')).

(** The events of the search outside its two loops. *)
Definition tail_event (ev : event) : Prop :=
  match ev with
  | Printed Verifying | Printed (BestWidth _) => True
  | Called (BuildRRGraph _) | Called RestoreRouting | Called CheckRoute
  | Called PrintRoute | Called UpdateScreen => True
  | _ => False
  end.

(** A trial, if [ev] is one, is at an even width. *)
Definition even_trial (ev : event) : Prop :=
  match ev with
  | Routed_at width_fac _ => Z.even width_fac = true
  | _ => True
  end.

(** [ev] is not a trial. *)
Definition no_trial (ev : event) : Prop :=
  match ev with
  | Routed_at _ _ => False
  | _ => True
  end.

(** [ev] is none of the three messages about a clipped Fc_output. *)
Definition no_clipping_message (ev : event) : Prop :=
  match ev with
  | Printed FcClippedWarning | Printed RoutingRejectedFc
  | Printed BestFcClippedWarning => False
  | _ => True
  end.

(** Under unidirectional routing: the width to try is even, and so are
    the upper bound and [final] once they are known. *)
Definition parity_inv (l : locals) : Prop :=
  Z.even (current l) = true /\
  (high l = -1 \/ Z.even (high l) = true) /\
  (final l = -1 \/ Z.even (final l) = true).

(** The locals at the top of the loop body, in some run of the search. *)
Inductive reachable (cfg : config) (hint : Z) : locals -> Prop :=
| reach_init g l g' :
    init_search cfg hint g = (Ok l, g') ->
    reachable cfg hint l
| reach_step l g l' g' :
    reachable cfg hint l ->
    final l = -1 ->
    search_iteration cfg l g = (Ok (Continue, l'), g') ->
    reachable cfg hint l'.

(** The same while no trial has given an upper bound yet. *)
Inductive high_unknown_so_far (cfg : config) (hint : Z) : locals -> Prop :=
| unknown_init g l g' :
    init_search cfg hint g = (Ok l, g') ->
    high_unknown_so_far cfg hint l
| unknown_step l g l' g' :
    high_unknown_so_far cfg hint l ->
    final l = -1 ->
    search_iteration cfg l g = (Ok (Continue, l'), g') ->
    high l' = -1 ->
    high_unknown_so_far cfg hint l'.
End Analysis.

(** ** Routers and inputs of the examples *)

(** A router whose answer depends on the width alone. *)
Definition width_router (f : Z -> bool) : Environment unit :=
  {| NO_FIXED_CHANNEL_WIDTH := -1;
     try_route := fun width_fac u => (f width_fac, u);
     alloc_net_delay := fun u => (true, u);
     call := fun _ u => u;
     expf := fun x => x |}.

(** A router that answers from a script, whatever the width. *)
Definition scripted_router : Environment (list bool) :=
  {| NO_FIXED_CHANNEL_WIDTH := -1;
     try_route := fun _ script =>
       match script with
       | b :: script' => (b, script')
       | [] => (false, [])
       end;
     alloc_net_delay := fun script => (true, script);
     call := fun _ script => script;
     expf := fun x => x |}.

Definition float_one : spec_float := F32.of_int 1.

Definition uniform_one : t_chan :=
  {| type := UNIFORM; peak := float_one; width := F32.zero; xpeak := F32.zero;
     dc := F32.zero |}.

Definition uniform_chans (io : spec_float) : t_chan_width_dist :=
  {| chan_width_io := io; chan_x_dist := uniform_one; chan_y_dist := uniform_one |}.

(** A 2 by 2 grid with its channel lists allocated and zeroed. *)
Definition empty_chan_width : t_chan_width :=
  {| cw_max := 0; x_max := 0; y_max := 0; x_min := 0; y_min := 0;
     x_list := [0; 0; 0]; y_list := [0; 0; 0] |}.

Definition start {World : Type} (w : World) : globals World :=
  {| world := w; chan_width := empty_chan_width; log := [] |}.

(** An unconstrained search on a 2 by 2 grid. *)
Definition search_config (d : e_directionality) (fs hint : Z) (pins : list Z)
    (verify : bool) : config :=
  {| doPlacement := false; place_freq := PLACE_NEVER; place_chan_width := 0;
     doRouting := true; fixed_channel_width := -1;
     verify_binary_search := verify; min_channel_width_hint := hint;
     directionality := d; Fs := fs; Chans := uniform_chans float_one;
     num_pins := pins; nx := 2; ny := 2 |}.

(** A search around the fixed width [w]. *)
Definition fixed_config (d : e_directionality) (fs w : Z) : config :=
  {| doPlacement := false; place_freq := PLACE_NEVER; place_chan_width := 0;
     doRouting := true; fixed_channel_width := w;
     verify_binary_search := false; min_channel_width_hint := -1;
     directionality := d; Fs := fs; Chans := uniform_chans float_one;
     num_pins := [2]; nx := 2; ny := 2 |}.


Definition found_twenty : locals :=
  {| current := 19; low := 19; high := 20; final := 20; attempt_count := 5;
     using_minw_hint := false; Fc_clipped := false |}.

Definition second_attempt_at_two : locals :=
  {| current := 2; low := -1; high := 2; final := -1; attempt_count := 1;
     using_minw_hint := false; Fc_clipped := false |}.


(** A pulse of height 1 and width 1 centred at 0. *)
Definition pulse_one : t_chan :=
  {| type := PULSE; peak := float_one; width := float_one; xpeak := F32.zero;
     dc := F32.zero |}.

(** ** Widths, bounds and the log of a search *)

Section SearchAnalysis.
Context {World : Type} {env : Environment World}.

(** The largest width the overflow guard lets through. *)
Definition width_bound (cfg : config) : Z :=
  if fixed_width_mode cfg then fixed_channel_width cfg * 4 else 1000.

(** [current + current % udsd_multiplier] *)
Definition step_up (cfg : config) (v : Z) : Z := v + Z.rem v (udsd_multiplier cfg).

(** The three stages of the loop: no upper bound yet; an upper bound and
    no failed width; both bounds, with the next width between them. *)
Definition doubling (l : locals) : Prop :=
  high l = -1 /\ 1 <= current l /\ -1 <= low l < current l.
Definition halving (l : locals) : Prop :=
  high l <> -1 /\ low l = -1 /\ 0 <= current l <= high l /\ high l <= 1000.
Definition bisecting (l : locals) : Prop :=
  high l <> -1 /\ low l <> -1 /\ 0 <= low l /\ low l < current l < high l /\
  high l <= 1000.

(** What holds at the top of the body in an unconstrained search. *)
Definition search_inv (l : locals) : Prop :=
  Fc_clipped l = false /\
  (attempt_count l = 0 -> low l = -1 /\ high l = -1) /\
  0 <= attempt_count l /\
  (final l = -1 -> doubling l \/ halving l \/ bisecting l).

(** A number of iterations the loop cannot exceed from [l]. *)
Definition iterations_left (l : locals) : nat :=
  if high l =? -1 then Z.to_nat (2002 + (1001 - current l))
  else if low l =? -1 then Z.to_nat (1001 + high l)
  else Z.to_nat (high l - low l).

(** The widths [0 .. n]. *)
Definition widths_upto (n : nat) : list Z := map Z.of_nat (seq 0 (S n)).

(** [h / 1.1] as the code computes it is below [h], is 0 only for
    [h = 1], and is below [h - 1] from 12 on. *)
Definition hint_division_ok (h : Z) : bool :=
  let r := div_scale h scale_hint in
  (h =? 0) ||
  (0 <=? r) && (r <? h) && implb (r =? 0) (h =? 1) && implb (12 <=? h) (r + 1 <? h).

(** [c * 2] as the code computes it is exact. *)
Definition doubling_ok (c : Z) : bool := mul_scale c scale_two =? 2 * c.

(** What the search appends to the log after its loops, given the
    channel widths [init_chan] computed. *)
Definition closing_events (l : locals) (cw : t_chan_width) : list event :=
  [Called (BuildRRGraph cw); Called RestoreRouting; Called CheckRoute] ++
  (if Fc_clipped l then [Printed BestFcClippedWarning] else []) ++
  [Printed (BestWidth (final l)); Called PrintRoute; Called UpdateScreen].

(** Enough fuel for any unconstrained search. *)
Definition search_fuel : nat := 3003.

(** A trial of the loop of the search, if [ev] is one, is at a width
    the overflow guard lets through and not below the floor of Fs; and
    [ev] is not the message that opens the verification. *)
Definition loop_trial (cfg : config) (ev : event) : Prop :=
  match ev with
  | Routed_at width_fac _ => width_fac <= width_bound cfg /\ Fs cfg <= width_fac * 3
  | Printed Verifying => False
  | _ => True
  end.

(** A trial of the verification, if [ev] is one, is at a width of at
    least 1 that the overflow guard lets through, and not below the
    fixed width in a search around one. *)
Definition verify_trial (cfg : config) (ev : event) : Prop :=
  match ev with
  | Routed_at width_fac _ =>
      1 <= width_fac <= width_bound cfg /\
      (fixed_width_mode cfg = true -> fixed_channel_width cfg <= width_fac)
  | _ => True
  end.

(** [save_routing] copies the routing the last call of [try_route]
    left.  Reading a log from its start, the state holds the last trial
    and the trial whose routing was saved last, each with its width and
    the router's answer. *)
Definition note_event (st : option (Z * bool) * option (Z * bool)) (ev : event)
    : option (Z * bool) * option (Z * bool) :=
  match ev with
  | Routed_at width_fac success => (Some (width_fac, success), snd st)
  | Called SaveRouting => (fst st, fst st)
  | _ => st
  end.

(** The trial whose routing [restore_routing] brings back. *)
Definition saved_routing (evs : list event) : option (Z * bool) :=
  snd (fold_left note_event evs (None, None)).

(** [ev] is not a trial the router reported successful. *)
Definition no_success (ev : event) : Prop :=
  match ev with
  | Routed_at _ true => False
  | _ => True
  end.

(** [v] is a multiple of the step. *)
Definition on_step (cfg : config) (v : Z) : Prop :=
  Z.rem v (udsd_multiplier cfg) = 0.

(** What holds at the top of the body when the router succeeds exactly
    at the widths from [m] on: the failed width is below [m], the upper
    bound is not; the widths are multiples of the step; [final], once
    known, is the least multiple of the step from [m] on. *)
Definition minimum_inv (cfg : config) (m : Z) (l : locals) : Prop :=
  search_inv l /\
  (final l = -1 -> current l <= 1000) /\
  low l < m /\
  (high l = -1 \/ m <= high l) /\
  on_step cfg (current l) /\
  (low l = -1 \/ on_step cfg (low l)) /\
  (high l = -1 \/ on_step cfg (high l)) /\
  (using_minw_hint l = true -> attempt_count l = 0 ->
   udsd_multiplier cfg = 2 -> 12 <= current l) /\
  (final l = -1 -> high l <> -1 -> low l = -1 ->
   (current l = high l -> high l = step_up cfg m) /\
   (current l = 0 -> high l = 1)) /\
  (final l <> -1 -> final l = step_up cfg m).

(** The calls of [try_route] in a log, in order: width and answer. *)
Definition trials_of (evs : list event) : list (Z * bool) :=
  flat_map (fun ev => match ev with
                      | Routed_at width_fac success => [(width_fac, success)]
                      | _ => []
                      end) evs.

(** Reading a log from its start: the width of the placement the last
    event made, if it was a call of [try_place], and whether every
    trial so far directly followed a placement for its width. *)
Definition placed_step (st : option Z * bool) (ev : event) : option Z * bool :=
  match ev with
  | Called (TryPlace chan_width) => (Some chan_width, snd st)
  | Routed_at width_fac _ =>
      (None, snd st && match fst st with
                       | Some placed => placed =? width_fac
                       | None => false
                       end)
  | _ => (None, snd st)
  end.

Definition placed_before_trials (evs : list event) : bool :=
  snd (fold_left placed_step evs (None, true)).

(** [ev] is not a call of [try_place]. *)
Definition no_placement (ev : event) : Prop :=
  match ev with
  | Called (TryPlace _) => False
  | _ => True
  end.

(** Trials at [c], [c - step], [c - 2 * step], ... with the given
    answers. *)
Fixpoint descending (c step : Z) (answers : list bool) : list (Z * bool) :=
  match answers with
  | [] => []
  | a :: rest => (c, a) :: descending (c - step) step rest
  end.

(** No answer follows two failures in a row, the answer before the
    first one being [prev]. *)
Fixpoint stops_after_two_failures (prev : bool) (answers : list bool) : bool :=
  match answers with
  | [] => true
  | a :: rest =>
      if negb prev && negb a
      then match rest with [] => true | _ :: _ => false end
      else stops_after_two_failures a rest
  end.

(** The width of the last successful trial, [final] if there is none. *)
Definition last_success (width : Z) (trials : list (Z * bool)) : Z :=
  fold_left (fun (f : Z) (t : Z * bool) => if snd t then fst t else f) trials width.

(** Whether the verification makes a trial at the width [c] when the
    last two answers were [prev] and [prev2]: the condition of its
    [while] and the two tests that [break]. *)
Definition verification_goes_on (cfg : config) (c : Z) (prev prev2 : bool) : bool :=
  (prev2 || prev)
  && negb (fixed_width_mode cfg && (c <? fixed_channel_width cfg))
  && negb (c <? 1).

(** Whether [answers] are the answers of a whole run of the
    verification from the width [c]: it makes a trial for each of
    them, and none after the last. *)
Fixpoint answers_of_verification (cfg : config) (c : Z) (prev prev2 : bool)
    (answers : list bool) : bool :=
  match answers with
  | [] => negb (verification_goes_on cfg c prev prev2)
  | a :: rest =>
      verification_goes_on cfg c prev prev2
      && answers_of_verification cfg (c - udsd_multiplier cfg) a prev rest
  end.
End SearchAnalysis.

(** ** The lists [init_chan] computes *)

Section ChanAnalysis.
Context {World : Type} {env : Environment World}.

(** The count of an interior channel whose relative density is [w]:
    [max((int) floor(cfactor * w + 0.5), 1)]. *)
Definition interior_count (cfactor : Z) (w : spec_float) : Z :=
  Z.max (round_half_up (F32.mul (F32.of_int cfactor) w)) 1.

(** The count of the channels at the two ends. *)
Definition io_count (cfactor : Z) (dist : t_chan_width_dist) : Z :=
  let nio := round_half_up (F32.mul (F32.of_int cfactor) (chan_width_io dist)) in
  if nio =? 0 then 1 else nio.

(** The distance between two channels of a list of [n + 1], and the
    position of entry [j], as [init_chan] computes them: entry 1 is at
    0, entry [i + 1] at [i / (n - 2)]. *)
Definition channel_separation (n : Z) : spec_float :=
  F32.of_double (F64.div F64.one (F64.sub (F64.of_int n) F64.two)).

Definition channel_position (n : Z) (j : nat) : spec_float :=
  match j with
  | 1%nat => F32.zero
  | _ => F32.div (F32.of_int (Z.of_nat j - 1))
                 (F32.of_double (F64.sub (F64.of_int n) F64.two))
  end.

(** Entry [j] of [l] is the count of the profile [chan] at its
    position. *)
Definition entry_of (cfactor : Z) (chan : t_chan) (n : Z) (l : list Z) (j : nat)
    : Prop :=
  exists w,
    (forall g : globals World,
       fst (comp_width chan (channel_position n j) (channel_separation n) g) = Ok w) /\
    l !! j = Some (interior_count cfactor w).

(** [l'] is [l] with the entries at [lo + 1 .. hi] replaced by the
    counts of the profile. *)
Definition filled_from (cfactor : Z) (chan : t_chan) (n : Z) (lo hi : nat)
    (l l' : list Z) : Prop :=
  length l' = length l /\
  (forall j, (j <= lo \/ hi < j)%nat -> l' !! j = l !! j) /\
  (forall j, (lo < j <= hi)%nat -> (j < length l)%nat -> entry_of cfactor chan n l' j).

(** A list of [n + 1] counts as [init_chan] leaves it: the I/O count
    at both ends, the counts of the profile in between. *)
Definition entries_of (cfactor : Z) (chan : t_chan) (n edge : Z) (l : list Z) : Prop :=
  length l = S (Z.to_nat n) /\
  l !! 0%nat = Some edge /\
  l !! Z.to_nat n = Some edge /\
  (forall j, (0 < j < Z.to_nat n)%nat -> entry_of cfactor chan n l j).

(** [n + 1] counts: [edge] at the two ends, [inner] in between. *)
Definition framed (n : Z) (edge inner : Z) : list Z :=
  <[0%nat := edge]> (<[Z.to_nat n := edge]> (replicate (S (Z.to_nat n)) inner)).

(** A density of 1.0 scaled by [w] and rounded is [w]. *)
Definition unit_scaling_ok (w : Z) : bool :=
  round_half_up (F32.mul (F32.of_int w) float_one) =? w.
End ChanAnalysis.

(** ** Connections between the sides of a switch block *)

(** [enum e_side], with the values the header gives its members. *)
Inductive e_side := TOP | RIGHT | BOTTOM | LEFT.

Definition side_value (s : e_side) : Z :=
  match s with
  | TOP => 0
  | RIGHT => 1
  | BOTTOM => 2
  | LEFT => 3
  end.

(** [class SB_Side_Connection]: its two fields, its two constructors,
    [set_sides], and [operator<], the order [std::map] keeps its keys
    in. *)
Module SB_Side_Connection.
Record t := make { from_side : e_side; to_side : e_side }.

Definition default : t := make TOP TOP.

Definition set_sides (from to : e_side) (c : t) : t := make from to.

Definition lt (c obj : t) : bool :=
  if side_value (from_side c) <? side_value (from_side obj) then true
  else if side_value (from_side c) =? side_value (from_side obj)
       then (if side_value (to_side c) <? side_value (to_side obj) then true else false)
       else false.
End SB_Side_Connection.

(** ** Routers that answer by the width *)

Section WidthAnalysis.
Context {World : Type} {env : Environment World}.

(** [h / 1.1] as the code computes it is [10 * h / 11]. *)
Definition hint_tenths_ok (h : Z) : bool := div_scale h scale_hint =? 10 * h / 11.

(** The widths [w - step] and [w - 2 * step], where they are at least
    1, are widths at which [f] fails. *)
Definition two_below_fail (f : Z -> bool) (step w : Z) : Prop :=
  (1 <= w - step -> f (w - step) = false) /\
  (1 <= w - 2 * step -> f (w - 2 * step) = false).

(** What holds at the top of the body under bidirectional routing when
    the router's answer depends on the width alone: it fails at the
    lower bound and succeeds at the upper bound, and [final], once
    known, is a width at which it succeeds and below which it fails. *)
Definition local_inv (f : Z -> bool) (l : locals) : Prop :=
  search_inv l /\
  (low l <> -1 -> f (low l) = false) /\
  (high l <> -1 -> f (high l) = true /\ 1 <= high l) /\
  (final l = -1 -> high l <> -1 -> low l = -1 ->
   current l < high l /\ (current l = 0 -> high l = 1)) /\
  (final l <> -1 ->
   f (final l) = true /\ 1 <= final l /\
   (1 <= final l - 1 -> f (final l - 1) = false)).
End WidthAnalysis.

(** ** More inputs of the examples *)

(** A router that succeeds exactly at the widths from [m] on. *)
Definition threshold_router (m : Z) : Environment unit :=
  width_router (fun width_fac => m <=? width_fac).

(** An unconstrained search that places again before every trial. *)
Definition replacing_config (d : e_directionality) (fs hint : Z) (pins : list Z)
    (verify : bool) : config :=
  {| doPlacement := true; place_freq := PLACE_ALWAYS; place_chan_width := 0;
     doRouting := true; fixed_channel_width := -1;
     verify_binary_search := verify; min_channel_width_hint := hint;
     directionality := d; Fs := fs; Chans := uniform_chans float_one;
     num_pins := pins; nx := 2; ny := 2 |}.

(** A delta of height 1 at the middle of the chip, and the distribution
    with it along the rows. *)
Definition delta_one : t_chan :=
  {| type := DELTA; peak := float_one; width := F32.zero;
     xpeak := F32.div float_one scale_two; dc := F32.zero |}.

Definition delta_chans : t_chan_width_dist :=
  {| chan_width_io := float_one; chan_x_dist := delta_one; chan_y_dist := uniform_one |}.

(** A router that succeeds at width 3 and from width 6 on. *)
Definition gap_answer (width_fac : Z) : bool := (width_fac =? 3) || (6 <=? width_fac).

Definition gap_router : Environment unit := width_router gap_answer.

(** The 2 by 2 grid with other counts in its channel lists. *)
Definition used_chan_width : t_chan_width :=
  {| cw_max := 9; x_max := 7; y_max := 9; x_min := 7; y_min := 9;
     x_list := [7; 7; 7]; y_list := [9; 9; 9] |}.

Definition used {World : Type} (w : World) : globals World :=
  {| world := w; chan_width := used_chan_width; log := [] |}.

(** The locals after a successful first trial at the hint 10. *)
Definition after_hint_ten : locals :=
  {| current := 9; low := -1; high := 10; final := -1; attempt_count := 1;
     using_minw_hint := true; Fc_clipped := false |}.

(** A router that always succeeds, with an allocator that returns a null
    pointer. *)
Definition null_delay_router : Environment unit :=
  {| NO_FIXED_CHANNEL_WIDTH := -1;
     try_route := fun _ u => (true, u);
     alloc_net_delay := fun u => (false, u);
     call := fun _ u => u;
     expf := fun x => x |}.






(** * Properties *)

(** [lia] with the integer division and remainder of C. *)
Ltac Zify.zify_post_hook ::= Z.to_euclidean_division_equations.

(** ** Exactness of the halving *)

Lemma digits2_pos_bounds p :
  2 ^ (Z.pos (digits2_pos p) - 1) <= Z.pos p < 2 ^ Z.pos (digits2_pos p).
Proof.
  induction p as [p IH|p IH|]; cbn [digits2_pos].
  - rewrite Pos2Z.inj_succ, Z.pow_succ_r by lia.
    replace (Z.succ (Z.pos (digits2_pos p)) - 1)
      with (Z.succ (Z.pos (digits2_pos p) - 1)) by lia.
    rewrite Z.pow_succ_r by lia. lia.
  - rewrite Pos2Z.inj_succ, Z.pow_succ_r by lia.
    replace (Z.succ (Z.pos (digits2_pos p)) - 1)
      with (Z.succ (Z.pos (digits2_pos p) - 1)) by lia.
    rewrite Z.pow_succ_r by lia. lia.
  - cbn. lia.
Qed.

Lemma digits2_pos_iter_xO p k :
  digits2_pos (Pos.iter xO p k) = (digits2_pos p + k)%positive.
Proof.
  induction k as [|k IH] using Pos.peano_ind.
  - cbn. lia.
  - rewrite Pos.iter_succ. cbn [digits2_pos]. rewrite IH. lia.
Qed.

Lemma iter_xO_value p k : Z.pos (Pos.iter xO p k) = Z.pos p * 2 ^ Z.pos k.
Proof.
  induction k as [|k IH] using Pos.peano_ind.
  - cbn. lia.
  - rewrite Pos.iter_succ, Pos2Z.inj_succ, Z.pow_succ_r by lia.
    rewrite Pos2Z.inj_xO, IH. lia.
Qed.

(** A mantissa that is already canonical is not rounded. *)
Lemma round_aux_canonical prec emax s m e :
  bounded prec emax m e = true ->
  binary_round_aux prec emax s (Z.pos m) e loc_Exact = S754_finite s m e.
Proof.
  unfold bounded, canonical_mantissa. intros Hb.
  apply andb_prop in Hb. destruct Hb as [Hc He].
  apply Z.eqb_eq in Hc.
  unfold binary_round_aux, shr_fexp. cbn [Zdigits2 shr_record_of_loc].
  rewrite Hc, Z.sub_diag.
  cbn [shr shr_m loc_of_shr_record round_nearest_even Zdigits2].
  rewrite Hc, Z.sub_diag. cbn [shr shr_m]. rewrite He. reflexivity.
Qed.

(** An [int] below [2 ^ 24] in magnitude converts to [float] without
    rounding. *)
Lemma round_small s p :
  Z.pos p < 2 ^ 24 ->
  exists m e, binary_round 24 128 s p 0 = S754_finite s m e /\
              Z.pos (digits2_pos m) = 24 /\ -23 <= e <= 0 /\
              Z.pos m = Z.pos p * 2 ^ (- e).
Proof.
  intros Hp.
  pose proof (digits2_pos_bounds p) as [Hlo _].
  assert (Hd : Z.pos (digits2_pos p) <= 24).
  { destruct (Z.le_gt_cases (Z.pos (digits2_pos p)) 24) as [H|H]; [exact H|].
    assert (2 ^ 24 <= 2 ^ (Z.pos (digits2_pos p) - 1))
      by (apply Z.pow_le_mono_r; lia).
    lia. }
  unfold binary_round, fexp, emin.
  rewrite Z.add_0_r.
  replace (Z.max (Z.pos (digits2_pos p) - 24) (3 - 128 - 24))
    with (Z.pos (digits2_pos p) - 24) by lia.
  unfold shl_align. rewrite Z.sub_0_r.
  destruct (Z.pos (digits2_pos p) - 24) as [|k|k] eqn:Hk; try lia.
  - exists p, 0. rewrite round_aux_canonical.
    + repeat split; lia.
    + unfold bounded, canonical_mantissa, fexp, emin.
      apply andb_true_intro. split; [apply Z.eqb_eq|apply Z.leb_le]; lia.
  - exists (Pos.iter xO p k), (Z.neg k).
    rewrite round_aux_canonical.
    + repeat split; try lia.
      * rewrite digits2_pos_iter_xO. lia.
      * rewrite iter_xO_value. reflexivity.
    + unfold bounded, canonical_mantissa, fexp, emin.
      rewrite digits2_pos_iter_xO, Pos2Z.inj_add.
      apply andb_true_intro. split; [apply Z.eqb_eq|apply Z.leb_le]; lia.
Qed.

Lemma div_eucl_pair a b : Z.div_eucl a b = (a / b, a mod b).
Proof. unfold Z.div, Z.modulo. destruct (Z.div_eucl a b); reflexivity. Qed.

(** Dividing such a [float] by [2] lowers its exponent. *)
Lemma div_scale_two_float s m e :
  Z.pos (digits2_pos m) = 24 -> -23 <= e <= 0 ->
  F32.div (S754_finite s m e) scale_two = S754_finite s m (e - 1).
Proof.
  intros Hd He.
  change scale_two with (S754_finite false 8388608 (-22)).
  unfold F32.div, SFdiv, SFdiv_core_binary, F32.prec, F32.emax.
  cbn [Zdigits2]. change (digits2_pos 8388608) with 24%positive. rewrite Hd.
  unfold fexp, emin.
  replace (Z.min (Z.max (24 + e - (24 + -22) - 24) (3 - 128 - 24)) (e - -22))
    with (e - 2) by lia.
  replace (e - -22 - (e - 2)) with 24 by lia.
  cbv iota beta.
  rewrite div_eucl_pair, Z.shiftl_mul_pow2 by lia.
  replace (Z.pos m * 2 ^ 24) with ((Z.pos m * 2) * 8388608) by lia.
  rewrite Z.div_mul, Z.mod_mul by lia.
  rewrite xorb_false_r. replace (Z.pos m * 2) with (Z.pos (xO m)) by lia.
  unfold new_location, new_location_even. cbn [Z.even Z.eqb].
  unfold binary_round_aux, shr_fexp, fexp, emin.
  cbn [Zdigits2 digits2_pos shr_record_of_loc]. rewrite Pos2Z.inj_succ, Hd.
  replace (Z.max (Z.succ 24 + (e - 2) - 24) (3 - 128 - 24) - (e - 2)) with 1 by lia.
  cbn [shr SpecFloat.iter_pos shr_1 shr_m loc_of_shr_record round_nearest_even Zdigits2 orb].
  rewrite Hd.
  replace (e - 2 + 1) with (e - 1) by lia.
  replace (Z.max (24 + (e - 1) - 24) (3 - 128 - 24) - (e - 1)) with 0 by lia.
  cbn [shr shr_m].
  destruct (Z.leb_spec (e - 1) (128 - 24)); [reflexivity|lia].
Qed.

(** The integer part of such a [float] after the halving. *)
Lemma int_of_halved s p m e :
  Z.pos p < 2 ^ 24 -> -23 <= e <= 0 -> Z.pos m = Z.pos p * 2 ^ (- e) ->
  int_of_float (S754_finite s m (e - 1)) = Z.quot (cond_Zopp s (Z.pos p)) 2.
Proof.
  intros Hp He Hm. unfold int_of_float, round_to_Z.
  destruct (e - 1) as [|q|q] eqn:Hq; try lia.
  assert (Hpow : 0 < 2 ^ Z.pos q) by (apply Z.pow_pos_nonneg; lia).
  assert (Hquot : Z.quot (Z.pos m) (2 ^ Z.pos q) = Z.quot (Z.pos p) 2).
  { rewrite !Z.quot_div_nonneg by lia.
    rewrite Hm. replace (Z.pos q) with (- e + 1) by lia.
    rewrite Z.pow_add_r by lia. change (2 ^ 1) with 2.
    rewrite <- Z.div_div by (try lia; apply Z.pow_pos_nonneg; lia).
    rewrite Z.div_mul; [reflexivity|]. apply Z.pow_nonzero; lia. }
  assert (Hval : Z.quot (cond_Zopp s (Z.pos m)) (2 ^ Z.pos q)
                 = Z.quot (cond_Zopp s (Z.pos p)) 2).
  { destruct s; cbn [cond_Zopp]; [|exact Hquot].
    rewrite !Z.quot_opp_l by lia. rewrite Hquot. reflexivity. }
  rewrite Hval. unfold int_of_option, INT_MIN, INT_MAX.
  assert (- 2 ^ 24 < Z.quot (cond_Zopp s (Z.pos p)) 2 < 2 ^ 24)
    by (destruct s; cbn [cond_Zopp]; lia).
  destruct (Z.leb_spec (- 2 ^ 31) (Z.quot (cond_Zopp s (Z.pos p)) 2)); [|lia].
  destruct (Z.leb_spec (Z.quot (cond_Zopp s (Z.pos p)) 2) (2 ^ 31 - 1));
    [reflexivity|lia].
Qed.

(** For a sum of two widths below [2 ^ 24] in magnitude,
    [(high + low) / scale_factor] with [scale_factor = 2] is the integer
    quotient by 2, truncated toward zero as in C. *)
Lemma div_scale_two n :
  - 2 ^ 24 < n < 2 ^ 24 -> div_scale n scale_two = Z.quot n 2.
Proof.
  intros Hn. unfold div_scale, F32.of_int, binary_normalize, F32.prec, F32.emax.
  destruct n as [|p|p]; [reflexivity| |].
  - destruct (round_small false p) as (m & e & -> & Hd & He & Hm); [lia|].
    rewrite div_scale_two_float by assumption.
    apply (int_of_halved false); assumption || lia.
  - destruct (round_small true p) as (m & e & -> & Hd & He & Hm); [lia|].
    rewrite div_scale_two_float by assumption.
    apply (int_of_halved true); assumption || lia.
Qed.

(** ** Conversions and comparisons of floats *)

Lemma iter_pos_iter {A} (f : A -> A) n x : SpecFloat.iter_pos f n x = Pos.iter f x n.
Proof.
  revert x. induction n as [n IH|n IH|]; intros x; cbn [SpecFloat.iter_pos Pos.iter].
  - rewrite !IH, <- !Pos.iter_swap. reflexivity.
  - rewrite !IH. reflexivity.
  - reflexivity.
Qed.

(** Shifting right undoes shifting left, exactly. *)
Lemma shr_iter_xO m k :
  SpecFloat.iter_pos shr_1 k
    {| shr_m := Z.pos (Pos.iter xO m k); shr_r := false; shr_s := false |}
  = {| shr_m := Z.pos m; shr_r := false; shr_s := false |}.
Proof.
  rewrite iter_pos_iter. revert m.
  induction k as [|k IH] using Pos.peano_ind; intros m.
  - reflexivity.
  - rewrite Pos.iter_succ_r, Pos.iter_succ. cbn [shr_1 orb]. apply IH.
Qed.

(** The promotion of a valid [float] and the conversion back. *)
Lemma of_float_finite s m e :
  bounded 24 128 m e = true ->
  exists k, Z.pos k = 53 - Z.pos (digits2_pos m) /\
            F64.of_float (S754_finite s m e)
            = S754_finite s (Pos.iter xO m k) (e - Z.pos k).
Proof.
  unfold bounded, canonical_mantissa, fexp, emin. intros Hb.
  apply andb_prop in Hb. destruct Hb as [Hc He].
  apply Z.eqb_eq in Hc. apply Z.leb_le in He.
  assert (Hd : 1 <= Z.pos (digits2_pos m) <= 24) by lia.
  destruct (53 - Z.pos (digits2_pos m)) as [|k|k] eqn:Hk; try lia.
  exists k. split; [reflexivity|].
  unfold F64.of_float, binary_round, F64.prec, F64.emax, fexp, emin, shl_align.
  replace (Z.max (Z.pos (digits2_pos m) + e - 53) (3 - 1024 - 53) - e) with (Z.neg k) by lia.
  replace (Z.max (Z.pos (digits2_pos m) + e - 53) (3 - 1024 - 53)) with (e - Z.pos k) by lia.
  apply round_aux_canonical.
  unfold bounded, canonical_mantissa, fexp, emin.
  rewrite digits2_pos_iter_xO, Pos2Z.inj_add.
  apply andb_true_intro. split; [apply Z.eqb_eq|apply Z.leb_le]; lia.
Qed.

Lemma of_double_shifted m e k :
  bounded 24 128 m e = true -> Z.pos k = 53 - Z.pos (digits2_pos m) ->
  F32.of_double (S754_finite false (Pos.iter xO m k) (e - Z.pos k))
  = S754_finite false m e.
Proof.
  intros Hb Hk. pose proof Hb as Hb'.
  unfold bounded, canonical_mantissa, fexp, emin in Hb.
  apply andb_prop in Hb. destruct Hb as [Hc He].
  apply Z.eqb_eq in Hc. apply Z.leb_le in He.
  unfold F32.of_double, binary_round, F32.prec, F32.emax, shl_align.
  rewrite digits2_pos_iter_xO, Pos2Z.inj_add.
  replace (fexp 24 128 (Z.pos (digits2_pos m) + Z.pos k + (e - Z.pos k)) - (e - Z.pos k))
    with (Z.pos k) by (unfold fexp, emin; lia).
  unfold binary_round_aux, shr_fexp. cbn [Zdigits2 shr_record_of_loc].
  rewrite digits2_pos_iter_xO, Pos2Z.inj_add.
  replace (fexp 24 128 (Z.pos (digits2_pos m) + Z.pos k + (e - Z.pos k)) - (e - Z.pos k))
    with (Z.pos k) by (unfold fexp, emin; lia).
  cbn [shr]. rewrite shr_iter_xO.
  cbn [shr_m loc_of_shr_record round_nearest_even Zdigits2].
  replace (e - Z.pos k + Z.pos k) with e by lia.
  replace (fexp 24 128 (Z.pos (digits2_pos m) + e) - e) with 0
    by (unfold fexp, emin; lia).
  cbn [shr shr_m].
  destruct (Z.leb_spec e (128 - 24)); [reflexivity|lia].
Qed.

(** [(float) fabs((double) v)] is the absolute value of a valid [float]. *)
Lemma fabs_through_double v :
  valid_binary 24 128 v = true ->
  F32.of_double (SFabs (F64.of_float v)) = SFabs v.
Proof.
  destruct v as [s|s| |s m e]; try reflexivity.
  cbn [valid_binary]. intros Hb.
  destruct (of_float_finite s m e Hb) as (k & Hk & ->).
  cbn [SFabs]. apply of_double_shifted; assumption.
Qed.

(** Rounding a mantissa that is not negative never gives a NaN. *)
Lemma shr_1_nonneg x : 0 <= shr_m x -> 0 <= shr_m (shr_1 x).
Proof.
  destruct x as [m r s]. cbn [shr_m]. intros Hm.
  destruct m as [|[p|p|]|p]; cbn; lia.
Qed.

Lemma iter_shr_1_nonneg n x : 0 <= shr_m x -> 0 <= shr_m (SpecFloat.iter_pos shr_1 n x).
Proof.
  revert x. induction n as [n IH|n IH|]; intros x Hx; cbn [SpecFloat.iter_pos].
  - apply IH, IH, shr_1_nonneg, Hx.
  - apply IH, IH, Hx.
  - apply shr_1_nonneg, Hx.
Qed.

Lemma shr_fexp_nonneg prec emax m e l :
  0 <= m -> 0 <= shr_m (fst (shr_fexp prec emax m e l)).
Proof.
  intros Hm. unfold shr_fexp, shr.
  assert (H0 : 0 <= shr_m (shr_record_of_loc m l))
    by (destruct l as [|[]]; exact Hm).
  destruct (fexp prec emax (Zdigits2 m + e) - e); cbn [fst]; try exact H0.
  apply iter_shr_1_nonneg, H0.
Qed.

Lemma round_aux_not_nan prec emax s m e l :
  0 <= m -> is_nan (binary_round_aux prec emax s m e l) = false.
Proof.
  intros Hm. unfold binary_round_aux.
  pose proof (shr_fexp_nonneg prec emax m e l Hm) as H1.
  destruct (shr_fexp prec emax m e l) as [mrs' e']. cbn [fst] in H1.
  assert (H2 : 0 <= round_nearest_even (shr_m mrs') (loc_of_shr_record mrs')).
  { unfold round_nearest_even.
    destruct (loc_of_shr_record mrs') as [|[]]; try lia.
    destruct (Z.even (shr_m mrs')); lia. }
  pose proof (shr_fexp_nonneg prec emax _ e' loc_Exact H2) as H3.
  destruct (shr_fexp prec emax _ e' loc_Exact) as [mrs'' e'']. cbn [fst] in H3.
  destruct (shr_m mrs''); [reflexivity| |lia].
  destruct (e'' <=? emax - prec); reflexivity.
Qed.

Lemma round_not_nan prec emax s m e :
  is_nan (binary_round prec emax s m e) = false.
Proof.
  unfold binary_round. destruct (shl_align _ _ _) as [mz ez].
  apply round_aux_not_nan. lia.
Qed.

Lemma of_float_nan v : is_nan (F64.of_float v) = is_nan v.
Proof. destruct v; try reflexivity. apply round_not_nan. Qed.

Lemma of_double_nan v : is_nan (F32.of_double v) = is_nan v.
Proof. destruct v; try reflexivity. apply round_not_nan. Qed.

Lemma abs_nan v : is_nan (SFabs v) = is_nan v.
Proof. destruct v; reflexivity. Qed.

(** Half of a number is a number. *)
Lemma half_not_nan v : is_nan v = false -> is_nan (F64.div v F64.two) = false.
Proof.
  change F64.two with (S754_finite false 4503599627370496 (-51)).
  destruct v as [s|s| |s m e]; try reflexivity; try discriminate.
  intros _. unfold F64.div, SFdiv, SFdiv_core_binary.
  rewrite div_eucl_pair. apply round_aux_not_nan.
  apply Z.div_pos; [|lia].
  destruct (_ - _)%Z; try lia. rewrite Z.shiftl_mul_pow2 by lia.
  apply Z.mul_nonneg_nonneg; [lia|]. apply Z.pow_nonneg. lia.
Qed.

(** On numbers, [a <= b] is the negation of [a > b]. *)
Lemma le_not_gt a b :
  is_nan a = false -> is_nan b = false -> F64.le a b = negb (F64.gt a b).
Proof.
  unfold F64.le, F64.gt, SFleb, SFltb.
  destruct a as [sa|sa| |sa ma ea], b as [sb|sb| |sb mb eb];
    try discriminate; intros _ _; cbn [SFcompare];
    try (destruct sa; reflexivity); try (destruct sb; reflexivity);
    try (destruct sa, sb; reflexivity).
  assert (Hm : Pos.compare_cont Eq mb ma = CompOpp (Pos.compare_cont Eq ma mb))
    by (rewrite Pos.compare_cont_antisym; reflexivity).
  destruct sa, sb; try reflexivity;
    rewrite (Z.compare_antisym ea eb), Hm;
    destruct (ea ?= eb)%Z; cbn [CompOpp]; try reflexivity;
    destruct (Pos.compare_cont Eq ma mb); reflexivity.
Qed.

(** Adding a number to [+0] gives that number, but for [-0], which
    becomes [+0]. *)
Lemma add_zero_left v :
  v <> S754_zero true -> F32.add F32.zero v = v.
Proof.
  destruct v as [[]|s| |s m e]; intros Hv; try reflexivity. contradiction.
Qed.

(** ** The routines and their effect on the locals *)

Ltac run_monad :=
  repeat progress
    (unfold bind, ret, when, printf, emit, extern, vpr_throw, VTR_ASSERT,
       out_of_fuel, get_chan_width, put_chan_width, add_events);
  cbn [world chan_width log fst snd].

Ltac finish_eq :=
  cbn [world chan_width log fst snd];
  rewrite <- ?app_assoc; cbn [app];
  try eexists; reflexivity.

Section Equations.
Context {World : Type} {env : Environment World}.

Lemma add_events_nil (g : globals World) : add_events g [] = g.
Proof. destruct g. unfold add_events. cbn. rewrite app_nil_r. reflexivity. Qed.

Lemma init_search_eq cfg hint (g : globals World) :
  init_search cfg hint g
  = (init_result cfg hint, add_events g (init_events cfg hint)).
Proof.
  unfold init_search, init_result, initial_guess, init_events. run_monad.
  destruct (fixed_width_mode cfg); [|destruct (hint >? 0)];
    cbn [current world chan_width log];
    destruct (directionality cfg);
    repeat match goal with
           | |- context [if ?b then _ else _] => destruct b
           end;
    cbn [world chan_width log]; rewrite ?app_nil_r; try reflexivity;
    destruct g; reflexivity.
Qed.

Lemma route_succeeded_eq cfg l (g : globals World) :
  route_succeeded cfg l g
  = (Ok (succeeded_locals cfg l),
     {| world := call SaveRouting (world g); chan_width := chan_width g;
        log := log g ++ (if Fc_clipped l then [Printed FcClippedWarning] else [])
                     ++ [Called SaveRouting] |}).
Proof.
  unfold route_succeeded, succeeded_locals. run_monad.
  destruct (current l =? high l); cbn [Fc_clipped set_high set_final];
    destruct (Fc_clipped l); finish_eq.
Qed.

Lemma route_failed_eq cfg success l (g : globals World) :
  route_failed cfg success l g
  = (failed_locals cfg l,
     add_events g (if success && Fc_clipped l then [Printed RoutingRejectedFc] else [])).
Proof.
  unfold route_failed, failed_locals. run_monad.
  destruct (success && Fc_clipped l); cbn [world chan_width log];
    repeat match goal with
           | |- context [if ?b then _ else _] =>
               lazymatch b with
               | context [if _ then _ else _] => fail
               | _ => destruct b
               end
           end;
    rewrite ?app_nil_r; try reflexivity; destruct g; reflexivity.
Qed.

Lemma search_iteration_eq cfg l (g : globals World) :
  exists w,
    search_iteration cfg l g
    = (iteration_result cfg l (trial_answer cfg l g),
       {| world := w; chan_width := chan_width g;
          log := log g ++ iteration_events cfg l (trial_answer cfg l g) |}).
Proof.
  unfold search_iteration, iteration_result, iteration_events, check_width,
    width_guard, trial_answer, world_at_trial, route.
  run_monad.
  destruct (fixed_width_mode cfg) eqn:Hfixed;
    (destruct (_ >? _); [eexists; reflexivity|]);
    cbn [world chan_width log];
    (destruct (current l * 3 <? Fs cfg); [finish_eq|]);
    destruct (place_always cfg); cbn [world chan_width log];
    destruct (try_route _ _) as [success w]; cbn [fst];
    cbn [Fc_clipped set_attempt_count];
    destruct success, (Fc_clipped l) eqn:Hclip; cbn [andb negb];
    rewrite ?route_succeeded_eq, ?route_failed_eq;
    cbn [Fc_clipped set_attempt_count andb]; rewrite ?Hclip;
    unfold add_events, round_to_step; cbn [world chan_width log];
    try (destruct (failed_locals cfg _)); finish_eq.
Qed.

Lemma verify_iteration_eq cfg l (g : globals World) :
  exists w,
    verify_iteration cfg l g
    = (Ok (trial_answer cfg l g, verified_locals cfg l (trial_answer cfg l g)),
       {| world := w; chan_width := chan_width g;
          log := log g ++ verify_events cfg l (trial_answer cfg l g) |}).
Proof.
  unfold verify_iteration, verified_locals, verify_events, trial_answer,
    world_at_trial, route.
  run_monad.
  destruct (place_always cfg); cbn [world chan_width log];
    destruct (try_route _ _) as [success w]; cbn [fst];
    destruct (success && Bool.eqb (Fc_clipped l) false);
    finish_eq.
Qed.
End Equations.

(** ** The fields after a trial *)

Section Fields.
Context {World : Type} {env : Environment World}.

Lemma udsd_multiplier_cases cfg :
  udsd_multiplier cfg = 1 \/ udsd_multiplier cfg = 2.
Proof. unfold udsd_multiplier. destruct (directionality cfg); auto. Qed.

(** After a successful trial: the new upper bound is the width tried,
    [final] is either left alone or set to it, and the next width is
    computed from the new bounds. *)
Lemma succeeded_fields cfg l :
  let l' := succeeded_locals cfg l in
  high l' = current l /\ low l' = low l /\
  attempt_count l' = attempt_count l /\
  using_minw_hint l' = using_minw_hint l /\ Fc_clipped l' = Fc_clipped l /\
  final l' = (if (current l - low l <=? 1 * udsd_multiplier cfg)
                 || (current l =? high l)
              then current l else final l) /\
  current l' =
    div_scale (if negb (low l =? -1) then current l + low l else current l)
      (if using_minw_hint l && (attempt_count l =? 1) then scale_hint else scale_two).
Proof.
  unfold succeeded_locals.
  destruct (current l =? high l); cbn [current high low final set_high set_final
    using_minw_hint attempt_count];
    destruct (current l - low l <=? 1 * udsd_multiplier cfg);
    cbn [current high low final set_high set_final];
    destruct (negb (low l =? -1)); cbn; repeat split; reflexivity.
Qed.

(** After a failed trial that does not throw: the new lower bound is the
    width tried. *)
Lemma failed_fields cfg l l' :
  failed_locals cfg l = Ok l' ->
  low l' = current l /\ high l' = high l /\
  attempt_count l' = attempt_count l /\
  using_minw_hint l' = using_minw_hint l /\ Fc_clipped l' = Fc_clipped l /\
  final l' = (if negb (high l =? -1) && (high l - current l <=? 1 * udsd_multiplier cfg)
              then high l else final l) /\
  current l' =
    (if negb (high l =? -1) then div_scale (high l + current l) scale_two
     else if fixed_width_mode cfg then current l + 5 * udsd_multiplier cfg
     else mul_scale (current l) scale_two).
Proof.
  unfold failed_locals. cbn [high low current set_low].
  destruct (negb (high l =? -1)); cbn [andb].
  - destruct (high l - current l <=? 1 * udsd_multiplier cfg);
      intros [= <-]; cbn; repeat split; reflexivity.
  - destruct (fixed_width_mode cfg);
      [destruct (current l <? fixed_channel_width cfg + 30)|];
      intros [= <-]; cbn; repeat split; reflexivity.
Qed.

(** The only errors of a failed trial. *)
Lemma failed_error cfg l :
  match failed_locals cfg l with
  | Ok _ => True
  | Throw e =>
      e = WneedTooLarge (current l) /\ high l = -1 /\
      fixed_width_mode cfg = true /\ fixed_channel_width cfg + 30 <= current l
  | _ => False
  end.
Proof.
  unfold failed_locals. cbn [high low current set_low].
  destruct (Z.eqb_spec (high l) (-1)); cbn [negb]; [|exact I].
  destruct (fixed_width_mode cfg); [|exact I].
  destruct (Z.ltb_spec (current l) (fixed_channel_width cfg + 30)); [exact I|].
  repeat split; assumption || lia.
Qed.

(** An iteration that assigns [final] assigns it the upper bound. *)
Lemma iteration_final cfg l s c l' :
  final l = -1 ->
  iteration_result cfg l s = Ok (c, l') ->
  (c = Break -> current l * 3 < Fs cfg /\ final l' = high l') /\
  (final l' <> -1 ->
   final l' = high l' /\
   (high l' - low l' <= 1 * udsd_multiplier cfg \/
    current l * 3 < Fs cfg \/
    (s = true /\ current l = high l))).
Proof.
  intros Hfinal Hres. unfold iteration_result in Hres.
  destruct (width_guard cfg l); [discriminate|].
  destruct (Z.ltb_spec (current l * 3) (Fs cfg)).
  { injection Hres as <- <-. cbn [final high low set_final]. auto. }
  set (l1 := set_attempt_count (attempt_count l + 1) l) in *.
  destruct (s && negb (Fc_clipped l1)) eqn:Hsucc.
  - injection Hres as <- <-. split; [discriminate|].
    destruct (succeeded_fields cfg l1) as (Hh & Hl & _ & _ & _ & Hf & _).
    cbn [final high low round_to_step set_current]. rewrite Hh, Hl, Hf.
    subst l1. cbn [current high low final set_attempt_count].
    rewrite Hfinal.
    destruct (Z.leb_spec (current l - low l) (1 * udsd_multiplier cfg));
      cbn [orb]; [auto|].
    destruct (Z.eqb_spec (current l) (high l)); [|contradiction].
    intros _. split; [reflexivity|]. right. right. split; [|assumption].
    destruct s; [reflexivity|discriminate].
  - destruct (failed_locals cfg l1) as [l2| | |] eqn:Hfail; try discriminate.
    injection Hres as <- <-. split; [discriminate|].
    destruct (failed_fields cfg l1 l2 Hfail) as (Hl & Hh & _ & _ & _ & Hf & _).
    cbn [final high low round_to_step set_current]. rewrite Hh, Hl, Hf.
    subst l1. cbn [current high low final set_attempt_count].
    rewrite Hfinal.
    destruct (Z.eqb_spec (high l) (-1)); cbn [negb andb]; [contradiction|].
    destruct (Z.leb_spec (high l - current l) (1 * udsd_multiplier cfg));
      [auto|contradiction].
Qed.

(** The midpoint of two bounds more than one step apart, rounded up to
    the step, is strictly between them. *)
Lemma midpoint_between mult low high :
  mult = 1 \/ mult = 2 ->
  - 2 ^ 24 < high + low < 2 ^ 24 -> low < high -> high - low > mult ->
  let mid := div_scale (high + low) scale_two in
  low < mid + Z.rem mid mult < high /\ Z.rem (mid + Z.rem mid mult) mult = 0.
Proof.
  intros Hm Hsum Hlt Hgap. cbv zeta.
  rewrite div_scale_two by lia.
  destruct Hm as [-> | ->]; lia.
Qed.

End Fields.

(** ** What a routine appends to the log *)

Section Performs.
Context {World : Type} {env : Environment World}.
Variable P : event -> Prop.

Lemma performs_weaken {A} (m : @M World A) (R R' : result A -> Prop) :
  performs P m R -> (forall r, R r -> R' r) -> performs P m R'.
Proof.
  intros Hm HR g r g' Hrun. destruct (Hm g r g' Hrun) as [Hlog Hr].
  split; auto.
Qed.

Lemma performs_ret {A} (a : A) (R : result A -> Prop) :
  R (Ok a) -> performs P (@ret World A a) R.
Proof.
  intros HR g r g' [= <- <-]. split; [|exact HR].
  exists []. rewrite app_nil_r. auto.
Qed.

Lemma performs_throw {A} e (R : result A -> Prop) :
  R (Throw e) -> performs P (@vpr_throw World A e) R.
Proof.
  intros HR g r g' [= <- <-]. split; [|exact HR].
  exists []. rewrite app_nil_r. auto.
Qed.

Lemma performs_out_of_fuel {A} (R : result A -> Prop) :
  R OutOfFuel -> performs P (@out_of_fuel World A) R.
Proof.
  intros HR g r g' [= <- <-]. split; [|exact HR].
  exists []. rewrite app_nil_r. auto.
Qed.

Lemma performs_assert b (R : result unit -> Prop) :
  (b = true -> R (Ok tt)) -> (b = false -> R AssertFailed) ->
  performs P (@VTR_ASSERT World b) R.
Proof.
  intros Ht Hf g r g' [= <- <-]. split.
  - exists []. rewrite app_nil_r. auto.
  - destruct b; auto.
Qed.

Lemma performs_bind {A B} (m : @M World A) (k : A -> @M World B)
    (R1 : result A -> Prop) (R2 : result B -> Prop) :
  performs P m R1 ->
  (forall a, R1 (Ok a) -> performs P (k a) R2) ->
  (forall e, R1 (Throw e) -> R2 (Throw e)) ->
  (R1 AssertFailed -> R2 AssertFailed) ->
  (R1 OutOfFuel -> R2 OutOfFuel) ->
  performs P (bind m k) R2.
Proof.
  intros Hm Hk He Ha Ho g r g' Hrun. unfold bind in Hrun.
  destruct (m g) as [r1 g1] eqn:Hm1.
  destruct (Hm g r1 g1 Hm1) as [(evs1 & Hlog1 & Hall1) Hr1].
  destruct r1 as [a|e| |].
  - destruct (Hk a Hr1 g1 r g' Hrun) as [(evs2 & Hlog2 & Hall2) Hr2].
    split; [|exact Hr2].
    exists (evs1 ++ evs2). rewrite Hlog2, Hlog1, app_assoc. split; [reflexivity|].
    apply Forall_app. auto.
  - injection Hrun as <- <-. split; [exists evs1|]; auto.
  - injection Hrun as <- <-. split; [exists evs1|]; auto.
  - injection Hrun as <- <-. split; [exists evs1|]; auto.
Qed.

Lemma performs_emit ev (R : result unit -> Prop) :
  P ev -> R (Ok tt) -> performs P (@emit World ev) R.
Proof.
  intros Hev HR g r g' [= <- <-]. split; [|exact HR].
  exists [ev]. cbn. auto.
Qed.

Lemma performs_extern c (R : result unit -> Prop) :
  P (Called c) -> R (Ok tt) -> performs P (extern c) R.
Proof.
  intros Hev HR g r g' [= <- <-]. split; [|exact HR].
  exists [Called c]. cbn. auto.
Qed.

Lemma performs_route width_fac (R : result bool -> Prop) :
  (forall b, P (Routed_at width_fac b)) -> (forall b, R (Ok b)) ->
  performs P (route width_fac) R.
Proof.
  intros Hev HR g r g' Hrun. unfold route in Hrun.
  destruct (try_route width_fac (world g)) as [b w]. injection Hrun as <- <-.
  split; [|apply HR]. exists [Routed_at width_fac b]. cbn. auto.
Qed.

Lemma performs_when b (m : @M World unit) (R : result unit -> Prop) :
  (b = true -> performs P m R) -> (b = false -> R (Ok tt)) ->
  performs P (when b m) R.
Proof.
  intros Ht Hf. destruct b; cbn; [auto|]. apply performs_ret. auto.
Qed.

Lemma performs_get_chan_width (R : result t_chan_width -> Prop) :
  (forall cw, R (Ok cw)) -> performs P (@get_chan_width World) R.
Proof.
  intros HR g r g' [= <- <-]. split; [|apply HR].
  exists []. rewrite app_nil_r. auto.
Qed.

Lemma performs_put_chan_width cw (R : result unit -> Prop) :
  R (Ok tt) -> performs P (@put_chan_width World cw) R.
Proof.
  intros HR g r g' [= <- <-]. split; [|apply HR].
  exists []. cbn. rewrite app_nil_r. auto.
Qed.
End Performs.

(** ** The routines, one by one *)

Section Routines.
Context {World : Type} {env : Environment World}.
Variable P : event -> Prop.

Lemma performs_init_search cfg hint :
  Forall P (init_events cfg hint) ->
  performs P (init_search cfg hint) (fun r => r = init_result cfg hint).
Proof.
  intros Hev g r g' Hrun. rewrite init_search_eq in Hrun.
  injection Hrun as <- <-. split; [|reflexivity].
  exists (init_events cfg hint). auto.
Qed.

Lemma performs_search_iteration cfg l :
  (forall s, Forall P (iteration_events cfg l s)) ->
  performs P (search_iteration cfg l)
    (fun r => exists g0, r = iteration_result cfg l (trial_answer cfg l g0)).
Proof.
  intros Hev g r g' Hrun.
  destruct (search_iteration_eq cfg l g) as [w Heq]. rewrite Heq in Hrun.
  injection Hrun as <- <-. cbn [log]. split; eauto.
Qed.

Lemma performs_verify_iteration cfg l :
  (forall s, Forall P (verify_events cfg l s)) ->
  performs P (verify_iteration cfg l)
    (fun r => exists s, r = Ok (s, verified_locals cfg l s)).
Proof.
  intros Hev g r g' Hrun.
  destruct (verify_iteration_eq cfg l g) as [w Heq]. rewrite Heq in Hrun.
  injection Hrun as <- <-. cbn [log]. split; eauto.
Qed.

(** An iteration returns or throws; it throws through the guard or at
    the end of the sub-search for the width that satisfies Fs. *)
Lemma iteration_result_cases cfg l s :
  match iteration_result cfg l s with
  | Ok (Break, l') => width_guard cfg l = None /\ current l * 3 < Fs cfg /\
                      l' = set_final (high l) l
  | Ok (Continue, _) => width_guard cfg l = None /\ Fs cfg <= current l * 3
  | Throw e =>
      width_guard cfg l = Some e \/
      (width_guard cfg l = None /\ Fs cfg <= current l * 3 /\
       (s && negb (Fc_clipped l) = false) /\
       e = WneedTooLarge (current l) /\ high l = -1 /\
       fixed_width_mode cfg = true /\ fixed_channel_width cfg + 30 <= current l)
  | _ => False
  end.
Proof.
  unfold iteration_result.
  destruct (width_guard cfg l); [auto|].
  destruct (Z.ltb_spec (current l * 3) (Fs cfg)); [auto|].
  cbn [Fc_clipped set_attempt_count].
  destruct (s && negb (Fc_clipped l)); [auto|].
  pose proof (failed_error cfg (set_attempt_count (attempt_count l + 1) l)) as Herr.
  destruct (failed_locals cfg _); cbn in Herr; try contradiction; [auto|].
  right. intuition.
Qed.

(** The search loop keeps an invariant of the locals that its
    iterations keep, and throws only what an iteration throws.  It ends
    on a state where [final] is known or by the [break] of an
    iteration. *)
Lemma performs_search_loop cfg (Inv : locals -> Prop) :
  (forall l g0 l', Inv l -> final l = -1 ->
     iteration_result cfg l (trial_answer cfg l g0) = Ok (Continue, l') -> Inv l') ->
  (forall l s, Inv l -> final l = -1 -> Forall P (iteration_events cfg l s)) ->
  forall fuel l, Inv l ->
  performs P (search_loop cfg fuel l)
    (fun r => match r with
              | Ok l' => search_exit cfg Inv l'
              | Throw e =>
                  exists l g0, Inv l /\ final l = -1 /\
                    iteration_result cfg l (trial_answer cfg l g0) = Throw e
              | AssertFailed => False
              | OutOfFuel => True
              end).
Proof.
  intros Hstep Hev. induction fuel as [|fuel IH]; intros l Hl; cbn [search_loop].
  - destruct (Z.eqb_spec (final l) (-1)); [apply performs_out_of_fuel; trivial|].
    apply performs_ret. left. auto.
  - destruct (Z.eqb_spec (final l) (-1)) as [Hfinal|Hfinal];
      [|apply performs_ret; left; auto].
    eapply performs_bind.
    + apply performs_search_iteration. intros s. apply Hev; assumption.
    + intros [c l'] [g0 Hres]. cbn beta iota.
      destruct c; [apply IH; eauto|].
      apply performs_ret. right. eauto.
    + intros e [g0 Hres]. eauto.
    + intros [g0 Hres].
      pose proof (iteration_result_cases cfg l (trial_answer cfg l g0)) as Hc.
      rewrite <- Hres in Hc. exact Hc.
    + intros _. trivial.
Qed.

(** The verification loop keeps an invariant that its iterations keep,
    and with [current] iterations of fuel it returns. *)
Lemma performs_verify_loop cfg (J : locals -> Prop) :
  (forall l s, J l -> 1 <= current l -> J (verified_locals cfg l s)) ->
  (forall l s, J l -> 1 <= current l ->
     (fixed_width_mode cfg = true -> fixed_channel_width cfg <= current l) ->
     Forall P (verify_events cfg l s)) ->
  forall fuel l prev prev2, J l -> current l <= Z.of_nat fuel ->
  performs P (verify_loop cfg fuel l prev prev2)
    (fun r => exists l', r = Ok l' /\ J l').
Proof.
  intros Hstep Hev.
  induction fuel as [|fuel IH]; intros l prev prev2 Hl Hfuel; cbn [verify_loop].
  - destruct (prev2 || prev); [|apply performs_ret; eauto].
    destruct (fixed_width_mode cfg && (current l <? fixed_channel_width cfg));
      [apply performs_ret; eauto|].
    destruct (Z.ltb_spec (current l) 1); [apply performs_ret; eauto|lia].
  - destruct (prev2 || prev); [|apply performs_ret; eauto].
    destruct (fixed_width_mode cfg && (current l <? fixed_channel_width cfg)) eqn:Hfix;
      [apply performs_ret; eauto|].
    destruct (Z.ltb_spec (current l) 1); [apply performs_ret; eauto|].
    eapply performs_bind.
    + apply performs_verify_iteration. intros s. apply Hev; try assumption.
      intros Hmode. rewrite Hmode in Hfix. cbn in Hfix.
      destruct (Z.ltb_spec (current l) (fixed_channel_width cfg)); [discriminate|lia].
    + intros [s l'] [s' [= -> ->]]. cbn [fst snd]. apply IH; [auto|].
      unfold verified_locals.
      destruct (directionality cfg), (s' && Bool.eqb (Fc_clipped l) false);
        cbn [current set_current set_final]; lia.
    + intros e [s Hres]. discriminate.
    + intros [s Hres]. discriminate.
    + intros [s Hres]. discriminate.
Qed.
End Routines.

(** ** [init_chan] and the whole search *)

Section Whole.
Context {World : Type} {env : Environment World}.
Variable P : event -> Prop.

Lemma performs_comp_width chan x separation :
  performs P (comp_width chan x separation) (chan_outcome chan).
Proof.
  unfold comp_width, known_chan_type.
  destruct (type chan =? UNIFORM) eqn:H0; [apply performs_ret; exact I|].
  destruct (type chan =? GAUSSIAN) eqn:H1; [apply performs_ret; exact I|].
  destruct (type chan =? PULSE) eqn:H2; [apply performs_ret; exact I|].
  destruct (type chan =? DELTA) eqn:H3; [apply performs_ret; exact I|].
  apply performs_throw. unfold chan_outcome, known_chan_type.
  rewrite H0, H1, H2, H3. auto.
Qed.

Lemma performs_store a i v :
  performs P (@store World a i v) (fun r => r = Ok tt).
Proof.
  unfold store. eapply performs_bind.
  - apply performs_get_chan_width with (R := fun r => exists cw, r = Ok cw); eauto.
  - intros cw _. apply performs_put_chan_width. reflexivity.
  - intros e [cw Hcw]. discriminate.
  - intros [cw Hcw]. discriminate.
  - intros [cw Hcw]. discriminate.
Qed.

Lemma performs_load a i :
  performs P (@load World a i) (fun r => exists v, r = Ok v).
Proof.
  unfold load. eapply performs_bind.
  - apply performs_get_chan_width with (R := fun r => exists cw, r = Ok cw); eauto.
  - intros cw _. apply performs_ret. eexists. reflexivity.
  - intros e [cw Hcw]. discriminate.
  - intros [cw Hcw]. discriminate.
  - intros [cw Hcw]. discriminate.
Qed.

Lemma performs_set_interior a i cfactor dist pos separation :
  performs P (set_interior a i cfactor dist pos separation) (chan_outcome dist).
Proof.
  unfold set_interior. eapply performs_bind.
  - apply performs_comp_width.
  - intros w _. eapply performs_bind; [apply performs_store| | | |];
      try discriminate.
    intros _ _. eapply performs_bind; [apply performs_load| | | |].
    + intros v _. eapply performs_weaken; [apply performs_store|].
      intros r ->. exact I.
    + intros e [v Hv]. discriminate.
    + intros [v Hv]. discriminate.
    + intros [v Hv]. discriminate.
  - intros e He. exact He.
  - intros [].
  - intros [].
Qed.

Lemma performs_fill_interior todo a i n cfactor dist separation :
  performs P (fill_interior todo a i n cfactor dist separation) (chan_outcome dist).
Proof.
  revert i. induction todo as [|todo IH]; intros i; cbn [fill_interior].
  - apply performs_ret. exact I.
  - eapply performs_bind; [apply performs_set_interior| | | |]; auto.
Qed.

Lemma performs_init_axis a n cfactor dist :
  performs P (init_axis a n cfactor dist) (chan_outcome dist).
Proof.
  unfold init_axis. apply performs_when; [|intros; exact I].
  intros _. eapply performs_bind; [apply performs_set_interior| | | |]; auto.
  intros _ _. apply performs_fill_interior.
Qed.

(** [init_chan] logs nothing and throws only for a profile kind
    [comp_width] does not know. *)
Lemma performs_init_chan cfg cfactor dist :
  performs P (init_chan cfg cfactor dist)
    (fun r => match r with
              | Ok _ => True
              | Throw e =>
                  exists chan, (chan = chan_x_dist dist \/ chan = chan_y_dist dist) /\
                               e = UnknownChannelType (type chan) /\
                               known_chan_type (type chan) = false
              | _ => False
              end).
Proof.
  unfold init_chan.
  repeat (eapply performs_bind; [apply performs_store| | | |]; try discriminate;
          intros _ _).
  eapply performs_bind; [apply performs_init_axis| | | |].
  - intros _ _. eapply performs_bind; [apply performs_init_axis| | | |].
    + intros _ _. eapply performs_bind;
        [apply performs_get_chan_width with (R := fun r => exists cw, r = Ok cw); eauto
        | | | |].
      * intros cw _. apply performs_put_chan_width. exact I.
      * intros e [cw Hcw]. discriminate.
      * intros [cw Hcw]. discriminate.
      * intros [cw Hcw]. discriminate.
    + intros e [-> Hk]. exists (chan_y_dist dist). auto.
    + intros [].
    + intros [].
  - intros e [-> Hk]. exists (chan_x_dist dist). auto.
  - intros [].
  - intros [].
Qed.

(** The whole search: its invariants, its events and its errors. *)
Lemma performs_binary_search cfg (verify : bool) hint fuel (Inv J : locals -> Prop) :
  (forall l, init_result cfg hint = Ok l -> Inv l) ->
  (forall l g0 l', Inv l -> final l = -1 ->
     iteration_result cfg l (trial_answer cfg l g0) = Ok (Continue, l') -> Inv l') ->
  (forall l, search_exit cfg Inv l -> J (set_current (final l - 2) l)) ->
  (forall l s, J l -> 1 <= current l -> J (verified_locals cfg l s)) ->
  Forall P (init_events cfg hint) ->
  (forall l s, Inv l -> final l = -1 -> Forall P (iteration_events cfg l s)) ->
  (forall l s, J l -> 1 <= current l ->
     (fixed_width_mode cfg = true -> fixed_channel_width cfg <= current l) ->
     Forall P (verify_events cfg l s)) ->
  (forall ev, tail_event ev -> P ev) ->
  (forall l, (if verify then J l else search_exit cfg Inv l) ->
     Fc_clipped l = true -> P (Printed BestFcClippedWarning)) ->
  performs P (binary_search_place_and_route cfg verify hint fuel)
    (fun r => match r with
              | Ok w => exists l, (if verify then J l else search_exit cfg Inv l) /\
                                  w = final l
              | Throw e =>
                  init_result cfg hint = Throw e \/
                  (exists l g0, Inv l /\ final l = -1 /\
                     iteration_result cfg l (trial_answer cfg l g0) = Throw e) \/
                  (exists chan,
                     (chan = chan_x_dist (Chans cfg) \/ chan = chan_y_dist (Chans cfg)) /\
                     e = UnknownChannelType (type chan) /\
                     known_chan_type (type chan) = false)
              | AssertFailed => init_result cfg hint = AssertFailed
              | OutOfFuel => True
              end).
Proof.
  intros H0 Hstep HJ0 HJstep Hinit Hiter Hver Htail Hclip.
  unfold binary_search_place_and_route.
  eapply performs_bind; [apply performs_init_search; exact Hinit| | | |]; auto.
  intros l0 Hl0. cbn beta in Hl0. symmetry in Hl0.
  eapply performs_bind;
    [apply (performs_search_loop P cfg Inv Hstep Hiter fuel l0); auto| | | |];
    [|intros e He; auto|intros []|trivial].
  intros l1 Hl1.
  eapply performs_bind with
    (R1 := fun r => exists l, r = Ok l /\ if verify then J l else search_exit cfg Inv l).
  - destruct verify; [|apply performs_ret; eauto].
    eapply performs_bind; [apply performs_emit with (R := fun r => r = Ok tt)| | | |];
      try discriminate; [apply Htail; exact I|reflexivity|].
    intros _ _.
    apply (performs_verify_loop P cfg J HJstep Hver); [auto|].
    cbn [current set_current]. lia.
  - intros l2 (l2' & [= <-] & Hl2).
    eapply performs_bind; [apply performs_init_chan| | | |];
      [|intros e He; auto|intros []|intros []].
    intros _ _.
    eapply performs_bind;
      [apply performs_get_chan_width with (R := fun r => exists cw, r = Ok cw); eauto
      | |intros e [cw Hcw]; discriminate|intros [cw Hcw]; discriminate
      |intros [cw Hcw]; discriminate].
    intros cw _.
    repeat (eapply performs_bind;
            [apply performs_extern with (R := fun r => r = Ok tt);
             [apply Htail; exact I|reflexivity]| | | |];
            try discriminate; intros _ _).
    eapply performs_bind with (R1 := fun r => r = Ok tt); try discriminate.
    { apply performs_when; [|reflexivity].
      intros Hc. apply performs_emit; [eapply Hclip; eauto|reflexivity]. }
    intros _ _.
    eapply performs_bind; [apply performs_emit with (R := fun r => r = Ok tt)| | | |];
      try discriminate; [apply Htail; exact I|reflexivity|].
    intros _ _.
    repeat (eapply performs_bind;
            [apply performs_extern with (R := fun r => r = Ok tt);
             [apply Htail; exact I|reflexivity]| | | |];
            try discriminate; intros _ _).
    apply performs_ret. eauto.
  - intros e (l & Hl & _). discriminate.
  - intros (l & Hl & _). discriminate.
  - intros (l & Hl & _). discriminate.
Qed.
End Whole.

(** ** Parity of the widths tried *)

Section Parity.
Context {World : Type} {env : Environment World}.

Lemma even_round_to_two c : Z.even (c + Z.rem c 2) = true.
Proof.
  replace (c + Z.rem c 2) with (2 * (Z.quot c 2 + Z.rem c 2)).
  - rewrite Z.even_mul. reflexivity.
  - pose proof (Z.quot_rem' c 2). lia.
Qed.

Lemma rem_two_even c : Z.rem c 2 = 0 -> Z.even c = true.
Proof.
  intros H. pose proof (Z.quot_rem' c 2) as Hq. rewrite H in Hq.
  rewrite Hq, Z.add_0_r, Z.even_mul. reflexivity.
Qed.

Lemma even_minus_two c : Z.even c = true -> Z.even (c - 1 - 1) = true.
Proof.
  intros H. replace (c - 1 - 1) with (c + 2 * (-1)) by lia.
  rewrite Z.even_add_mul_2. exact H.
Qed.

Lemma parity_inv_step cfg l s l' :
  directionality cfg = UNI_DIRECTIONAL ->
  parity_inv l -> iteration_result cfg l s = Ok (Continue, l') -> parity_inv l'.
Proof.
  intros Hdir (Hc & Hh & Hf) Hres. unfold iteration_result in Hres.
  destruct (width_guard cfg l); [discriminate|].
  destruct (current l * 3 <? Fs cfg); [discriminate|].
  set (l1 := set_attempt_count (attempt_count l + 1) l) in *.
  assert (Hm : udsd_multiplier cfg = 2) by (unfold udsd_multiplier; rewrite Hdir; reflexivity).
  destruct (s && negb (Fc_clipped l1)).
  - injection Hres as <-.
    destruct (succeeded_fields cfg l1) as (Hh' & _ & _ & _ & _ & Hf' & _).
    unfold parity_inv, round_to_step. cbn [current high final set_current].
    rewrite Hm, Hh', Hf'. subst l1. cbn [current high final low set_attempt_count].
    split; [apply even_round_to_two|]. split; [auto|].
    destruct (_ || _); auto.
  - destruct (failed_locals cfg l1) as [l2| | |] eqn:Hfail; try discriminate.
    injection Hres as <-.
    destruct (failed_fields cfg l1 l2 Hfail) as (_ & Hh' & _ & _ & _ & Hf' & _).
    unfold parity_inv, round_to_step. cbn [current high final set_current].
    rewrite Hm, Hh', Hf'. subst l1. cbn [current high final low set_attempt_count].
    split; [apply even_round_to_two|]. split; [auto|].
    destruct (_ && _); auto.
Qed.

Lemma parity_inv_init cfg hint l :
  directionality cfg = UNI_DIRECTIONAL ->
  init_result cfg hint = Ok l -> parity_inv l.
Proof.
  intros Hdir. unfold init_result. rewrite Hdir.
  destruct (Z.eqb_spec (Z.rem (current (initial_guess cfg hint)) 2) 0) as [Hrem|];
    cbn [negb]; [|discriminate].
  destruct (_ >? 0); [|discriminate]. intros [= <-].
  split; [apply rem_two_even; exact Hrem|].
  unfold initial_guess.
  destruct (fixed_width_mode cfg); [|destruct (hint >? 0)]; cbn; auto.
Qed.

(** C3. Under unidirectional routing every width the search passes to
    the router, in its loop or in the verification, is even; and when
    the initial width is odd the search throws before any trial. *)
Theorem unidirectional_trials_even cfg verify hint fuel (g : globals World) :
  directionality cfg = UNI_DIRECTIONAL ->
  exists evs,
    log (snd (binary_search_place_and_route cfg verify hint fuel g)) = log g ++ evs /\
    Forall even_trial evs /\
    (Z.rem (current (initial_guess cfg hint)) 2 <> 0 ->
     fst (binary_search_place_and_route cfg verify hint fuel g)
     = Throw (TriedOddChanWidth (current (initial_guess cfg hint))) /\
     Forall no_trial evs).
Proof.
  intros Hdir.
  destruct (Z.eq_dec (Z.rem (current (initial_guess cfg hint)) 2) 0) as [Heven|Hodd].
  - destruct (binary_search_place_and_route cfg verify hint fuel g) as [r g'] eqn:Hrun.
    assert (Hp : performs even_trial
                   (binary_search_place_and_route cfg verify hint fuel)
                   (fun _ => True)).
    { eapply performs_weaken.
      - apply performs_binary_search
          with (Inv := parity_inv)
               (J := fun l => Z.even (current l) = true \/ current l < 1).
        + intros l. apply parity_inv_init. exact Hdir.
        + intros l g0 l' Hl _. apply parity_inv_step; assumption.
        + intros l [[(_ & _ & Hf) Hne] | (l0 & g0 & (_ & Hh & _) & _ & Hres)];
            cbn [current set_current].
          * destruct Hf as [Hf|Hf]; [contradiction|]. left.
            replace (final l - 2) with (final l - 1 - 1) by lia.
            apply even_minus_two. exact Hf.
          * pose proof (iteration_result_cases cfg l0 (trial_answer cfg l0 g0)) as Hc.
            rewrite Hres in Hc. destruct Hc as (_ & _ & ->).
            cbn [final set_final].
            destruct Hh as [-> | Hh]; [right; lia|left].
            replace (high l0 - 2) with (high l0 - 1 - 1) by lia.
            apply even_minus_two. exact Hh.
        + intros l s HJ _. unfold verified_locals. rewrite Hdir.
          destruct (s && _); cbn [current set_current set_final];
            (destruct HJ as [HJ|HJ]; [left; apply even_minus_two; exact HJ|right; lia]).
        + unfold init_events.
          destruct (fixed_width_mode cfg); [|destruct (hint >? 0)];
            repeat constructor.
        + intros l s (Hc & _) _. unfold iteration_events.
          constructor; [exact I|].
          destruct (width_guard cfg l); [constructor|].
          destruct (current l * 3 <? Fs cfg); [repeat constructor|].
          apply Forall_app. split; [destruct (place_always cfg); repeat constructor|].
          constructor; [exact Hc|].
          destruct (s && negb (Fc_clipped l)); [destruct (Fc_clipped l)|destruct (s && _)];
            repeat constructor.
        + intros l s HJ Hge _. unfold verify_events.
          apply Forall_app. split; [destruct (place_always cfg); repeat constructor|].
          constructor; [destruct HJ as [HJ|HJ]; [exact HJ|lia]|].
          destruct (s && _); [destruct (place_always cfg)|]; repeat constructor.
        + intros [[]|[]|]; cbn; intros H; try contradiction; exact I.
        + intros; exact I.
      - intros; exact I. }
    destruct (Hp g r g' Hrun) as [(evs & Hlog & Hall) _].
    exists evs. cbn [fst snd]. split; [exact Hlog|]. split; [exact Hall|].
    intros Hodd. contradiction.
  - unfold binary_search_place_and_route, bind. rewrite init_search_eq.
    assert (Hinit : init_result cfg hint
                    = Throw (TriedOddChanWidth (current (initial_guess cfg hint)))).
    { unfold init_result. rewrite Hdir.
      destruct (Z.eqb_spec (Z.rem (current (initial_guess cfg hint)) 2) 0);
        [contradiction|reflexivity]. }
    rewrite Hinit. cbn [fst snd add_events log].
    exists (init_events cfg hint). split; [reflexivity|].
    unfold init_events.
    destruct (fixed_width_mode cfg); [|destruct (hint >? 0)];
      repeat split; repeat constructor.
Qed.
End Parity.

(** ** The clipping flag *)

Section Clipping.
Context {World : Type} {env : Environment World}.

Lemma iteration_keeps_flag cfg l s c l' :
  iteration_result cfg l s = Ok (c, l') -> Fc_clipped l' = Fc_clipped l.
Proof.
  unfold iteration_result.
  destruct (width_guard cfg l); [discriminate|].
  destruct (current l * 3 <? Fs cfg); [intros [= <- <-]; reflexivity|].
  set (l1 := set_attempt_count (attempt_count l + 1) l).
  destruct (s && negb (Fc_clipped l1)).
  - intros [= <- <-].
    destruct (succeeded_fields cfg l1) as (_ & _ & _ & _ & Hf & _).
    cbn [Fc_clipped round_to_step set_current]. rewrite Hf. reflexivity.
  - destruct (failed_locals cfg l1) as [l2| | |] eqn:Hfail; try discriminate.
    intros [= <- <-].
    destruct (failed_fields cfg l1 l2 Hfail) as (_ & _ & _ & _ & Hf & _).
    cbn [Fc_clipped round_to_step set_current]. rewrite Hf. reflexivity.
Qed.

Lemma verified_keeps_flag cfg l s :
  Fc_clipped (verified_locals cfg l s) = Fc_clipped l.
Proof.
  unfold verified_locals.
  destruct (directionality cfg), (s && _); reflexivity.
Qed.

Lemma init_flag cfg hint l : init_result cfg hint = Ok l -> Fc_clipped l = false.
Proof.
  unfold init_result.
  destruct (match directionality cfg with
            | UNI_DIRECTIONAL => _
            | BI_DIRECTIONAL => _
            end); [discriminate|].
  destruct (_ >? 0); [|discriminate]. intros [= <-].
  unfold initial_guess.
  destruct (fixed_width_mode cfg); [|destruct (hint >? 0)]; reflexivity.
Qed.

Lemma reachable_flag cfg hint l : reachable cfg hint l -> Fc_clipped l = false.
Proof.
  induction 1 as [g l g' Hinit|l g l' g' _ IH _ Hstep].
  - rewrite init_search_eq in Hinit. injection Hinit as Hinit _.
    eapply init_flag. eassumption.
  - destruct (search_iteration_eq cfg l g) as [w Heq]. rewrite Heq in Hstep.
    injection Hstep as Hstep _.
    rewrite (iteration_keeps_flag _ _ _ _ _ Hstep). exact IH.
Qed.

(** C10. [Fc_clipped] is false at every iteration of the search; no run
    prints the rejection or either clipping warning; and a trial that the
    router reports successful takes the branch of a success, which makes
    the width tried the new upper bound and saves the routing. *)
Theorem fc_clipped_never_set cfg verify hint fuel (g : globals World) :
  (forall l, reachable cfg hint l -> Fc_clipped l = false) /\
  (exists evs,
     log (snd (binary_search_place_and_route cfg verify hint fuel g)) = log g ++ evs /\
     Forall no_clipping_message evs) /\
  (forall l g0,
     reachable cfg hint l -> final l = -1 ->
     width_guard cfg l = None -> Fs cfg <= current l * 3 ->
     trial_answer cfg l g0 = true ->
     exists l' g',
       search_iteration cfg l g0 = (Ok (Continue, l'), g') /\
       high l' = current l /\
       exists before, log g' = log g0 ++ before ++ [Routed_at (current l) true;
                                                    Called SaveRouting]).
Proof.
  split; [apply reachable_flag|]. split.
  - destruct (binary_search_place_and_route cfg verify hint fuel g) as [r g'] eqn:Hrun.
    assert (Hp : performs no_clipping_message
                   (binary_search_place_and_route cfg verify hint fuel)
                   (fun _ => True)).
    { eapply performs_weaken.
      - apply performs_binary_search
          with (Inv := fun l => Fc_clipped l = false)
               (J := fun l => Fc_clipped l = false).
        + intros l. apply init_flag.
        + intros l g0 l' Hl _ Hres.
          rewrite (iteration_keeps_flag _ _ _ _ _ Hres). exact Hl.
        + intros l [[Hl _] | (l0 & g0 & Hl & _ & Hres)]; cbn [Fc_clipped set_current].
          * exact Hl.
          * rewrite (iteration_keeps_flag _ _ _ _ _ Hres). exact Hl.
        + intros l s Hl _. rewrite verified_keeps_flag. exact Hl.
        + unfold init_events.
          destruct (fixed_width_mode cfg); [|destruct (hint >? 0)];
            repeat constructor.
        + intros l s Hl _. unfold iteration_events. rewrite Hl.
          constructor; [exact I|].
          destruct (width_guard cfg l); [constructor|].
          destruct (current l * 3 <? Fs cfg); [repeat constructor|].
          apply Forall_app. split; [destruct (place_always cfg); repeat constructor|].
          destruct s; repeat constructor.
        + intros l s Hl _ _. unfold verify_events.
          apply Forall_app. split; [destruct (place_always cfg); repeat constructor|].
          constructor; [exact I|].
          destruct (s && _); [destruct (place_always cfg)|]; repeat constructor.
        + intros [[]|[]|]; cbn; intros H; try contradiction; exact I.
        + intros l Hl Hc. exfalso.
          destruct verify.
          * congruence.
          * destruct Hl as [[Hl _] | (l0 & g0 & Hl & _ & Hres)]; [congruence|].
            rewrite (iteration_keeps_flag _ _ _ _ _ Hres) in Hc. congruence.
      - intros; exact I. }
    destruct (Hp g r g' Hrun) as [(evs & Hlog & Hall) _].
    exists evs. cbn [snd]. auto.
  - intros l g0 Hreach Hfinal Hguard HFs Hans.
    pose proof (reachable_flag _ _ _ Hreach) as Hclip.
    destruct (search_iteration_eq cfg l g0) as [w Heq].
    rewrite Heq. unfold iteration_result, iteration_events.
    rewrite Hguard, Hans.
    destruct (Z.ltb_spec (current l * 3) (Fs cfg)); [lia|].
    cbn [Fc_clipped set_attempt_count]. rewrite Hclip. cbn [andb negb].
    eexists. eexists. split; [reflexivity|]. split.
    + destruct (succeeded_fields cfg (set_attempt_count (attempt_count l + 1) l))
        as (Hh & _).
      cbn [high round_to_step set_current]. rewrite Hh. reflexivity.
    + cbn [log].
      exists (Printed (Attempting (current l) (low l) (high l))
              :: (if place_always cfg then [Called (TryPlace (current l))] else [])).
      cbn [app]. reflexivity.
Qed.
End Clipping.

(** ** When [final] is assigned *)

Section Final.
Context {World : Type} {env : Environment World}.

(** C4, as the code has it.  An iteration that assigns [final] assigns
    it the upper bound of that moment, so [final <= high], and
    [low < final] exactly when [low < high]; it does so when the bounds
    are within one step, when the width is below the floor of Fs (then
    by [break], and [final] may stay unknown), or when a trial succeeded
    at a width equal to the upper bound. *)
Theorem final_is_upper_bound cfg l (g : globals World) c l' g' :
  final l = -1 ->
  search_iteration cfg l g = (Ok (c, l'), g') ->
  (c = Break -> current l * 3 < Fs cfg /\ final l' = high l') /\
  (final l' <> -1 ->
   final l' = high l' /\
   (low l' < high l' -> low l' < final l' <= high l') /\
   (high l' - low l' <= 1 * udsd_multiplier cfg \/
    current l * 3 < Fs cfg \/
    (trial_answer cfg l g = true /\ current l = high l))).
Proof.
  intros Hfinal Hstep.
  destruct (search_iteration_eq cfg l g) as [w Heq].
  rewrite Heq in Hstep. injection Hstep as Hres _. clear Heq.
  destruct (iteration_final cfg l _ c l' Hfinal Hres) as [Hbreak Hset].
  split; [exact Hbreak|].
  intros Hne. destruct (Hset Hne) as [Hhigh Hwhen].
  repeat split; try assumption; lia.
Qed.
End Final.

(** ** The sub-search above a fixed width *)

Section SubSearch.
Context {World : Type} {env : Environment World}.

(** While no upper bound is known, a search around a fixed width [W]
    has tried [W + 5 * mult], [W + 10 * mult], ... and all failed. *)
Lemma sub_search_widths cfg hint l :
  fixed_width_mode cfg = true ->
  high_unknown_so_far cfg hint l ->
  high l = -1 /\ Fc_clipped l = false /\ 0 < current l /\
  Z.rem (current l) (udsd_multiplier cfg) = 0 /\
  exists k, 1 <= k /\
    current l = fixed_channel_width cfg + 5 * k * udsd_multiplier cfg.
Proof.
  intros Hfixed. induction 1 as [g l g' Hinit|l g l' g' _ IH Hfinal Hstep Hhigh].
  - rewrite init_search_eq in Hinit. injection Hinit as Hinit _.
    unfold init_result, initial_guess in Hinit. rewrite Hfixed in Hinit.
    cbn [current] in Hinit.
    assert (Hrem : Z.rem (fixed_channel_width cfg + 5 * udsd_multiplier cfg)
                     (udsd_multiplier cfg) = 0).
    { unfold udsd_multiplier in *. destruct (directionality cfg).
      - destruct (Z.eqb_spec (Z.rem (fixed_channel_width cfg + 5 * 2) 2) 0);
          [assumption|discriminate].
      - apply Z.rem_1_r. }
    destruct (match directionality cfg with
              | UNI_DIRECTIONAL => _
              | BI_DIRECTIONAL => _
              end); [discriminate|].
    destruct (Z.gtb_spec (fixed_channel_width cfg + 5 * udsd_multiplier cfg) 0);
      [|discriminate].
    injection Hinit as <-. cbn [high Fc_clipped current].
    repeat split; try assumption. exists 1. lia.
  - destruct IH as (Hh & Hclip & Hpos & Hrem & k & Hk & Hcur).
    destruct (search_iteration_eq cfg l g) as [w Heq].
    rewrite Heq in Hstep. injection Hstep as Hres _. clear Heq.
    unfold iteration_result in Hres.
    destruct (width_guard cfg l); [discriminate|].
    destruct (current l * 3 <? Fs cfg); [discriminate|].
    set (l1 := set_attempt_count (attempt_count l + 1) l) in *.
    destruct (trial_answer cfg l g && negb (Fc_clipped l1)).
    + injection Hres as <-.
      destruct (succeeded_fields cfg l1) as (Hh' & _).
      cbn [high round_to_step set_current] in Hhigh.
      rewrite Hh' in Hhigh. subst l1. cbn [current set_attempt_count] in Hhigh. lia.
    + destruct (failed_locals cfg l1) as [l2| | |] eqn:Hfail; try discriminate.
      injection Hres as <-.
      destruct (failed_fields cfg l1 l2 Hfail) as (_ & Hh' & _ & _ & Hc' & _ & Hcur').
      subst l1. cbn [current high Fc_clipped set_attempt_count] in *.
      rewrite Hh, Hfixed, Z.eqb_refl in Hcur'. cbn [negb] in Hcur'.
      cbn [high Fc_clipped current round_to_step set_current].
      rewrite Hh', Hc', Hcur'.
      assert (Hrem' : Z.rem (current l + 5 * udsd_multiplier cfg)
                        (udsd_multiplier cfg) = 0).
      { destruct (udsd_multiplier_cases cfg) as [Hm|Hm]; rewrite Hm in *; lia. }
      rewrite Hrem', Z.add_0_r.
      repeat split; try assumption.
      * destruct (udsd_multiplier_cases cfg) as [Hm|Hm]; rewrite Hm in *; lia.
      * exists (k + 1). split; [lia|]. rewrite Hcur. lia.
Qed.

(** C5. In a search around a fixed width [W], while no trial has given
    an upper bound: a failed trial makes its width the lower bound, the
    next width is that bound plus [5 * mult], and the search throws
    exactly when this next width would exceed [W + 30]. *)
Theorem sub_search_step cfg hint l (g : globals World) :
  fixed_width_mode cfg = true ->
  high_unknown_so_far cfg hint l ->
  final l = -1 ->
  width_guard cfg l = None ->
  Fs cfg <= current l * 3 ->
  trial_answer cfg l g = false ->
  (current l + 5 * udsd_multiplier cfg <= fixed_channel_width cfg + 30 ->
   exists l' g',
     search_iteration cfg l g = (Ok (Continue, l'), g') /\
     low l' = current l /\ high l' = -1 /\ final l' = -1 /\
     current l' = low l' + 5 * udsd_multiplier cfg) /\
  (fixed_channel_width cfg + 30 < current l + 5 * udsd_multiplier cfg ->
   exists g',
     search_iteration cfg l g = (Throw (WneedTooLarge (current l)), g')).
Proof.
  intros Hfixed Hsub Hfinal Hguard HFs Hans.
  destruct (sub_search_widths cfg hint l Hfixed Hsub)
    as (Hh & Hclip & Hpos & Hrem & k & Hk & Hcur).
  destruct (search_iteration_eq cfg l g) as [w Heq]. rewrite Heq. clear Heq.
  unfold iteration_result. rewrite Hguard, Hans.
  destruct (Z.ltb_spec (current l * 3) (Fs cfg)); [lia|].
  cbn [andb]. unfold failed_locals.
  cbn [high low current final set_low set_attempt_count].
  rewrite Hh, Hfixed, Z.eqb_refl. cbn [negb].
  assert (Hm : udsd_multiplier cfg = 1 \/ udsd_multiplier cfg = 2)
    by apply udsd_multiplier_cases.
  split; intros Hnext.
  - destruct (Z.ltb_spec (current l) (fixed_channel_width cfg + 30)).
    + eexists. eexists. split; [reflexivity|].
      cbn [low high final current round_to_step set_current set_low
             set_attempt_count].
      repeat split; try assumption.
      assert (Hrem' : Z.rem (current l + 5 * udsd_multiplier cfg)
                        (udsd_multiplier cfg) = 0)
        by (destruct Hm as [Hm|Hm]; rewrite Hm in *; lia).
      rewrite Hrem'. lia.
    + exfalso. destruct Hm as [Hm|Hm]; rewrite Hm in *; nia.
  - destruct (Z.ltb_spec (current l) (fixed_channel_width cfg + 30)).
    + exfalso. destruct Hm as [Hm|Hm]; rewrite Hm in *; nia.
    + eexists. reflexivity.
Qed.
End SubSearch.

(** ** The floor of Fs *)

Section Floor.
Context {World : Type} {env : Environment World}.

(** Below width 1 the verification makes no trial. *)
Lemma verify_loop_below_one cfg fuel l prev prev2 (g : globals World) :
  current l < 1 -> verify_loop cfg fuel l prev prev2 g = (Ok l, g).
Proof.
  intros Hc. destruct fuel; cbn [verify_loop];
    destruct (prev2 || prev); try reflexivity;
    destruct (fixed_width_mode cfg && _); try reflexivity;
    (destruct (Z.ltb_spec (current l) 1); [reflexivity|lia]).
Qed.

(** With profiles of known kinds [init_chan] returns, and logs nothing. *)
Lemma init_chan_returns cfg cfactor dist (g : globals World) :
  known_chan_type (type (chan_x_dist dist)) = true ->
  known_chan_type (type (chan_y_dist dist)) = true ->
  exists g', init_chan cfg cfactor dist g = (Ok tt, g') /\ log g' = log g.
Proof.
  intros Hx Hy. destruct (init_chan cfg cfactor dist g) as [r g'] eqn:Hrun.
  destruct (performs_init_chan (fun _ => False) cfg cfactor dist g r g' Hrun)
    as [(evs & Hlog & Hall) Hr].
  assert (evs = []) as -> by (destruct evs; [reflexivity|inversion Hall; contradiction]).
  rewrite app_nil_r in Hlog.
  destruct r as [[]|e| |]; try contradiction; [eauto|].
  destruct Hr as (chan & [-> | ->] & _ & Hk); congruence.
Qed.
End Floor.

(** ** The fatal outcomes *)

Section Aborts.
Context {World : Type} {env : Environment World}.

Lemma reachable_after_init cfg hint l (g : globals World) :
  init_result cfg hint = Ok l -> reachable cfg hint l.
Proof.
  intros Hinit. apply reach_init with (g := g) (g' := add_events g (init_events cfg hint)).
  rewrite init_search_eq, Hinit. reflexivity.
Qed.

Lemma reachable_after_iteration cfg hint l (g0 : globals World) l' :
  reachable cfg hint l -> final l = -1 ->
  iteration_result cfg l (trial_answer cfg l g0) = Ok (Continue, l') ->
  reachable cfg hint l'.
Proof.
  intros Hl Hfinal Hres. destruct (search_iteration_eq cfg l g0) as [w Heq].
  eapply reach_step; [exact Hl|exact Hfinal|]. rewrite Heq, Hres. reflexivity.
Qed.

(** The outcome of the initialisation, case by case. *)
Lemma init_result_cases cfg hint :
  let c0 := current (initial_guess cfg hint) in
  (directionality cfg = UNI_DIRECTIONAL /\ Z.rem c0 2 <> 0 /\
   init_result cfg hint = Throw (TriedOddChanWidth c0)) \/
  (directionality cfg = BI_DIRECTIONAL /\ Z.rem (Fs cfg) 3 <> 0 /\
   init_result cfg hint = Throw FsMustBeThree) \/
  ((directionality cfg = UNI_DIRECTIONAL -> Z.rem c0 2 = 0) /\
   (directionality cfg = BI_DIRECTIONAL -> Z.rem (Fs cfg) 3 = 0) /\
   ((c0 <= 0 /\ init_result cfg hint = AssertFailed) \/
    (0 < c0 /\ init_result cfg hint = Ok (initial_guess cfg hint)))).
Proof.
  cbv zeta. unfold init_result.
  destruct (directionality cfg).
  - destruct (Z.eqb_spec (Z.rem (current (initial_guess cfg hint)) 2) 0);
      cbn [negb]; [|left; auto].
    right. right. split; [auto|]. split; [discriminate|].
    destruct (Z.gtb_spec (current (initial_guess cfg hint)) 0); [right|left]; auto.
  - destruct (Z.eqb_spec (Z.rem (Fs cfg) 3) 0); cbn [negb]; [|right; left; auto].
    right. right. split; [discriminate|]. split; [auto|].
    destruct (Z.gtb_spec (current (initial_guess cfg hint)) 0); [right|left]; auto.
Qed.

Lemma width_guard_cases cfg l e :
  width_guard cfg l = Some e ->
  (fixed_width_mode cfg = false /\ 1000 < current l /\ e = WidthAbove1000) \/
  (fixed_width_mode cfg = true /\ fixed_channel_width cfg * 4 < current l /\
   e = AppearsUnroutable (low l)).
Proof.
  unfold width_guard. destruct (fixed_width_mode cfg).
  - destruct (Z.gtb_spec (current l) (fixed_channel_width cfg * 4));
      intros [= <-]; auto.
  - destruct (Z.gtb_spec (current l) 1000); intros [= <-]; auto.
Qed.

(** C6, as the code has it.  A run of the search ends fatally only
    through one of the six [vpr_throw]s, each under its condition, or
    through the failure of [VTR_ASSERT(current > 0)] on the initial
    width; the two checks of the initialisation and the assertion
    decide the outcome when they fire; the guard, the end of the
    sub-search and an unknown profile kind throw in every iteration or
    call they are met in; and [place_and_route] itself throws for an odd
    fixed width under unidirectional routing. *)
Theorem fatal_outcomes cfg verify hint fuel (g : globals World) :
  let r := fst (binary_search_place_and_route cfg verify hint fuel g) in
  let c0 := current (initial_guess cfg hint) in
  match r with
  | Throw e =>
      (directionality cfg = UNI_DIRECTIONAL /\ Z.rem c0 2 <> 0 /\
       e = TriedOddChanWidth c0) \/
      (directionality cfg = BI_DIRECTIONAL /\ Z.rem (Fs cfg) 3 <> 0 /\
       e = FsMustBeThree) \/
      (exists l, reachable cfg hint l /\ final l = -1 /\
         ((fixed_width_mode cfg = false /\ 1000 < current l /\
           e = WidthAbove1000) \/
          (fixed_width_mode cfg = true /\
           fixed_channel_width cfg * 4 < current l /\
           e = AppearsUnroutable (low l)) \/
          (fixed_width_mode cfg = true /\ high l = -1 /\
           fixed_channel_width cfg + 30 <= current l /\
           e = WneedTooLarge (current l)))) \/
      (exists chan,
         (chan = chan_x_dist (Chans cfg) \/ chan = chan_y_dist (Chans cfg)) /\
         known_chan_type (type chan) = false /\
         e = UnknownChannelType (type chan))
  | AssertFailed => c0 <= 0
  | _ => True
  end /\
  (directionality cfg = UNI_DIRECTIONAL -> Z.rem c0 2 <> 0 ->
   r = Throw (TriedOddChanWidth c0)) /\
  (directionality cfg = BI_DIRECTIONAL -> Z.rem (Fs cfg) 3 <> 0 ->
   r = Throw FsMustBeThree) /\
  ((directionality cfg = UNI_DIRECTIONAL -> Z.rem c0 2 = 0) ->
   (directionality cfg = BI_DIRECTIONAL -> Z.rem (Fs cfg) 3 = 0) ->
   c0 <= 0 -> r = AssertFailed) /\
  (forall l g0 e,
     width_guard cfg l = Some e -> fst (search_iteration cfg l g0) = Throw e) /\
  (forall l g0,
     width_guard cfg l = None -> Fs cfg <= current l * 3 ->
     trial_answer cfg l g0 && negb (Fc_clipped l) = false ->
     fixed_width_mode cfg = true -> high l = -1 ->
     fixed_channel_width cfg + 30 <= current l ->
     fst (search_iteration cfg l g0) = Throw (WneedTooLarge (current l))) /\
  (forall chan x separation g0,
     known_chan_type (type chan) = false ->
     comp_width chan x separation g0 = (Throw (UnknownChannelType (type chan)), g0)) /\
  (forall g0,
     placement cfg g = (Ok tt, g0) -> doRouting cfg = true ->
     fixed_channel_width cfg <> NO_FIXED_CHANNEL_WIDTH ->
     directionality cfg = UNI_DIRECTIONAL ->
     Z.rem (fixed_channel_width cfg) 2 <> 0 ->
     place_and_route cfg fuel g
     = (Throw (GivenOddChanWidth (fixed_channel_width cfg)), g0)).
Proof.
  cbv zeta.
  assert (Hthrow : forall e, init_result cfg hint = Throw e ->
            fst (binary_search_place_and_route cfg verify hint fuel g) = Throw e).
  { intros e Hinit. unfold binary_search_place_and_route, bind.
    rewrite init_search_eq, Hinit. reflexivity. }
  assert (Hassert : init_result cfg hint = AssertFailed ->
            fst (binary_search_place_and_route cfg verify hint fuel g) = AssertFailed).
  { intros Hinit. unfold binary_search_place_and_route, bind.
    rewrite init_search_eq, Hinit. reflexivity. }
  split; [|split; [|split; [|split; [|split; [|split; [|split]]]]]].
  - destruct (binary_search_place_and_route cfg verify hint fuel g) as [r g'] eqn:Hrun.
    cbn [fst].
    destruct (performs_binary_search (fun _ => True) cfg verify hint fuel
                (reachable cfg hint) (fun _ => True)) with (g := g) (r := r) (g' := g')
      as [_ Hr]; try assumption; try (intros; apply Forall_forall; intros; exact I);
      try (intros; exact I).
    + intros l. apply reachable_after_init. exact g.
    + intros l g0 l'. apply reachable_after_iteration.
    + destruct r as [w|e| |]; try exact I.
      * destruct Hr as [Hinit|[(l & g0 & Hl & Hfinal & Hres)|(chan & Hchan & -> & Hk)]].
        -- destruct (init_result_cases cfg hint)
             as [(Hd & Hrem & He)|[(Hd & Hrem & He)|(_ & _ & [(_ & He)|(_ & He)])]];
             rewrite He in Hinit; try discriminate; injection Hinit as <-; auto.
        -- right. right. left. exists l. split; [exact Hl|]. split; [exact Hfinal|].
           pose proof (iteration_result_cases cfg l (trial_answer cfg l g0)) as Hc.
           rewrite Hres in Hc.
           destruct Hc as [Hguard|(_ & _ & _ & -> & Hh & Hfix & Hcap)].
           ++ destruct (width_guard_cases _ _ _ Hguard) as [?|?]; auto.
           ++ right. right. auto.
        -- right. right. right. exists chan. auto.
      * destruct (init_result_cases cfg hint)
          as [(Hd & Hrem & He)|[(Hd & Hrem & He)|(_ & _ & [(Hc & He)|(_ & He)])]];
          rewrite He in Hr; try discriminate. exact Hc.
  - intros Hd Hrem.
    destruct (init_result_cases cfg hint)
      as [(_ & _ & He)|[(Hd' & _)|(Hrem' & _)]];
      [auto|congruence|specialize (Hrem' Hd); contradiction].
  - intros Hd Hrem.
    destruct (init_result_cases cfg hint)
      as [(Hd' & _)|[(_ & _ & He)|(_ & Hrem' & _)]];
      [congruence|auto|specialize (Hrem' Hd); contradiction].
  - intros Huni Hbi Hc0.
    destruct (init_result_cases cfg hint)
      as [(Hd & Hrem & _)|[(Hd & Hrem & _)|(_ & _ & [(_ & He)|(Hc & _)])]];
      [specialize (Huni Hd); contradiction|specialize (Hbi Hd); contradiction
      |auto|lia].
  - intros l g0 e Hguard. destruct (search_iteration_eq cfg l g0) as [w Heq].
    rewrite Heq. unfold iteration_result. rewrite Hguard. reflexivity.
  - intros l g0 Hguard HFs Hfail Hfix Hh Hcap.
    destruct (search_iteration_eq cfg l g0) as [w Heq].
    rewrite Heq. unfold iteration_result. rewrite Hguard.
    destruct (Z.ltb_spec (current l * 3) (Fs cfg)); [lia|].
    cbn [Fc_clipped set_attempt_count fst]. rewrite Hfail.
    unfold failed_locals. cbn [high low current set_low set_attempt_count].
    rewrite Hh, Hfix, Z.eqb_refl. cbn [negb].
    destruct (Z.ltb_spec (current l) (fixed_channel_width cfg + 30)); [lia|reflexivity].
  - intros chan x separation g0 Hk. unfold comp_width, known_chan_type in *.
    destruct (type chan =? UNIFORM); [discriminate|].
    destruct (type chan =? GAUSSIAN); [discriminate|].
    destruct (type chan =? PULSE); [discriminate|].
    destruct (type chan =? DELTA); [discriminate|]. reflexivity.
  - intros g0 Hplace Hroute Hfix Hd Hodd.
    unfold place_and_route, bind. rewrite Hplace, Hroute. cbn [negb].
    destruct (Z.eqb_spec NO_FIXED_CHANNEL_WIDTH (fixed_channel_width cfg));
      [congruence|].
    rewrite Hd.
    destruct (Z.eqb_spec (Z.rem (fixed_channel_width cfg) 2) 0); [contradiction|].
    reflexivity.
Qed.
End Aborts.

(** ** The profiles of [comp_width] *)

Section Profiles.
Context {World : Type} {env : Environment World}.

(** C9. [comp_width] returns [peak] for a uniform profile; the Gaussian
    of the code's formula plus [dc]; for a pulse, [peak + dc] when
    [|x - xpeak| <= width / 2] and [0 + dc] otherwise, as long as
    [x - xpeak] and [width] are numbers; for a delta, [peak + dc] when
    [- separation / 2 < x - xpeak <= separation / 2] and [0 + dc]
    otherwise; and [0 + dc] is [dc], the sign of a zero apart. *)
Theorem comp_width_profiles chan x separation (g : globals World) :
  let d := F32.sub x (xpeak chan) in
  (type chan = UNIFORM ->
   comp_width chan x separation g = (Ok (peak chan), g)) /\
  (type chan = GAUSSIAN ->
   comp_width chan x separation g
   = (Ok (F32.add
            (F32.mul (peak chan)
               (expf (F32.neg
                        (F32.div (F32.mul d d)
                           (F32.mul (F32.mul (F32.of_int 2) (width chan))
                              (width chan))))))
            (dc chan)), g)) /\
  (type chan = PULSE ->
   valid_binary 24 128 d = true -> is_nan d = false -> is_nan (width chan) = false ->
   comp_width chan x separation g
   = (Ok (if F64.le (F64.of_float (SFabs d))
                (F64.div (F64.of_float (width chan)) F64.two)
          then F32.add (peak chan) (dc chan)
          else F32.add F32.zero (dc chan)), g)) /\
  (type chan = DELTA ->
   comp_width chan x separation g
   = (Ok (if F64.gt (F64.of_float d)
                (F64.div (F64.of_float (F32.neg separation)) F64.two)
             && F64.le (F64.of_float d)
                  (F64.div (F64.of_float separation) F64.two)
          then F32.add (peak chan) (dc chan)
          else F32.add F32.zero (dc chan)), g)) /\
  (dc chan <> S754_zero true -> F32.add F32.zero (dc chan) = dc chan).
Proof.
  cbv zeta. unfold comp_width, ret.
  split; [|split; [|split; [|split]]].
  - intros ->. reflexivity.
  - intros ->. reflexivity.
  - intros -> Hvalid Hd Hw. cbn [Z.eqb UNIFORM GAUSSIAN PULSE Pos.eqb].
    change (2 =? UNIFORM) with false. change (2 =? GAUSSIAN) with false.
    change (2 =? PULSE) with true. cbv iota.
    rewrite fabs_through_double by exact Hvalid.
    rewrite le_not_gt.
    + destruct (F64.gt _ _); reflexivity.
    + rewrite of_float_nan, abs_nan. exact Hd.
    + apply half_not_nan. rewrite of_float_nan. exact Hw.
  - intros ->.
    change (3 =? UNIFORM) with false. change (3 =? GAUSSIAN) with false.
    change (3 =? PULSE) with false. change (3 =? DELTA) with true. cbv iota.
    destruct (_ && _); reflexivity.
  - apply add_zero_left.
Qed.
End Profiles.

(** ** The track counts of [init_chan] *)

Section TrackCounts.
Context {World : Type} {env : Environment World}.

Lemma comp_width_state chan x separation (g : globals World) :
  snd (comp_width chan x separation g) = g.
Proof.
  unfold comp_width.
  repeat match goal with
         | |- context [if ?b then _ else _] => destruct b
         end; reflexivity.
Qed.

(** An interior entry is set to a count of at least 1. *)
Lemma set_interior_effect a i cfactor dist pos separation (g g' : globals World) :
  set_interior a i cfactor dist pos separation g = (Ok tt, g') ->
  exists w, 1 <= w /\
    g' = {| world := world g;
            chan_width := set_axis_list a (<[Z.to_nat i := w]> (axis_list a (chan_width g)))
                            (chan_width g);
            log := log g |}.
Proof.
  unfold set_interior, bind.
  pose proof (comp_width_state dist pos separation g) as Hg.
  destruct (comp_width dist pos separation g) as [r g1]. cbn [snd] in Hg. subst g1.
  destruct r as [v| | |]; try discriminate.
  unfold store, load, bind, get_chan_width, put_chan_width, ret.
  cbn [world chan_width log]. intros [= <-].
  exists (Z.max
            (default 0
               (<[Z.to_nat i := round_half_up (F32.mul (F32.of_int cfactor) v)]>
                  (axis_list a (chan_width g)) !! Z.to_nat i)) 1).
  split; [apply Z.le_max_r|].
  f_equal. destruct a, (chan_width g); cbn; rewrite list_insert_insert_eq; reflexivity.
Qed.

Lemma axis_list_set a l cw : axis_list a (set_axis_list a l cw) = l.
Proof. destruct a; reflexivity. Qed.

Lemma set_axis_list_twice a l l' cw :
  set_axis_list a l' (set_axis_list a l cw) = set_axis_list a l' cw.
Proof. destruct a; reflexivity. Qed.

Lemma set_axis_list_same a cw : set_axis_list a (axis_list a cw) cw = cw.
Proof. destruct a, cw; reflexivity. Qed.

Lemma filled_refl lo l : filled lo lo l l.
Proof. repeat split; intros; lia || reflexivity. Qed.

(** Filling [lo + 1] and then [lo + 2 .. hi]. *)
Lemma filled_step lo hi l w l' :
  1 <= w -> (lo < hi)%nat ->
  filled (S lo) hi (<[S lo := w]> l) l' -> filled lo hi l l'.
Proof.
  intros Hw Hlt (Hlen & Hout & Hin). rewrite length_insert in Hlen, Hin.
  split; [exact Hlen|]. split.
  - intros j Hj. rewrite Hout by lia. apply list_lookup_insert_ne. lia.
  - intros j Hj Hjl. destruct (Nat.eq_dec j (S lo)) as [->|Hne].
    + exists w. split; [|exact Hw].
      rewrite Hout by lia. apply list_lookup_insert_eq. exact Hjl.
    + apply Hin; lia.
Qed.

Lemma fill_interior_effect todo a i n cfactor dist separation (g g' : globals World) :
  0 <= i ->
  fill_interior todo a i n cfactor dist separation g = (Ok tt, g') ->
  exists l',
    filled (Z.to_nat i) (Z.to_nat i + todo) (axis_list a (chan_width g)) l' /\
    g' = {| world := world g; chan_width := set_axis_list a l' (chan_width g);
            log := log g |}.
Proof.
  revert i g. induction todo as [|todo IH]; intros i g Hi; cbn [fill_interior].
  - intros [= <-]. exists (axis_list a (chan_width g)).
    rewrite Nat.add_0_r, set_axis_list_same. split; [apply filled_refl|].
    destruct g; reflexivity.
  - unfold bind at 1.
    destruct (set_interior a (i + 1) cfactor dist _ separation g) as [r g1] eqn:Hset.
    destruct r as [[]| | |]; try discriminate.
    destruct (set_interior_effect _ _ _ _ _ _ _ _ Hset) as (w & Hw & ->).
    intros Hrest. apply IH in Hrest; [|lia].
    destruct Hrest as (l' & Hfilled & ->).
    cbn [world chan_width log] in *.
    rewrite axis_list_set in Hfilled. rewrite set_axis_list_twice.
    exists l'. split; [|reflexivity].
    replace (Z.to_nat (i + 1)) with (S (Z.to_nat i)) in Hfilled by lia.
    apply filled_step with (w := w); [exact Hw|lia|].
    replace (Z.to_nat i + S todo)%nat with (S (Z.to_nat i) + todo)%nat by lia.
    exact Hfilled.
Qed.

(** After [init_axis] for [n > 1] the entries [1 .. n - 1] are counts of
    at least 1, and the others are as before. *)
Lemma init_axis_effect a n cfactor dist (g g' : globals World) :
  init_axis a n cfactor dist g = (Ok tt, g') ->
  exists l',
    filled 0 (Z.to_nat (n - 1)) (axis_list a (chan_width g)) l' /\
    g' = {| world := world g; chan_width := set_axis_list a l' (chan_width g);
            log := log g |}.
Proof.
  unfold init_axis, when. destruct (Z.gtb_spec n 1) as [Hn|Hn].
  - unfold bind at 1.
    destruct (set_interior a 1 cfactor dist _ _ g) as [r g1] eqn:Hset.
    destruct r as [[]| | |]; try discriminate.
    destruct (set_interior_effect _ _ _ _ _ _ _ _ Hset) as (w & Hw & ->).
    intros Hrest. apply fill_interior_effect in Hrest; [|lia].
    destruct Hrest as (l' & Hfilled & ->).
    cbn [world chan_width log] in *.
    rewrite axis_list_set in Hfilled. rewrite set_axis_list_twice.
    exists l'. split; [|reflexivity].
    change (Z.to_nat 1) with 1%nat in Hfilled.
    apply filled_step with (w := w); [exact Hw|lia|].
    replace (Z.to_nat (n - 1)) with (1 + Z.to_nat (n - 2))%nat by lia.
    exact Hfilled.
  - intros [= <-]. exists (axis_list a (chan_width g)).
    rewrite set_axis_list_same. split; [|destruct g; reflexivity].
    replace (Z.to_nat (n - 1)) with 0%nat by lia. apply filled_refl.
Qed.

Lemma counts_after_fill n edge l l' :
  0 <= n -> length l = S (Z.to_nat n) ->
  filled 0 (Z.to_nat (n - 1)) (<[0%nat := edge]> (<[Z.to_nat n := edge]> l)) l' ->
  counts_of n edge l'.
Proof.
  intros Hn Hlen (Hlen' & Hout & Hin). rewrite !length_insert in Hlen', Hin.
  split; [|split].
  - rewrite (Hout 0%nat) by lia.
    apply list_lookup_insert_eq. rewrite length_insert. lia.
  - destruct (Nat.eq_dec (Z.to_nat n) 0%nat) as [H0|H0].
    + rewrite H0. rewrite (Hout 0%nat) by lia.
      apply list_lookup_insert_eq. rewrite length_insert. lia.
    + rewrite (Hout (Z.to_nat n)) by lia. rewrite list_lookup_insert_ne by lia.
      apply list_lookup_insert_eq. lia.
  - intros j Hj. apply Hin; lia.
Qed.

(** What [init_chan] computes.  In lists of the sizes of the grid, the
    two ends of each list hold the I/O count, which is
    [round_half_up (cfactor * chan_width_io)] with 0 replaced by 1, and
    every entry in between is at least 1.  So all counts are at least 1
    exactly when the rounded I/O count is not negative. *)
Lemma init_chan_track_counts cfg cfactor dist (g g' : globals World) :
  0 <= nx cfg -> 0 <= ny cfg ->
  length (x_list (chan_width g)) = S (Z.to_nat (ny cfg)) ->
  length (y_list (chan_width g)) = S (Z.to_nat (nx cfg)) ->
  init_chan cfg cfactor dist g = (Ok tt, g') ->
  let nio := round_half_up (F32.mul (F32.of_int cfactor) (chan_width_io dist)) in
  let edge := if nio =? 0 then 1 else nio in
  counts_of (ny cfg) edge (x_list (chan_width g')) /\
  counts_of (nx cfg) edge (y_list (chan_width g')) /\
  (1 <= edge <-> 0 <= nio).
Proof.
  intros Hnx Hny Hlx Hly. cbv zeta. unfold init_chan.
  set (edge := if _ =? 0 then 1 else _).
  unfold store at 1 2 3 4. unfold bind, get_chan_width, put_chan_width.
  cbn [world chan_width log].
  match goal with
  | |- context [init_axis XList (ny cfg) cfactor (chan_x_dist dist) ?g1] =>
      destruct (init_axis XList (ny cfg) cfactor (chan_x_dist dist) g1)
        as [r g2] eqn:Hx
  end.
  destruct r as [[]| | |]; try discriminate.
  apply init_axis_effect in Hx. destruct Hx as (lx & Hfx & ->).
  cbn [world chan_width log] in *.
  match goal with
  | |- context [init_axis YList (nx cfg) cfactor (chan_y_dist dist) ?g1] =>
      destruct (init_axis YList (nx cfg) cfactor (chan_y_dist dist) g1)
        as [r g3] eqn:Hy
  end.
  destruct r as [[]| | |]; try discriminate.
  apply init_axis_effect in Hy. destruct Hy as (ly & Hfy & ->).
  cbn [world chan_width log axis_list set_axis_list x_list y_list] in *.
  intros [= <-]. cbn [chan_width update_stats x_list y_list].
  split; [|split].
  - eapply counts_after_fill; [exact Hny|exact Hlx|exact Hfx].
  - eapply counts_after_fill; [exact Hnx|exact Hly|exact Hfy].
  - subst edge.
    destruct (Z.eqb_spec (round_half_up (F32.mul (F32.of_int cfactor) (chan_width_io dist))) 0);
      lia.
Qed.
End TrackCounts.

(** C8 at a negative I/O width.  With the factor 1 and
    [chan_width_io = -1.0] on a 2 by 2 grid, [init_chan] returns with the
    boundary entries of both lists at -1: the test [nio == 0] lets a
    negative count through, where the interior entries go through
    [max(..., 1)]. *)
Lemma negative_io_boundary :
  let r := @init_chan unit (width_router (fun _ => true))
             (search_config BI_DIRECTIONAL 3 (-1) [2] false) 1
             (uniform_chans (F32.neg float_one)) (start tt) in
  fst r = Ok tt /\
  x_list (chan_width (snd r)) = [-1; 1; -1] /\
  y_list (chan_width (snd r)) = [-1; 1; -1].
Proof. vm_compute. repeat split; reflexivity. Qed.

(** ** One iteration, field by field *)

Section Step.
Context {World : Type} {env : Environment World}.

(** The locals after an iteration that reaches the bottom of the body. *)
Lemma continue_cases cfg l s l' :
  Fc_clipped l = false ->
  iteration_result cfg l s = Ok (Continue, l') ->
  width_guard cfg l = None /\ Fs cfg <= current l * 3 /\
  Fc_clipped l' = false /\ using_minw_hint l' = using_minw_hint l /\
  attempt_count l' = attempt_count l + 1 /\
  if s then
    high l' = current l /\ low l' = low l /\
    final l' = (if (current l - low l <=? 1 * udsd_multiplier cfg)
                   || (current l =? high l)
                then current l else final l) /\
    current l' =
      step_up cfg
        (div_scale (if low l =? -1 then current l else current l + low l)
           (if using_minw_hint l && (attempt_count l =? 0)
            then scale_hint else scale_two))
  else
    low l' = current l /\ high l' = high l /\
    final l' = (if negb (high l =? -1)
                   && (high l - current l <=? 1 * udsd_multiplier cfg)
                then high l else final l) /\
    current l' =
      step_up cfg
        (if negb (high l =? -1) then div_scale (high l + current l) scale_two
         else if fixed_width_mode cfg then current l + 5 * udsd_multiplier cfg
         else mul_scale (current l) scale_two).
Proof.
  intros Hclip Hres.
  pose proof (iteration_result_cases cfg l s) as Hcases.
  rewrite Hres in Hcases. destruct Hcases as [Hguard HFs].
  split; [exact Hguard|]. split; [exact HFs|].
  unfold iteration_result in Hres. rewrite Hguard in Hres.
  destruct (Z.ltb_spec (current l * 3) (Fs cfg)); [lia|].
  set (l1 := set_attempt_count (attempt_count l + 1) l) in *.
  assert (Hc1 : Fc_clipped l1 = false) by exact Hclip.
  rewrite Hc1 in Hres. cbn [negb] in Hres. rewrite andb_true_r in Hres.
  destruct s.
  - injection Hres as <-.
    destruct (succeeded_fields cfg l1) as (Hh & Hl & Ha & Hu & Hf & Hfin & Hc).
    unfold round_to_step, step_up.
    cbn [current low high final attempt_count using_minw_hint Fc_clipped set_current].
    rewrite Hh, Hl, Ha, Hu, Hf, Hfin, Hc.
    subst l1.
    cbn [current low high final attempt_count using_minw_hint Fc_clipped
           set_attempt_count].
    replace (attempt_count l + 1 =? 1) with (attempt_count l =? 0)
      by (destruct (Z.eqb_spec (attempt_count l) 0),
            (Z.eqb_spec (attempt_count l + 1) 1); reflexivity || lia).
    destruct (low l =? -1); cbn [negb]; repeat split; auto.
  - destruct (failed_locals cfg l1) as [l2| | |] eqn:Hfail; try discriminate.
    injection Hres as <-.
    destruct (failed_fields cfg l1 l2 Hfail) as (Hl & Hh & Ha & Hu & Hf & Hfin & Hc).
    unfold round_to_step, step_up.
    cbn [current low high final attempt_count using_minw_hint Fc_clipped set_current].
    rewrite Hh, Hl, Ha, Hu, Hf, Hfin, Hc.
    subst l1.
    cbn [current low high final attempt_count using_minw_hint Fc_clipped
           set_attempt_count].
    repeat split; auto.
Qed.
End Step.

(** ** The float arithmetic of the search on widths up to 1000 *)

Lemma forallb_widths (P : Z -> bool) n w :
  forallb P (widths_upto n) = true -> 0 <= w <= Z.of_nat n -> P w = true.
Proof.
  intros Hall Hw. rewrite forallb_forall in Hall. apply Hall.
  unfold widths_upto. apply in_map_iff. exists (Z.to_nat w).
  split; [lia|]. apply in_seq. lia.
Qed.

Lemma hint_division h :
  1 <= h <= 1000 ->
  0 <= div_scale h scale_hint < h /\
  (div_scale h scale_hint = 0 -> h = 1) /\
  (12 <= h -> div_scale h scale_hint + 1 < h).
Proof.
  intros Hh.
  assert (Hall : forallb hint_division_ok (widths_upto 1000) = true)
    by (vm_compute; reflexivity).
  pose proof (forallb_widths _ 1000 h Hall ltac:(lia)) as Hok.
  unfold hint_division_ok in Hok. cbv zeta in Hok.
  destruct (Z.eqb_spec h 0); [lia|]. cbn [orb] in Hok.
  repeat (apply andb_prop in Hok; destruct Hok as [Hok ?]).
  destruct (Z.leb_spec 0 (div_scale h scale_hint)); [|discriminate].
  destruct (Z.ltb_spec (div_scale h scale_hint) h); [|discriminate].
  repeat split; try assumption.
  - intros Hr. rewrite Hr in *. cbn [Z.eqb implb] in *.
    destruct (Z.eqb_spec h 1); [assumption|discriminate].
  - intros H12. destruct (Z.leb_spec 12 h); [|lia]. cbn [implb] in *.
    destruct (Z.ltb_spec (div_scale h scale_hint + 1) h); [assumption|discriminate].
Qed.

Lemma doubled c : 0 <= c <= 1000 -> mul_scale c scale_two = 2 * c.
Proof.
  intros Hc.
  assert (Hall : forallb doubling_ok (widths_upto 1000) = true)
    by (vm_compute; reflexivity).
  pose proof (forallb_widths _ 1000 c Hall ltac:(lia)) as Hok.
  unfold doubling_ok in Hok. lia.
Qed.

(** ** Termination of the unconstrained search *)

Section Termination.
Context {World : Type} {env : Environment World}.

Lemma unconstrained_guard cfg l :
  fixed_width_mode cfg = false -> width_guard cfg l = None -> current l <= 1000.
Proof.
  unfold width_guard. intros ->.
  destruct (Z.gtb_spec (current l) 1000); [discriminate|lia].
Qed.

Lemma halved_between cfg c :
  0 <= c <= 1000 -> 0 <= step_up cfg (div_scale c scale_two) <= c.
Proof.
  intros Hc. rewrite div_scale_two by lia. unfold step_up.
  destruct (udsd_multiplier_cases cfg) as [-> | ->]; lia.
Qed.

Lemma hinted_between cfg c :
  1 <= c <= 1000 -> 0 <= step_up cfg (div_scale c scale_hint) <= c.
Proof.
  intros Hc. destruct (hint_division c Hc) as (Hr & _ & _). unfold step_up.
  destruct (udsd_multiplier_cases cfg) as [-> | ->]; lia.
Qed.

Lemma midpoint_step cfg lo hi :
  0 <= lo -> lo < hi -> hi <= 1000 -> hi - lo > 1 * udsd_multiplier cfg ->
  lo < step_up cfg (div_scale (hi + lo) scale_two) < hi.
Proof.
  intros H0 Hlt Hhi Hgap. unfold step_up.
  apply (midpoint_between (udsd_multiplier cfg) lo hi);
    [apply udsd_multiplier_cases|lia|lia|lia].
Qed.

Lemma search_inv_init cfg hint l :
  fixed_width_mode cfg = false ->
  init_result cfg hint = Ok l -> search_inv l /\ final l = -1.
Proof.
  intros Hmode Hinit. pose proof (init_flag cfg hint l Hinit) as Hflag.
  unfold init_result in Hinit.
  destruct (match directionality cfg with
            | UNI_DIRECTIONAL => _
            | BI_DIRECTIONAL => _
            end); [discriminate|].
  destruct (Z.gtb_spec (current (initial_guess cfg hint)) 0); [|discriminate].
  injection Hinit as <-.
  unfold initial_guess in *. rewrite Hmode in *.
  unfold search_inv, doubling.
  destruct (hint >? 0); cbn [current low high final attempt_count Fc_clipped] in *;
    repeat split; auto; try lia; left; repeat split; auto; lia.
Qed.

(** An iteration keeps the invariant and, when the loop goes on, uses
    up one of the iterations left. *)
Lemma search_inv_step cfg l s l' :
  fixed_width_mode cfg = false ->
  search_inv l -> final l = -1 ->
  iteration_result cfg l s = Ok (Continue, l') ->
  search_inv l' /\
  (final l' = -1 -> (iterations_left l' < iterations_left l)%nat).
Proof.
  intros Hmode (Hclip & Hfirst & Hcount & Hstage) Hfinal Hres.
  destruct (continue_cases cfg l s l' Hclip Hres)
    as (Hguard & HFs & Hclip' & Hhint' & Hcount' & Hfields).
  pose proof (unconstrained_guard cfg l Hmode Hguard) as Hle.
  pose proof (udsd_multiplier_cases cfg) as Hm.
  rewrite Hmode in Hfields.
  assert (Hgoal :
    final l' = -1 ->
    (doubling l' \/ halving l' \/ bisecting l') /\
    (iterations_left l' < iterations_left l)%nat).
  { intros Hfinal'. unfold iterations_left.
    destruct (Hstage Hfinal) as [(Hh & Hc & Hl)|[(Hh & Hl & Hc & Hb)|(Hh & Hl & Hl0 & Hc & Hb)]].
    - (* no upper bound yet *)
      destruct s.
      + destruct Hfields as (Hh' & Hl' & Hf' & Hc').
        rewrite Hfinal' in Hf'.
        destruct (Z.leb_spec (current l - low l) (1 * udsd_multiplier cfg));
          cbn [orb] in Hf'; [lia|].
        destruct (Z.eqb_spec (current l) (high l)); [lia|].
        destruct (Z.eqb_spec (low l) (-1)) as [Hlow|Hlow].
        * assert (Hcur : 0 <= current l' <= current l).
          { rewrite Hc'.
            destruct (using_minw_hint l && (attempt_count l =? 0));
              [apply hinted_between|apply halved_between]; lia. }
          split.
          -- right. left. unfold halving. lia.
          -- rewrite Hh', Hl', Hh, Hlow.
             destruct (Z.eqb_spec (current l) (-1)); [lia|].
             cbn [Z.eqb Pos.eqb]. lia.
        * destruct (Z.eqb_spec (attempt_count l) 0) as [Hz|Hz];
            [destruct (Hfirst Hz); lia|].
          rewrite andb_false_r in Hc'.
          assert (Hcur : low l < current l' < current l).
          { rewrite Hc'. apply midpoint_step; lia. }
          split.
          -- right. right. unfold bisecting. lia.
          -- rewrite Hh', Hl', Hh.
             destruct (Z.eqb_spec (current l) (-1)); [lia|].
             destruct (Z.eqb_spec (low l) (-1)); [lia|].
             cbn [Z.eqb Pos.eqb]. lia.
      + destruct Hfields as (Hl' & Hh' & Hf' & Hc').
        rewrite Hh in Hc'. cbn [Z.eqb Pos.eqb negb] in Hc'.
        rewrite doubled in Hc' by lia.
        assert (Hcur : current l' = 2 * current l).
        { rewrite Hc'. unfold step_up. destruct Hm as [-> | ->]; lia. }
        split.
        * left. unfold doubling. lia.
        * rewrite Hh', Hh. cbn [Z.eqb Pos.eqb]. lia.
    - (* an upper bound, no failed width *)
      destruct (Z.eqb_spec (attempt_count l) 0) as [Hz|Hz];
        [destruct (Hfirst Hz); lia|].
      rewrite andb_false_r in Hfields.
      destruct s.
      + destruct Hfields as (Hh' & Hl' & Hf' & Hc').
        rewrite Hfinal' in Hf'.
        destruct (Z.leb_spec (current l - low l) (1 * udsd_multiplier cfg));
          cbn [orb] in Hf'; [lia|].
        destruct (Z.eqb_spec (current l) (high l)); [lia|].
        rewrite Hl in Hc'. cbn [Z.eqb Pos.eqb] in Hc'.
        assert (Hcur : 0 <= current l' <= current l)
          by (rewrite Hc'; apply halved_between; lia).
        split.
        * right. left. unfold halving. lia.
        * rewrite Hh', Hl', Hl.
          destruct (Z.eqb_spec (current l) (-1)); [lia|].
          destruct (Z.eqb_spec (high l) (-1)); [lia|].
          cbn [Z.eqb Pos.eqb]. lia.
      + destruct Hfields as (Hl' & Hh' & Hf' & Hc').
        rewrite Hfinal' in Hf'.
        destruct (Z.eqb_spec (high l) (-1)); [lia|]. cbn [negb andb] in Hf', Hc'.
        destruct (Z.leb_spec (high l - current l) (1 * udsd_multiplier cfg)); [lia|].
        assert (Hcur : current l < current l' < high l)
          by (rewrite Hc'; apply midpoint_step; lia).
        split.
        * right. right. unfold bisecting. lia.
        * rewrite Hh', Hl', Hl.
          destruct (Z.eqb_spec (high l) (-1)); [lia|].
          destruct (Z.eqb_spec (current l) (-1)); [lia|].
          cbn [Z.eqb Pos.eqb]. lia.
    - (* both bounds *)
      destruct (Z.eqb_spec (attempt_count l) 0) as [Hz|Hz];
        [destruct (Hfirst Hz); lia|].
      rewrite andb_false_r in Hfields.
      destruct s.
      + destruct Hfields as (Hh' & Hl' & Hf' & Hc').
        rewrite Hfinal' in Hf'.
        destruct (Z.leb_spec (current l - low l) (1 * udsd_multiplier cfg));
          cbn [orb] in Hf'; [lia|].
        destruct (Z.eqb_spec (low l) (-1)); [lia|].
        assert (Hcur : low l < current l' < current l)
          by (rewrite Hc'; apply midpoint_step; lia).
        split.
        * right. right. unfold bisecting. lia.
        * rewrite Hh', Hl'.
          destruct (Z.eqb_spec (current l) (-1)); [lia|].
          destruct (Z.eqb_spec (high l) (-1)); [lia|].
          destruct (Z.eqb_spec (low l) (-1)); [lia|]. lia.
      + destruct Hfields as (Hl' & Hh' & Hf' & Hc').
        rewrite Hfinal' in Hf'.
        destruct (Z.eqb_spec (high l) (-1)); [lia|]. cbn [negb andb] in Hf', Hc'.
        destruct (Z.leb_spec (high l - current l) (1 * udsd_multiplier cfg)); [lia|].
        assert (Hcur : current l < current l' < high l)
          by (rewrite Hc'; apply midpoint_step; lia).
        split.
        * right. right. unfold bisecting. lia.
        * rewrite Hh', Hl'.
          destruct (Z.eqb_spec (high l) (-1)); [lia|].
          destruct (Z.eqb_spec (current l) (-1)); [lia|].
          destruct (Z.eqb_spec (low l) (-1)); [lia|]. lia. }
  split.
  - unfold search_inv. repeat split; try lia; try assumption.
    intros Hf. apply Hgoal. exact Hf.
  - intros Hf. apply Hgoal. exact Hf.
Qed.
End Termination.

(** ** The search, stage by stage *)

Section Stages.
Context {World : Type} {env : Environment World}.

(** [init_chan] logs nothing, and throws only on a profile of unknown
    kind. *)
Lemma init_chan_outcome cfg cfactor dist (g : globals World) r g' :
  init_chan cfg cfactor dist g = (r, g') ->
  log g' = log g /\
  match r with
  | Ok _ => True
  | Throw e =>
      exists chan, (chan = chan_x_dist dist \/ chan = chan_y_dist dist) /\
                   e = UnknownChannelType (type chan) /\
                   known_chan_type (type chan) = false
  | _ => False
  end.
Proof.
  intros Hrun.
  destruct (performs_init_chan (fun _ => False) cfg cfactor dist g r g' Hrun)
    as [(evs & Hlog & Hall) Hr].
  assert (evs = []) as -> by (destruct evs; [reflexivity|inversion Hall; contradiction]).
  rewrite app_nil_r in Hlog. auto.
Qed.

(** The verification always returns. *)
Lemma verify_loop_returns cfg l (g : globals World) :
  exists l' g',
    verify_loop cfg (Z.to_nat (final l - 2)) (set_current (final l - 2) l)
      true true g = (Ok l', g').
Proof.
  destruct (verify_loop cfg (Z.to_nat (final l - 2)) (set_current (final l - 2) l)
              true true g) as [r g'] eqn:Hrun.
  destruct (performs_verify_loop (fun _ => True) cfg (fun _ => True)) with
    (fuel := Z.to_nat (final l - 2)) (l := set_current (final l - 2) l)
    (prev := true) (prev2 := true) (g := g) (r := r) (g' := g')
    as [_ (l' & -> & _)]; auto.
  - intros. apply Forall_forall. auto.
  - cbn [current set_current]. lia.
  - eauto.
Qed.

(** A run of the search, cut at its stages: the initialisation, the
    loop, the verification, [init_chan], and the closing calls. *)
Lemma binary_search_run cfg (verify : bool) hint fuel (g : globals World) r g' :
  binary_search_place_and_route cfg verify hint fuel g = (r, g') ->
  match init_result cfg hint with
  | Ok l0 =>
      exists r1 g1,
        search_loop cfg fuel l0 (add_events g (init_events cfg hint)) = (r1, g1) /\
        match r1 with
        | Ok l1 =>
            exists l2 g2,
              (if verify
               then verify_loop cfg (Z.to_nat (final l1 - 2))
                      (set_current (final l1 - 2) l1) true true
                      (add_events g1 [Printed Verifying]) = (Ok l2, g2)
               else l2 = l1 /\ g2 = g1) /\
              exists r3 g3,
                init_chan cfg (final l2) (Chans cfg) g2 = (r3, g3) /\
                match r3 with
                | Ok _ =>
                    r = Ok (final l2) /\
                    log g' = log g2 ++ closing_events l2 (chan_width g3)
                | Throw e => r = Throw e /\ g' = g3
                | _ => False
                end
        | Throw e => r = Throw e /\ g' = g1
        | AssertFailed => r = AssertFailed /\ g' = g1
        | OutOfFuel => r = OutOfFuel /\ g' = g1
        end
  | Throw e => r = Throw e
  | AssertFailed => r = AssertFailed
  | OutOfFuel => r = OutOfFuel
  end.
Proof.
  intros Hrun. unfold binary_search_place_and_route in Hrun.
  unfold bind at 1 in Hrun. rewrite init_search_eq in Hrun.
  destruct (init_result cfg hint) as [l0|e| |]; try (injection Hrun as <- _; reflexivity).
  unfold bind at 1 in Hrun.
  destruct (search_loop cfg fuel l0 _) as [r1 g1] eqn:Hloop.
  exists r1, g1. split; [reflexivity|].
  destruct r1 as [l1|e| |]; try (injection Hrun as <- <-; auto).
  unfold bind at 1 in Hrun.
  assert (Hver : exists l2 g2,
    (if verify
     then bind (printf Verifying)
            (fun _ => verify_loop cfg (Z.to_nat (final l1 - 2))
                        (set_current (final l1 - 2) l1) true true)
     else ret l1) g1 = (Ok l2, g2) /\
    (if verify
     then verify_loop cfg (Z.to_nat (final l1 - 2))
            (set_current (final l1 - 2) l1) true true
            (add_events g1 [Printed Verifying]) = (Ok l2, g2)
     else l2 = l1 /\ g2 = g1)).
  { destruct verify.
    - destruct (verify_loop_returns cfg l1 (add_events g1 [Printed Verifying]))
        as (l2 & g2 & Hv).
      exists l2, g2. split; [|exact Hv].
      unfold bind, printf, emit. exact Hv.
    - exists l1, g1. auto. }
  destruct Hver as (l2 & g2 & Hv1 & Hv2).
  unfold bind in Hv1. unfold bind in Hrun. 
  rewrite Hv1 in Hrun.
  exists l2, g2. split; [exact Hv2|].
  destruct (init_chan cfg (final l2) (Chans cfg) g2) as [r3 g3] eqn:Hchan.
  exists r3, g3. split; [reflexivity|].
  destruct (init_chan_outcome _ _ _ _ _ _ Hchan) as [Hlog Hr3].
  destruct r3 as [[]|e| |]; try contradiction.
  - unfold get_chan_width, extern, when, printf, emit, ret, closing_events in *.
    destruct (Fc_clipped l2); injection Hrun as <- <-; cbn [log];
      rewrite Hlog, <- ?app_assoc; auto.
  - injection Hrun as <- <-. auto.
Qed.

(** With more fuel than iterations left, the loop of an unconstrained
    search does not run out of it. *)
Lemma search_loop_enough_fuel cfg fuel :
  fixed_width_mode cfg = false ->
  forall l (g : globals World),
    search_inv l ->
    (final l = -1 -> (iterations_left l < fuel)%nat) ->
    fst (search_loop cfg fuel l g) <> OutOfFuel.
Proof.
  intros Hmode. induction fuel as [|fuel IH]; intros l g Hinv Hleft;
    cbn [search_loop]; destruct (Z.eqb_spec (final l) (-1)) as [Hf|Hf];
    try discriminate.
  - specialize (Hleft Hf). lia.
  - unfold bind. destruct (search_iteration_eq cfg l g) as [w ->].
    destruct (iteration_result cfg l (trial_answer cfg l g)) as [[[] l']|e| |] eqn:Hres;
      try discriminate.
    + destruct (search_inv_step cfg l _ l' Hmode Hinv Hf Hres) as [Hinv' Hless].
      apply IH; [exact Hinv'|]. intros Hf'. specialize (Hless Hf'). specialize (Hleft Hf). lia.
    + pose proof (iteration_result_cases cfg l (trial_answer cfg l g)) as Hc.
      rewrite Hres in Hc. contradiction.
Qed.

Lemma initial_iterations_left cfg hint l :
  fixed_width_mode cfg = false ->
  init_result cfg hint = Ok l -> (iterations_left l < search_fuel)%nat.
Proof.
  intros Hmode Hinit.
  destruct (search_inv_init cfg hint l Hmode Hinit) as [(_ & _ & _ & Hstage) Hf].
  unfold iterations_left, search_fuel.
  destruct (Z.eqb_spec (high l) (-1)), (Z.eqb_spec (low l) (-1));
    destruct (Hstage Hf) as [Hs|[Hs|Hs]];
    unfold doubling, halving, bisecting in Hs; lia.
Qed.

Lemma binary_search_enough_fuel cfg verify hint fuel (g : globals World) :
  fixed_width_mode cfg = false -> (search_fuel <= fuel)%nat ->
  fst (binary_search_place_and_route cfg verify hint fuel g) <> OutOfFuel.
Proof.
  intros Hmode Hfuel.
  destruct (binary_search_place_and_route cfg verify hint fuel g) as [r g'] eqn:Hrun.
  pose proof (binary_search_run _ _ _ _ _ _ _ Hrun) as Hcut.
  destruct (init_result cfg hint) as [l0|e| |] eqn:Hinit; cbn [fst];
    try (subst r; discriminate).
  - destruct Hcut as (r1 & g1 & Hloop & Hrest).
    destruct (search_inv_init cfg hint l0 Hmode Hinit) as [Hinv Hf].
    pose proof (initial_iterations_left cfg hint l0 Hmode Hinit) as Hleft.
    pose proof (search_loop_enough_fuel cfg fuel Hmode l0
                  (add_events g (init_events cfg hint)) Hinv ltac:(lia)) as Hne.
    rewrite Hloop in Hne. cbn [fst] in Hne.
    destruct r1 as [l1|e| |]; try (destruct Hrest as [-> _]; discriminate);
      [|contradiction].
    destruct Hrest as (l2 & g2 & _ & r3 & g3 & _ & Hr3).
    destruct r3 as [[]|e| |]; try contradiction; destruct Hr3 as [-> _]; discriminate.
  - unfold init_result in Hinit.
    destruct (match directionality cfg with
              | UNI_DIRECTIONAL => _
              | BI_DIRECTIONAL => _
              end); [discriminate|].
    destruct (_ >? 0); discriminate.
Qed.
End Stages.

(** ** Following the log through the loops *)

Section Tracking.
Context {World : Type} {env : Environment World}.

(** The events of an iteration that leaves by [break]. *)
Lemma break_events cfg l s :
  width_guard cfg l = None -> current l * 3 < Fs cfg ->
  iteration_events cfg l s
  = [Printed (Attempting (current l) (low l) (high l)); Printed BelowFs].
Proof.
  intros Hguard HFs. unfold iteration_events. rewrite Hguard.
  destruct (Z.ltb_spec (current l * 3) (Fs cfg)); [reflexivity|lia].
Qed.

(** The events of an iteration that makes its trial, when [Fc_clipped]
    is false. *)
Lemma trial_events cfg l s :
  Fc_clipped l = false ->
  width_guard cfg l = None -> Fs cfg <= current l * 3 ->
  iteration_events cfg l s
  = Printed (Attempting (current l) (low l) (high l)) ::
    (if place_always cfg then [Called (TryPlace (current l))] else []) ++
    Routed_at (current l) s :: (if s then [Called SaveRouting] else []).
Proof.
  intros Hclip Hguard HFs. unfold iteration_events. rewrite Hguard, Hclip.
  destruct (Z.ltb_spec (current l * 3) (Fs cfg)); [lia|].
  destruct s; reflexivity.
Qed.

(** A relation [Phi] between the locals and the events logged so far
    that every iteration keeps holds when the loop ends on a known
    [final]; when it ends by [break], what the [break] establishes
    holds. *)
Lemma search_loop_tracks cfg (Phi Q : locals -> list event -> Prop) :
  (forall l evs (g0 : globals World) l',
     Phi l evs -> final l = -1 ->
     iteration_result cfg l (trial_answer cfg l g0) = Ok (Continue, l') ->
     Phi l' (evs ++ iteration_events cfg l (trial_answer cfg l g0))) ->
  (forall l evs,
     Phi l evs -> final l = -1 ->
     width_guard cfg l = None -> current l * 3 < Fs cfg ->
     Q (set_final (high l) l)
       (evs ++ [Printed (Attempting (current l) (low l) (high l)); Printed BelowFs])) ->
  forall fuel l (g : globals World) l' g' base evs,
    log g = base ++ evs -> Phi l evs ->
    search_loop cfg fuel l g = (Ok l', g') ->
    exists evs', log g' = base ++ evs' /\
                 ((Phi l' evs' /\ final l' <> -1) \/ Q l' evs').
Proof.
  intros Hstep Hbreak.
  induction fuel as [|fuel IH]; intros l g l' g' base evs Hlog Hphi;
    cbn [search_loop]; destruct (Z.eqb_spec (final l) (-1)) as [Hf|Hf];
    try discriminate; try (intros [= <- <-]; eauto).
  unfold bind. destruct (search_iteration_eq cfg l g) as [w ->].
  destruct (iteration_result cfg l (trial_answer cfg l g)) as [[c l1]|e| |] eqn:Hres;
    try discriminate.
  destruct c.
  - intros Hrun.
    eapply (IH l1 _ l' g' base) in Hrun; [exact Hrun| |eapply Hstep; eassumption].
    cbn [log]. rewrite Hlog, app_assoc. reflexivity.
  - intros [= <- <-].
    pose proof (iteration_result_cases cfg l (trial_answer cfg l g)) as Hc.
    rewrite Hres in Hc. destruct Hc as (Hguard & HFs & ->).
    eexists. split.
    + cbn [log]. rewrite Hlog, app_assoc. reflexivity.
    + right. rewrite break_events by assumption. apply Hbreak; assumption.
Qed.

(** The same for the verification. *)
Lemma verify_loop_tracks cfg (Psi : locals -> list event -> Prop) :
  (forall l evs (g0 : globals World),
     Psi l evs -> 1 <= current l ->
     (fixed_width_mode cfg = true -> fixed_channel_width cfg <= current l) ->
     Psi (verified_locals cfg l (trial_answer cfg l g0))
         (evs ++ verify_events cfg l (trial_answer cfg l g0))) ->
  forall fuel l prev prev2 (g : globals World) l' g' base evs,
    log g = base ++ evs -> Psi l evs ->
    verify_loop cfg fuel l prev prev2 g = (Ok l', g') ->
    exists evs', log g' = base ++ evs' /\ Psi l' evs'.
Proof.
  intros Hstep.
  induction fuel as [|fuel IH]; intros l prev prev2 g l' g' base evs Hlog Hpsi;
    cbn [verify_loop]; (destruct (prev2 || prev); [|intros [= <- <-]; eauto]);
    (destruct (fixed_width_mode cfg && (current l <? fixed_channel_width cfg)) eqn:Hfix;
     [intros [= <- <-]; eauto|]);
    (destruct (Z.ltb_spec (current l) 1); [intros [= <- <-]; eauto|]);
    try discriminate.
  unfold bind. destruct (verify_iteration_eq cfg l g) as [w ->]. cbn [fst snd].
  intros Hrun.
  eapply (IH _ _ _ _ l' g' base) in Hrun; [exact Hrun| |].
  - cbn [log]. rewrite Hlog, app_assoc. reflexivity.
  - apply Hstep; [exact Hpsi|lia|].
    intros Hmode. rewrite Hmode in Hfix. cbn [andb] in Hfix.
    destruct (Z.ltb_spec (current l) (fixed_channel_width cfg)); [discriminate|lia].
Qed.

(** The whole search: a relation kept by the iterations of the loop,
    and one kept by those of the verification, hold of the run that
    returns; its log ends with the closing calls. *)
Lemma binary_search_tracks cfg (verify : bool) hint fuel
    (Phi Q Psi : locals -> list event -> Prop) (g : globals World) w g' :
  (forall l0, init_result cfg hint = Ok l0 -> Phi l0 (init_events cfg hint)) ->
  (forall l evs (g0 : globals World) l',
     Phi l evs -> final l = -1 ->
     iteration_result cfg l (trial_answer cfg l g0) = Ok (Continue, l') ->
     Phi l' (evs ++ iteration_events cfg l (trial_answer cfg l g0))) ->
  (forall l evs,
     Phi l evs -> final l = -1 ->
     width_guard cfg l = None -> current l * 3 < Fs cfg ->
     Q (set_final (high l) l)
       (evs ++ [Printed (Attempting (current l) (low l) (high l)); Printed BelowFs])) ->
  (forall l evs, (Phi l evs /\ final l <> -1) \/ Q l evs ->
     Psi (set_current (final l - 2) l) (evs ++ [Printed Verifying])) ->
  (forall l evs (g0 : globals World),
     Psi l evs -> 1 <= current l ->
     (fixed_width_mode cfg = true -> fixed_channel_width cfg <= current l) ->
     Psi (verified_locals cfg l (trial_answer cfg l g0))
         (evs ++ verify_events cfg l (trial_answer cfg l g0))) ->
  binary_search_place_and_route cfg verify hint fuel g = (Ok w, g') ->
  exists l evs cw,
    (if verify then Psi l evs
     else (Phi l evs /\ final l <> -1) \/ Q l evs) /\
    w = final l /\
    log g' = log g ++ evs ++ closing_events l cw.
Proof.
  intros Hinit Hstep Hbreak Hstart Hvstep Hrun.
  pose proof (binary_search_run _ _ _ _ _ _ _ Hrun) as Hcut.
  destruct (init_result cfg hint) as [l0|e| |] eqn:Hl0; try discriminate.
  destruct Hcut as (r1 & g1 & Hloop & Hrest).
  destruct r1 as [l1|e| |]; try (destruct Hrest; discriminate).
  destruct Hrest as (l2 & g2 & Hver & r3 & g3 & Hchan & Hr3).
  destruct r3 as [[]|e| |]; try contradiction; [|destruct Hr3; discriminate].
  destruct Hr3 as [[= ->] Hlog].
  assert (Hbase0 : log (add_events g (init_events cfg hint))
                   = log g ++ init_events cfg hint) by reflexivity.
  destruct (search_loop_tracks cfg Phi Q Hstep Hbreak fuel l0 _ l1 g1 (log g)
              (init_events cfg hint) Hbase0 (Hinit l0 eq_refl) Hloop)
    as (evs1 & Hlog1 & Hexit).
  destruct verify.
  - assert (Hbase : log (add_events g1 [Printed Verifying])
                    = log g ++ (evs1 ++ [Printed Verifying])).
    { cbn [log add_events]. rewrite Hlog1, app_assoc. reflexivity. }
    destruct (verify_loop_tracks cfg Psi Hvstep _ _ _ _ _ l2 g2 (log g) _
                Hbase (Hstart l1 evs1 Hexit) Hver)
      as (evs2 & Hlog2 & Hpsi2).
    exists l2, evs2, (chan_width g3). repeat split; [exact Hpsi2|].
    rewrite Hlog, Hlog2, app_assoc. reflexivity.
  - destruct Hver as [-> ->].
    exists l1, evs1, (chan_width g3). repeat split; [exact Hexit|].
    rewrite Hlog, Hlog1, app_assoc. reflexivity.
Qed.
End Tracking.

(** ** [place_and_route] ends *)

Section Ends.
Context {World : Type} {env : Environment World}.

(** The placement stage returns: its assertion is on the branch where
    the policy is not [PLACE_NEVER]. *)
Lemma placement_returns cfg (g : globals World) :
  exists g', placement cfg g = (Ok tt, g') /\
    exists evs, log g' = log g ++ evs /\ Forall no_trial evs.
Proof.
  unfold placement, bind, extern, VTR_ASSERT.
  destruct (doPlacement cfg), (place_freq cfg); cbn [negb orb log];
    eexists; (split; [reflexivity|]); cbn [log]; rewrite <- ?app_assoc;
    eexists; (split; [reflexivity|]); repeat constructor.
Qed.

(** X1. Whatever the router answers, the loop of an unconstrained
    search ends within [search_fuel] iterations: with that much fuel
    neither the search nor [place_and_route] runs out of it. *)
Theorem search_always_ends cfg fuel (g : globals World) :
  (search_fuel <= fuel)%nat ->
  fst (place_and_route cfg fuel g) <> OutOfFuel /\
  (forall verify hint,
     fixed_width_mode cfg = false ->
     fst (binary_search_place_and_route cfg verify hint fuel g) <> OutOfFuel).
Proof.
  intros Hfuel. split.
  - unfold place_and_route. unfold bind at 1.
    destruct (placement_returns cfg g) as (g0 & -> & _).
    destruct (doRouting cfg); cbn [negb].
    + destruct (Z.eqb_spec NO_FIXED_CHANNEL_WIDTH (fixed_channel_width cfg)) as [Heq|Hne].
      * unfold bind.
        pose proof (binary_search_enough_fuel cfg (verify_binary_search cfg)
                      (min_channel_width_hint cfg) fuel g0) as Hne.
        destruct (binary_search_place_and_route cfg _ _ fuel g0) as [r g1].
        cbn [fst] in *.
        destruct r; cbn [fst]; try discriminate.
        exfalso. apply Hne; [|exact Hfuel|reflexivity].
        unfold fixed_width_mode. rewrite <- Heq, Z.eqb_refl. reflexivity.
      * unfold bind, allocate_net_delay, route, vpr_throw, ret, printf, emit, extern,
          VTR_ASSERT.
        destruct (directionality cfg);
          [destruct (negb (Z.rem (fixed_channel_width cfg) 2 =? 0)); [discriminate|]|];
          destruct (alloc_net_delay _) as [[] w0];
          destruct (try_route _ _) as [[] w]; discriminate.
    + unfold bind, when, extern, ret.
      destruct (negb _); discriminate.
  - intros verify hint Hmode. apply binary_search_enough_fuel; assumption.
Qed.
End Ends.

(** ** The routing that is restored *)

Section Saved.
Context {World : Type} {env : Environment World}.

Lemma closing_events_saved l cw st :
  fold_left note_event (closing_events l cw) st = st.
Proof. unfold closing_events. destruct (Fc_clipped l); reflexivity. Qed.

Lemma placing_saved (b : bool) c st :
  fold_left note_event (if b then [Called (TryPlace c)] else []) st = st.
Proof. destruct b; reflexivity. Qed.

Lemma initial_bounds cfg hint l :
  init_result cfg hint = Ok l ->
  Fc_clipped l = false /\ high l = -1 /\ final l = -1.
Proof.
  intros Hinit. split; [eapply init_flag; eassumption|].
  unfold init_result in Hinit.
  destruct (match directionality cfg with
            | UNI_DIRECTIONAL => _
            | BI_DIRECTIONAL => _
            end); [discriminate|].
  destruct (_ >? 0); [|discriminate]. injection Hinit as <-.
  unfold initial_guess.
  destruct (fixed_width_mode cfg); [|destruct (hint >? 0)]; cbn; auto.
Qed.

(** X3. When the search returns a width other than [-1], the routing
    saved last, which [restore_routing] brings back, is the one of a
    successful trial at the width returned. *)
Theorem returned_width_is_saved cfg verify hint fuel (g : globals World) w g' :
  binary_search_place_and_route cfg verify hint fuel g = (Ok w, g') ->
  w <> -1 ->
  saved_routing (log g') = Some (w, true).
Proof.
  intros Hrun Hw.
  set (Phi := fun l evs =>
                Fc_clipped l = false /\
                (final l = -1 \/ final l = high l) /\
                (high l <> -1 -> forall st,
                   snd (fold_left note_event evs st) = Some (high l, true))).
  destruct (binary_search_tracks cfg verify hint fuel Phi Phi
              (fun l evs => Fc_clipped l = false /\
                            (final l <> -1 -> forall st,
                               snd (fold_left note_event evs st) = Some (final l, true)))
              g w g') as (l & evs & cw & Hl & -> & Hlog); [..|exact Hrun|].
  - intros l0 Hinit. destruct (initial_bounds cfg hint l0 Hinit) as (Hclip & Hh & Hf).
    repeat split; auto. intros; congruence.
  - intros l evs g0 l' (Hclip & Hfin & Hsaved) Hf Hres.
    destruct (continue_cases cfg l _ l' Hclip Hres)
      as (Hguard & HFs & Hclip' & _ & _ & Hfields).
    split; [exact Hclip'|].
    rewrite trial_events by assumption.
    destruct (trial_answer cfg l g0).
    + destruct Hfields as (Hh' & _ & Hf' & _). rewrite Hh', Hf', Hf.
      split; [destruct (_ || _); auto|].
      intros _ st. rewrite fold_left_app. cbn [fold_left note_event].
      rewrite fold_left_app, placing_saved. reflexivity.
    + destruct Hfields as (_ & Hh' & Hf' & _). rewrite Hh', Hf', Hf.
      split; [destruct (_ && _); auto|].
      intros Hh st. rewrite fold_left_app. cbn [fold_left note_event].
      rewrite fold_left_app, placing_saved. cbn [fold_left note_event snd].
      apply Hsaved. exact Hh.
  - intros l evs (Hclip & Hfin & Hsaved) Hf Hguard HFs.
    split; [exact Hclip|]. cbn [high final set_final]. split; [auto|].
    intros Hh st. rewrite fold_left_app. cbn [fold_left note_event].
    apply Hsaved. exact Hh.
  - intros l evs Hexit. cbn [Fc_clipped final set_current].
    assert (HPhi : Phi l evs) by (destruct Hexit as [[H _]|H]; exact H).
    destruct HPhi as (Hclip & Hfin & Hsaved).
    split; [exact Hclip|].
    intros Hf st. rewrite fold_left_app. cbn [fold_left note_event].
    destruct Hfin as [Hfin|Hfin]; [contradiction|].
    rewrite Hfin. apply Hsaved. congruence.
  - intros l evs g0 (Hclip & Hsaved) Hone _.
    rewrite verified_keeps_flag. split; [exact Hclip|].
    unfold verified_locals, verify_events. rewrite Hclip. cbn [Bool.eqb].
    rewrite andb_true_r.
    destruct (trial_answer cfg l g0).
    + intros _ st. rewrite !fold_left_app, placing_saved.
      destruct (directionality cfg), (place_always cfg); reflexivity.
    + intros Hf st. rewrite !fold_left_app, placing_saved.
      cbn [fold_left note_event snd].
      destruct (directionality cfg); cbn [final set_current] in *;
        apply Hsaved; exact Hf.
  - unfold saved_routing. rewrite Hlog, !fold_left_app, closing_events_saved.
    destruct verify.
    + destruct Hl as [_ Hsaved]. apply Hsaved. exact Hw.
    + assert (HPhi : Phi l evs) by (destruct Hl as [[H _]|H]; exact H).
      destruct HPhi as (_ & [Hfin|Hfin] & Hsaved); [contradiction|].
      rewrite Hfin. apply Hsaved. congruence.
Qed.
End Saved.
(** ** The widths tried *)

Section Bounds.
Context {World : Type} {env : Environment World}.

Lemma guard_bound cfg l : width_guard cfg l = None -> current l <= width_bound cfg.
Proof.
  unfold width_guard, width_bound.
  destruct (fixed_width_mode cfg);
    [destruct (Z.gtb_spec (current l) (fixed_channel_width cfg * 4))
    |destruct (Z.gtb_spec (current l) 1000)]; (discriminate || lia).
Qed.

Lemma init_events_in_loop cfg hint : Forall (loop_trial cfg) (init_events cfg hint).
Proof.
  unfold init_events.
  destruct (fixed_width_mode cfg); [|destruct (hint >? 0)]; repeat constructor.
Qed.

Lemma closing_in_loop cfg l cw : Forall (loop_trial cfg) (closing_events l cw).
Proof. unfold closing_events. destruct (Fc_clipped l); repeat constructor. Qed.

Lemma closing_in_verification cfg l cw :
  Forall (verify_trial cfg) (closing_events l cw).
Proof. unfold closing_events. destruct (Fc_clipped l); repeat constructor. Qed.

(** The trials of the loop: within the bound of the guard and not
    below the floor of Fs.  The loop ends with [final] unknown or
    within that bound. *)
Lemma search_loop_trials_bounded cfg hint fuel l0 (g : globals World) r1 g1 :
  init_result cfg hint = Ok l0 ->
  search_loop cfg fuel l0 g = (r1, g1) ->
  exists evs,
    log g1 = log g ++ evs /\ Forall (loop_trial cfg) evs /\
    match r1 with
    | Ok l1 => final l1 = -1 \/ final l1 <= width_bound cfg
    | _ => True
    end.
Proof.
  intros Hinit Hloop.
  set (Inv := fun l => Fc_clipped l = false /\
                       (high l = -1 \/ high l <= width_bound cfg) /\
                       (final l = -1 \/ final l = high l)).
  destruct (performs_search_loop (loop_trial cfg) cfg Inv) with
    (fuel := fuel) (l := l0) (g := g) (r := r1) (g' := g1)
    as [(evs & Hlog & Hall) Hr]; try assumption.
  - intros l g0 l' (Hclip & Hhigh & Hfin) Hf Hres.
    destruct (continue_cases cfg l _ l' Hclip Hres)
      as (Hguard & _ & Hclip' & _ & _ & Hfields).
    apply guard_bound in Hguard.
    split; [exact Hclip'|].
    destruct (trial_answer cfg l g0).
    + destruct Hfields as (-> & _ & -> & _). split; [auto|].
      destruct (_ || _); auto.
    + destruct Hfields as (_ & -> & -> & _). split; [auto|].
      destruct (_ && _); auto.
  - intros l s (Hclip & Hhigh & Hfin) Hf. unfold iteration_events.
    constructor; [exact I|].
    destruct (width_guard cfg l) eqn:Hguard; [constructor|].
    apply guard_bound in Hguard.
    destruct (Z.ltb_spec (current l * 3) (Fs cfg)); [repeat constructor|].
    apply Forall_app. split; [destruct (place_always cfg); repeat constructor|].
    constructor; [cbn; lia|].
    rewrite Hclip. cbn [negb]. rewrite andb_true_r, andb_false_r.
    destruct s; repeat constructor.
  - split; [eapply init_flag; eassumption|].
    destruct (initial_bounds cfg hint l0 Hinit) as (_ & Hh & Hf). auto.
  - exists evs. split; [exact Hlog|]. split; [exact Hall|].
    destruct r1 as [l1|e| |]; try exact I.
    assert (Hl : (high l1 = -1 \/ high l1 <= width_bound cfg) /\
                 (final l1 = -1 \/ final l1 = high l1)).
    { destruct Hr as [[(_ & Hh & Hf) _]|(l & g0 & (Hclip & Hhigh & Hfin) & Hf & Hres)];
        [auto|].
      pose proof (iteration_result_cases cfg l (trial_answer cfg l g0)) as Hc.
      rewrite Hres in Hc. destruct Hc as (_ & _ & ->).
      cbn [high final set_final]. auto. }
    destruct Hl as [[Hh|Hh] [Hf|Hf]]; auto; try (left; congruence); right; lia.
Qed.

(** The trials of the verification: at least 1, within the bound of
    the guard, and not below a fixed width. *)
Lemma verify_loop_trials_bounded cfg l (g : globals World) l2 g2 :
  final l = -1 \/ final l <= width_bound cfg ->
  verify_loop cfg (Z.to_nat (final l - 2)) (set_current (final l - 2) l) true true g
  = (Ok l2, g2) ->
  exists evs, log g2 = log g ++ evs /\ Forall (verify_trial cfg) evs.
Proof.
  intros Hfin Hrun.
  destruct (performs_verify_loop (verify_trial cfg) cfg
              (fun l0 => current l0 < 1 \/ current l0 <= width_bound cfg)) with
    (fuel := Z.to_nat (final l - 2)) (l := set_current (final l - 2) l)
    (prev := true) (prev2 := true) (g := g) (r := Ok l2) (g' := g2)
    as [Hev _]; try assumption.
  - intros l0 s Hcur Hone. unfold verified_locals.
    destruct (directionality cfg), (s && _); cbn [current set_current set_final]; lia.
  - intros l0 s Hcur Hone Hfixed. unfold verify_events.
    apply Forall_app. split; [destruct (place_always cfg); repeat constructor|].
    constructor; [cbn; split; [lia|exact Hfixed]|].
    destruct (s && _); [destruct (place_always cfg)|]; repeat constructor.
  - cbn [current set_current]. lia.
  - cbn [current set_current]. lia.
Qed.

(** X2. Whatever the router answers, and however the search ends, its
    log splits in two at the message that opens the verification.
    Every width passed to [try_route] before it, in the loop of the
    search, is at most 1000 (four times the fixed width in a search
    around one) and not below the floor of Fs: [Fs <= 3 * width].
    Every width passed after it, in the verification, is at least 1,
    within the same bound, and not below the fixed width.  Without
    the verification the second part is empty. *)
Theorem trials_within_bounds cfg verify hint fuel (g : globals World) :
  exists evs1 evs2,
    log (snd (binary_search_place_and_route cfg verify hint fuel g))
    = log g ++ evs1 ++ evs2 /\
    Forall (loop_trial cfg) evs1 /\
    Forall (verify_trial cfg) evs2 /\
    (evs2 = [] \/ verify = true /\ exists rest, evs2 = Printed Verifying :: rest).
Proof.
  destruct (binary_search_place_and_route cfg verify hint fuel g) as [r g'] eqn:Hrun.
  cbn [snd].
  pose proof (init_events_in_loop cfg hint) as Hinit_ev.
  destruct (init_result cfg hint) as [l0|e| |] eqn:Hinit;
    try (unfold binary_search_place_and_route in Hrun; unfold bind at 1 in Hrun;
         rewrite init_search_eq, Hinit in Hrun; injection Hrun as _ <-;
         exists (init_events cfg hint), []; rewrite app_nil_r;
         repeat split; auto; fail).
  pose proof (binary_search_run _ _ _ _ _ _ _ Hrun) as Hcut.
  rewrite Hinit in Hcut. destruct Hcut as (r1 & g1 & Hloop & Hrest).
  destruct (search_loop_trials_bounded cfg hint fuel l0 _ r1 g1 Hinit Hloop)
    as (evsA & HlogA & HallA & Hr1).
  cbn [log add_events] in HlogA. rewrite <- app_assoc in HlogA.
  assert (Hfirst : Forall (loop_trial cfg) (init_events cfg hint ++ evsA))
    by (apply Forall_app; auto).
  destruct r1 as [l1|e| |];
    try (destruct Hrest as [_ ->];
         exists (init_events cfg hint ++ evsA), []; rewrite app_nil_r;
         repeat split; auto; fail).
  destruct Hrest as (l2 & g2 & Hver & r3 & g3 & Hchan & Hr3).
  destruct (init_chan_outcome _ _ _ _ _ _ Hchan) as [Hlog3 _].
  destruct verify.
  - destruct (verify_loop_trials_bounded cfg l1 _ l2 g2 Hr1 Hver)
      as (evsV & HlogV & HallV).
    cbn [log add_events] in HlogV. rewrite HlogA in HlogV.
    destruct r3 as [[]|e| |]; try contradiction.
    + destruct Hr3 as [_ Hlog].
      exists (init_events cfg hint ++ evsA),
             (Printed Verifying :: evsV ++ closing_events l2 (chan_width g3)).
      split; [rewrite Hlog, HlogV; cbn [app]; rewrite <- ?app_assoc; reflexivity|].
      split; [exact Hfirst|]. split; [|right; eauto].
      constructor; [exact I|]. apply Forall_app.
      split; [exact HallV|apply closing_in_verification].
    + destruct Hr3 as [_ ->].
      exists (init_events cfg hint ++ evsA), (Printed Verifying :: evsV).
      split; [rewrite Hlog3, HlogV; cbn [app]; rewrite <- ?app_assoc; reflexivity|].
      split; [exact Hfirst|]. split; [|right; eauto].
      constructor; [exact I|exact HallV].
  - destruct Hver as [-> ->].
    destruct r3 as [[]|e| |]; try contradiction.
    + destruct Hr3 as [_ Hlog].
      exists ((init_events cfg hint ++ evsA) ++ closing_events l1 (chan_width g3)), [].
      rewrite app_nil_r.
      split; [rewrite Hlog, HlogA; rewrite <- ?app_assoc; reflexivity|].
      split; [apply Forall_app; split; [exact Hfirst|apply closing_in_loop]|].
      split; [constructor|left; reflexivity].
    + destruct Hr3 as [_ ->].
      exists (init_events cfg hint ++ evsA), []. rewrite app_nil_r.
      split; [rewrite Hlog3, HlogA; rewrite <- ?app_assoc; reflexivity|].
      repeat split; auto.
Qed.
End Bounds.

(** ** The verdict *)

Section Verdict.
Context {World : Type} {env : Environment World}.

Lemma placing_no_success (b : bool) c :
  Forall no_success (if b then [Called (TryPlace c)] else []).
Proof. destruct b; repeat constructor. Qed.

Lemma closing_no_success l cw : Forall no_success (closing_events l cw).
Proof. unfold closing_events. destruct (Fc_clipped l); repeat constructor. Qed.

(** With a floor of Fs of at least 1 every trial of the loop is at a
    width of at least 1, so that [-1] is returned exactly when no trial
    succeeded. *)
Lemma search_verdict cfg verify hint fuel (g : globals World) w g' :
  1 <= Fs cfg ->
  binary_search_place_and_route cfg verify hint fuel g = (Ok w, g') ->
  exists evs,
    log g' = log g ++ evs /\
    ((w = -1 /\ Forall no_success evs) \/
     (1 <= w /\ In (Routed_at w true) evs)).
Proof.
  intros HFs1 Hrun.
  set (Phi := fun l evs =>
                Fc_clipped l = false /\
                (final l = -1 \/ final l = high l) /\
                (high l = -1 -> Forall no_success evs) /\
                (high l <> -1 ->
                 1 <= high l /\ In (Routed_at (high l) true) evs)).
  destruct (binary_search_tracks cfg verify hint fuel Phi
              (fun l evs => Phi l evs /\ final l = high l)
              (fun l evs => Fc_clipped l = false /\
                            (final l = -1 -> Forall no_success evs) /\
                            (final l <> -1 ->
                             1 <= final l /\ In (Routed_at (final l) true) evs))
              g w g') as (l & evs & cw & Hl & -> & Hlog); [..|exact Hrun|].
  - intros l0 Hinit. destruct (initial_bounds cfg hint l0 Hinit) as (Hclip & Hh & Hf).
    assert (Hev : Forall no_success (init_events cfg hint)).
    { unfold init_events.
      destruct (fixed_width_mode cfg); [|destruct (hint >? 0)]; repeat constructor. }
    repeat split; auto; intros; congruence.
  - intros l evs g0 l' (Hclip & Hfin & Hnone & Hsome) Hf Hres.
    destruct (continue_cases cfg l _ l' Hclip Hres)
      as (Hguard & HFs & Hclip' & _ & _ & Hfields).
    split; [exact Hclip'|].
    rewrite trial_events by assumption.
    destruct (trial_answer cfg l g0).
    + destruct Hfields as (Hh' & _ & Hf' & _). rewrite Hh', Hf', Hf.
      split; [destruct (_ || _); auto|].
      split; [lia|]. intros _. split; [lia|].
      apply in_or_app. right. right. apply in_or_app. right. left. reflexivity.
    + destruct Hfields as (_ & Hh' & Hf' & _). rewrite Hh', Hf', Hf.
      split; [destruct (_ && _); auto|].
      split.
      * intros Hh. apply Forall_app. split; [auto|].
        constructor; [exact I|]. apply Forall_app.
        split; [apply placing_no_success|repeat constructor].
      * intros Hh. destruct (Hsome Hh) as [H1 Hin].
        split; [exact H1|]. apply in_or_app. left. exact Hin.
  - intros l evs (Hclip & Hfin & Hnone & Hsome) Hf Hguard HFs.
    split; [|reflexivity].
    split; [exact Hclip|]. cbn [high final set_final]. split; [auto|].
    split.
    + intros Hh. apply Forall_app. split; [auto|repeat constructor].
    + intros Hh. destruct (Hsome Hh) as [H1 Hin].
      split; [exact H1|]. apply in_or_app. left. exact Hin.
  - intros l evs Hexit.
    assert (HPhi : Phi l evs /\ (final l <> -1 \/ final l = high l)).
    { destruct Hexit as [[H H']|[H H']]; auto. }
    destruct HPhi as [(Hclip & Hfin & Hnone & Hsome) Hend].
    cbn [Fc_clipped final set_current].
    split; [exact Hclip|]. split.
    + intros Hf. apply Forall_app. split; [|repeat constructor].
      apply Hnone. destruct Hend; congruence.
    + intros Hf. destruct Hfin as [Hfin|Hfin]; [contradiction|].
      rewrite Hfin in *. destruct (Hsome Hf) as [H1 Hin].
      split; [exact H1|]. apply in_or_app. left. exact Hin.
  - intros l evs g0 (Hclip & Hnone & Hsome) Hone _.
    rewrite verified_keeps_flag. split; [exact Hclip|].
    unfold verified_locals, verify_events. rewrite Hclip. cbn [Bool.eqb].
    rewrite andb_true_r.
    destruct (trial_answer cfg l g0).
    + assert (Hfin : final (match directionality cfg with
                            | UNI_DIRECTIONAL =>
                                set_current (current (set_current (current (set_final (current l) l) - 1) (set_final (current l) l)) - 1)
                                  (set_current (current (set_final (current l) l) - 1) (set_final (current l) l))
                            | BI_DIRECTIONAL =>
                                set_current (current (set_final (current l) l) - 1) (set_final (current l) l)
                            end) = current l)
        by (destruct (directionality cfg); reflexivity).
      rewrite Hfin. split; [lia|]. intros _. split; [exact Hone|].
      apply in_or_app. right. apply in_or_app. right. left. reflexivity.
    + assert (Hfin : final (match directionality cfg with
                            | UNI_DIRECTIONAL =>
                                set_current (current (set_current (current l - 1) l) - 1)
                                  (set_current (current l - 1) l)
                            | BI_DIRECTIONAL => set_current (current l - 1) l
                            end) = final l)
        by (destruct (directionality cfg); reflexivity).
      rewrite Hfin. split.
      * intros Hf. apply Forall_app. split; [auto|]. apply Forall_app.
        split; [apply placing_no_success|repeat constructor].
      * intros Hf. destruct (Hsome Hf) as [H1 Hin].
        split; [exact H1|]. apply in_or_app. left. exact Hin.
  - exists (evs ++ closing_events l cw). split; [exact Hlog|].
    assert (Hcases : (final l = -1 -> Forall no_success evs) /\
                     (final l <> -1 -> 1 <= final l /\ In (Routed_at (final l) true) evs)).
    { destruct verify; [destruct Hl as (_ & H1 & H2); auto|].
      assert (HPhi : Phi l evs /\ (final l <> -1 \/ final l = high l)).
      { destruct Hl as [[H H']|[H H']]; auto. }
      destruct HPhi as [(_ & Hfin & Hnone & Hsome) Hexit]. split.
      - intros Hf. apply Hnone. destruct Hexit; congruence.
      - intros Hf. destruct Hfin as [Hfin|Hfin]; [contradiction|].
        rewrite Hfin in *. auto. }
    destruct Hcases as [Hnone Hsome].
    destruct (Z.eq_dec (final l) (-1)) as [Hf|Hf].
    + left. split; [exact Hf|]. apply Forall_app. split; [auto|apply closing_no_success].
    + right. destruct (Hsome Hf) as [H1 Hin]. split; [exact H1|].
      apply in_or_app. left. exact Hin.
Qed.
End Verdict.

Section Verdict2.
Context {World : Type} {env : Environment World}.

Lemma no_trial_no_success evs : Forall no_trial evs -> Forall no_success evs.
Proof.
  apply List.Forall_impl. intros [m|c|width_fac success]; cbn; [auto|auto|contradiction].
Qed.

(** X4. With routing enabled, and a floor of Fs of at least 1 when the
    width is searched for, [place_and_route] returns [true] only if a
    call of the router succeeded, and [false] only if none did. *)
Theorem success_means_routed cfg fuel (g : globals World) b g' :
  doRouting cfg = true ->
  (fixed_channel_width cfg = NO_FIXED_CHANNEL_WIDTH -> 1 <= Fs cfg) ->
  place_and_route cfg fuel g = (Ok b, g') ->
  exists evs,
    log g' = log g ++ evs /\
    if b then exists width_fac, In (Routed_at width_fac true) evs
    else Forall no_success evs.
Proof.
  intros Hroute HFs. unfold place_and_route. unfold bind at 1.
  destruct (placement_returns cfg g) as (g0 & -> & evs0 & Hlog0 & Hev0).
  apply no_trial_no_success in Hev0.
  rewrite Hroute. cbn [negb].
  destruct (Z.eqb_spec NO_FIXED_CHANNEL_WIDTH (fixed_channel_width cfg)) as [Heq|Hne].
  - unfold bind, ret.
    destruct (binary_search_place_and_route cfg _ _ fuel g0) as [r g1] eqn:Hrun.
    destruct r as [w|e| |]; try discriminate. intros [= <- <-].
    destruct (search_verdict cfg _ _ _ _ _ _ (HFs (eq_sym Heq)) Hrun)
      as (evs & Hlog & Hcases).
    exists (evs0 ++ evs). split; [rewrite Hlog, Hlog0, app_assoc; reflexivity|].
    destruct Hcases as [[-> Hnone]|[Hw Hin]].
    + cbn. apply Forall_app. auto.
    + destruct (Z.gtb_spec w 0); [|lia].
      exists w. apply in_or_app. auto.
  - unfold bind, allocate_net_delay, route, vpr_throw, ret, printf, emit, extern,
      VTR_ASSERT.
    destruct (directionality cfg);
      [destruct (negb (Z.rem (fixed_channel_width cfg) 2 =? 0)); [discriminate|]|];
      (destruct (alloc_net_delay _) as [[] w0];
       destruct (try_route _ _) as [[] w]; cbn [negb log world]; try discriminate;
       intros [= <- <-]; cbn [log];
       rewrite Hlog0, <- !app_assoc; eexists; (split; [reflexivity|]);
       [exists (fixed_channel_width cfg); apply in_or_app; right; left; reflexivity
       |apply Forall_app; split; [exact Hev0|repeat constructor]]).
Qed.
End Verdict2.

(** ** A router that succeeds from a width on *)

Section Minimum.
Context {World : Type} {env : Environment World}.
Variable cfg : config.
Variable m : Z.
Hypothesis Hmode : fixed_width_mode cfg = false.
Hypothesis HFs : Fs cfg <= 3.
Hypothesis Hm : 1 <= m <= 501.

Lemma step_up_on_step v : on_step cfg (step_up cfg v).
Proof.
  unfold on_step, step_up. destruct (udsd_multiplier_cases cfg) as [-> | ->]; lia.
Qed.

(** A width on the step, at least [m] and at most one step above a
    width on the step below [m], is the least one from [m] on. *)
Lemma least_on_step lo hi :
  lo = -1 \/ on_step cfg lo -> on_step cfg hi ->
  lo < m <= hi -> hi - lo <= 1 * udsd_multiplier cfg ->
  hi = step_up cfg m.
Proof.
  unfold on_step, step_up.
  destruct (udsd_multiplier_cases cfg) as [-> | ->]; lia.
Qed.

(** Half of a successful width, on the step: it is the width itself
    only at the least width, and 0 only after width 1. *)
Lemma halved_width c :
  m <= c <= 1000 -> on_step cfg c ->
  let c' := step_up cfg (div_scale c scale_two) in
  0 <= c' <= c /\ (c' = c -> c = step_up cfg m) /\ (c' = 0 -> c = 1).
Proof.
  intros Hc Hstep. cbv zeta. rewrite div_scale_two by lia.
  unfold on_step, step_up in *.
  destruct (udsd_multiplier_cases cfg) as [Hmu | Hmu]; rewrite Hmu in *; lia.
Qed.

Lemma hinted_width c :
  m <= c <= 1000 -> (udsd_multiplier cfg = 2 -> 12 <= c) ->
  let c' := step_up cfg (div_scale c scale_hint) in
  0 <= c' <= c /\ (c' = c -> c = step_up cfg m) /\ (c' = 0 -> c = 1).
Proof.
  intros Hc H12. cbv zeta.
  destruct (hint_division c ltac:(lia)) as (Hr & Hr0 & Hr12).
  generalize dependent (div_scale c scale_hint). intros r Hr Hr0 Hr12.
  unfold step_up in *.
  destruct (udsd_multiplier_cases cfg) as [Hmu | Hmu]; rewrite Hmu in *; lia.
Qed.

Lemma doubled_width c :
  0 <= c <= 1000 -> step_up cfg (mul_scale c scale_two) = 2 * c.
Proof.
  intros Hc. rewrite doubled by lia. unfold step_up.
  destruct (udsd_multiplier_cases cfg) as [-> | ->]; lia.
Qed.

Lemma minimum_inv_step l l' :
  minimum_inv cfg m l -> final l = -1 ->
  iteration_result cfg l (m <=? current l) = Ok (Continue, l') ->
  minimum_inv cfg m l'.
Proof.
  intros (Hinv & Hcur & Hlow & Hhigh & Hpc & Hpl & Hph & Hhint & Hhalf & Hfin) Hf Hres.
  destruct (search_inv_step cfg l _ l' Hmode Hinv Hf Hres) as [Hinv' _].
  pose proof Hinv as (Hclip & Hfirst & Hcount & Hstage).
  destruct (continue_cases cfg l _ l' Hclip Hres)
    as (Hguard & HFs' & Hclip' & Hhint' & Hcount' & Hfields).
  pose proof (unconstrained_guard cfg l Hmode Hguard) as Hle.
  specialize (Hstage Hf). specialize (Hhalf Hf).
  rewrite Hmode in Hfields.
  assert (Hc0 : 0 <= current l).
  { destruct Hstage as [Hs|[Hs|Hs]]; unfold doubling, halving, bisecting in Hs; lia. }
  assert (Hstage' : final l' = -1 -> doubling l' \/ halving l' \/ bisecting l')
    by (apply Hinv').
  unfold minimum_inv. split; [exact Hinv'|]. clear Hinv Hinv'.
  destruct (Z.leb_spec m (current l)) as [Hge|Hlt].
  - (* the trial succeeds *)
    destruct Hfields as (Hh' & Hl' & Hf' & Hc').
    assert (Hscale :
      low l = -1 ->
      let c' := current l' in
      0 <= c' <= current l /\
      (c' = current l -> current l = step_up cfg m) /\ (c' = 0 -> current l = 1)).
    { intros Hlm. rewrite Hc'. destruct (Z.eqb_spec (low l) (-1)); [|lia].
      destruct (using_minw_hint l) eqn:Hu; cbn [andb];
        [destruct (Z.eqb_spec (attempt_count l) 0) as [Hz|Hz]|].
      - apply hinted_width; [lia|]. apply Hhint; auto.
      - apply halved_width; [lia|assumption].
      - apply halved_width; [lia|assumption]. }
    split; [|split; [|split; [|split; [|split; [|split; [|split; [|split]]]]]]].
    + intros Hf1.
      destruct (Hstage' Hf1) as [Hs|[Hs|Hs]]; unfold doubling, halving, bisecting in Hs;
        lia.
    + lia.
    + right. lia.
    + rewrite Hc'. apply step_up_on_step.
    + rewrite Hl'. exact Hpl.
    + right. rewrite Hh'. exact Hpc.
    + intros _ Hz. lia.
    + intros Hf1 _ Hl1. rewrite Hh'. rewrite Hl' in Hl1.
      specialize (Hscale Hl1). cbv zeta in Hscale. tauto.
    + intros Hne. rewrite Hf' in *. rewrite Hf in Hne.
      destruct (Z.leb_spec (current l - low l) (1 * udsd_multiplier cfg)).
      * cbn [orb]. apply (least_on_step (low l)); auto; lia.
      * cbn [orb] in *. destruct (Z.eqb_spec (current l) (high l)) as [Heq|]; [|lia].
        destruct Hstage as [Hs|[Hs|Hs]]; unfold doubling, halving, bisecting in Hs;
          lia.
  - (* the trial fails *)
    destruct Hfields as (Hl' & Hh' & Hf' & Hc').
    split; [|split; [|split; [|split; [|split; [|split; [|split; [|split]]]]]]].
    + intros Hf1.
      destruct (Hstage' Hf1) as [Hs|[Hs|Hs]]; unfold doubling, halving, bisecting in Hs;
        try lia.
      destruct Hs as (Hs & _). rewrite Hh' in Hs. rewrite Hs in Hc'.
      cbn [Z.eqb Pos.eqb negb] in Hc'. rewrite doubled_width in Hc' by lia. lia.
    + lia.
    + rewrite Hh'. exact Hhigh.
    + rewrite Hc'. apply step_up_on_step.
    + right. rewrite Hl'. exact Hpc.
    + rewrite Hh'. exact Hph.
    + intros _ Hz. lia.
    + intros; lia.
    + intros Hne. rewrite Hf' in *. rewrite Hf in Hne.
      destruct (Z.eqb_spec (high l) (-1)); cbn [negb andb] in *; [lia|].
      destruct (Z.leb_spec (high l - current l) (1 * udsd_multiplier cfg)); [|lia].
      apply (least_on_step (current l)); auto; [|lia].
      destruct Hph; [lia|assumption].
Qed.
End Minimum.

Section MinimumRun.
Context {World : Type} {env : Environment World}.

Lemma step_up_near cfg m : 0 <= m -> m <= step_up cfg m <= m + 1.
Proof.
  intros Hm. unfold step_up. destruct (udsd_multiplier_cases cfg) as [-> | ->]; lia.
Qed.

Lemma minimum_inv_init cfg m hint l0 :
  fixed_width_mode cfg = false -> 1 <= m ->
  init_result cfg hint = Ok l0 -> current l0 <= 1000 ->
  (directionality cfg = UNI_DIRECTIONAL -> hint <= 0 \/ 12 <= hint) ->
  minimum_inv cfg m l0 /\ final l0 = -1.
Proof.
  intros Hmode Hm Hinit Hcur Hhint.
  destruct (search_inv_init cfg hint l0 Hmode Hinit) as [Hinv Hf].
  split; [|exact Hf].
  unfold init_result in Hinit.
  assert (Hstep : on_step cfg (current (initial_guess cfg hint))).
  { unfold on_step, udsd_multiplier. destruct (directionality cfg).
    - destruct (Z.eqb_spec (Z.rem (current (initial_guess cfg hint)) 2) 0);
        [assumption|discriminate].
    - apply Z.rem_1_r. }
  destruct (match directionality cfg with
            | UNI_DIRECTIONAL => _
            | BI_DIRECTIONAL => _
            end); [discriminate|].
  destruct (_ >? 0); [|discriminate]. injection Hinit as <-.
  unfold minimum_inv. split; [exact Hinv|].
  unfold initial_guess in *. rewrite Hmode in *.
  destruct (Z.gtb_spec hint 0);
    cbn [current low high final attempt_count using_minw_hint] in *;
    repeat split; auto; try lia; try discriminate.
  intros _ _ Hmu. unfold udsd_multiplier in Hmu.
  destruct (directionality cfg); [|discriminate]. destruct Hhint; [reflexivity|lia|lia].
Qed.

(** The iterations of such a search do not throw. *)
Lemma minimum_no_throw cfg m l s e :
  fixed_width_mode cfg = false ->
  minimum_inv cfg m l -> final l = -1 -> iteration_result cfg l s <> Throw e.
Proof.
  intros Hmode (_ & Hcur & _) Hf Hres.
  pose proof (iteration_result_cases cfg l s) as Hc. rewrite Hres in Hc.
  destruct Hc as [Hguard|(_ & _ & _ & _ & _ & Hfixed & _)]; [|congruence].
  unfold width_guard in Hguard. rewrite Hmode in Hguard.
  destruct (Z.gtb_spec (current l) 1000); [|discriminate].
  specialize (Hcur Hf). lia.
Qed.

(** The loop leaves by [break] only after a success at width 1. *)
Lemma minimum_break cfg m l :
  Fs cfg <= 3 -> 1 <= m ->
  minimum_inv cfg m l -> final l = -1 -> current l * 3 < Fs cfg ->
  high l = step_up cfg m.
Proof.
  intros HFs Hm ((_ & _ & _ & Hstage) & _ & _ & Hhigh & _ & _ & Hph & _ & Hhalf & _)
    Hf Hbelow.
  specialize (Hhalf Hf).
  destruct (Hstage Hf) as [Hs|[Hs|Hs]]; unfold doubling, halving, bisecting in Hs;
    try lia.
  assert (Hone : high l = 1) by (apply Hhalf; lia).
  destruct Hph as [Hph|Hph]; [lia|].
  unfold on_step, step_up in *.
  destruct (udsd_multiplier_cases cfg) as [Hmu | Hmu]; rewrite Hmu in *; lia.
Qed.

(** The loop of such a search returns, with [final] the least width on
    the step from [m] on. *)
Lemma minimum_search_loop cfg m fuel l (g : globals World) :
  (forall width_fac w, fst (try_route width_fac w) = (m <=? width_fac)) ->
  fixed_width_mode cfg = false -> Fs cfg <= 3 -> 1 <= m <= 501 ->
  minimum_inv cfg m l -> final l = -1 ->
  (iterations_left l < fuel)%nat ->
  exists l' g', search_loop cfg fuel l g = (Ok l', g') /\ final l' = step_up cfg m.
Proof.
  intros Hrouter Hmode HFs Hm Hinv Hf Hfuel.
  assert (Hanswer : forall l0 (g0 : globals World),
            trial_answer cfg l0 g0 = (m <=? current l0))
    by (intros; apply Hrouter).
  pose proof (search_loop_enough_fuel cfg fuel Hmode l g ltac:(apply Hinv)
                ltac:(auto)) as Hne.
  destruct (search_loop cfg fuel l g) as [r g'] eqn:Hrun. cbn [fst] in Hne.
  destruct (performs_search_loop (fun _ => True) cfg (minimum_inv cfg m))
    with (fuel := fuel) (l := l) (g := g) (r := r) (g' := g') as [_ Hr]; auto.
  - intros l1 g0 l2 Hinv1 Hf1 Hres. rewrite Hanswer in Hres.
    eapply minimum_inv_step; eassumption.
  - intros. apply Forall_forall. auto.
  - destruct r as [l'|e| |]; try contradiction.
    + exists l', g'. split; [reflexivity|].
      destruct Hr as [[Hinv' Hf']|(l1 & g0 & Hinv1 & Hf1 & Hres)].
      * apply Hinv'. exact Hf'.
      * pose proof (iteration_result_cases cfg l1 (trial_answer cfg l1 g0)) as Hc.
        rewrite Hres in Hc. destruct Hc as (_ & Hbelow & ->).
        cbn [final set_final]. eapply minimum_break; eauto; lia.
    + destruct Hr as (l1 & g0 & Hinv1 & Hf1 & Hres).
      exfalso. eapply minimum_no_throw; eauto.
Qed.

(** The verification of such a search leaves [final] alone: its trials
    are below [m]. *)
Lemma minimum_verify_loop cfg m fuel l prev prev2 (g : globals World) l' g' :
  (forall width_fac w, fst (try_route width_fac w) = (m <=? width_fac)) ->
  current l < m ->
  verify_loop cfg fuel l prev prev2 g = (Ok l', g') ->
  final l' = final l.
Proof.
  intros Hrouter Hcur Hrun.
  destruct (verify_loop_tracks cfg
              (fun l0 _ => final l0 = final l /\ current l0 < m))
    with (fuel := fuel) (l := l) (prev := prev) (prev2 := prev2) (g := g)
         (l' := l') (g' := g') (base := log g) (evs := @nil event)
    as (evs & _ & Hfin & _); auto.
  - intros l0 evs g0 [Hfin Hc] _ _.
    unfold trial_answer. rewrite Hrouter.
    destruct (Z.leb_spec m (current l0)); [lia|].
    unfold verified_locals. cbn [andb].
    destruct (directionality cfg); cbn [final current set_current]; lia.
  - rewrite app_nil_r. reflexivity.
Qed.

(** X5. When the router succeeds exactly at the widths from [m] on,
    for an [m] between 1 and 501, an unconstrained search with a floor
    of Fs of at most 3 that starts at a width of at most 1000 returns
    the least width on the step that is at least [m]: [m] itself under
    bidirectional routing, [m] rounded up to an even width under
    unidirectional routing.  Under unidirectional routing a hint, if
    given, is at least 12. *)
Theorem search_finds_minimum cfg m verify hint fuel l0 (g : globals World) :
  (forall width_fac w, fst (try_route width_fac w) = (m <=? width_fac)) ->
  fixed_width_mode cfg = false -> Fs cfg <= 3 -> 1 <= m <= 501 ->
  init_result cfg hint = Ok l0 -> current l0 <= 1000 ->
  (directionality cfg = UNI_DIRECTIONAL -> hint <= 0 \/ 12 <= hint) ->
  known_chan_type (type (chan_x_dist (Chans cfg))) = true ->
  known_chan_type (type (chan_y_dist (Chans cfg))) = true ->
  (search_fuel <= fuel)%nat ->
  exists g',
    binary_search_place_and_route cfg verify hint fuel g = (Ok (step_up cfg m), g').
Proof.
  intros Hrouter Hmode HFs Hm Hinit Hcur Hhint Hx Hy Hfuel.
  destruct (binary_search_place_and_route cfg verify hint fuel g) as [r g'] eqn:Hrun.
  exists g'. f_equal.
  pose proof (binary_search_run _ _ _ _ _ _ _ Hrun) as Hcut.
  rewrite Hinit in Hcut. destruct Hcut as (r1 & g1 & Hloop & Hrest).
  destruct (minimum_inv_init cfg m hint l0 Hmode ltac:(lia) Hinit Hcur Hhint)
    as [Hinv Hf].
  pose proof (initial_iterations_left cfg hint l0 Hmode Hinit) as Hleft.
  destruct (minimum_search_loop cfg m fuel l0 (add_events g (init_events cfg hint))
              Hrouter Hmode HFs Hm Hinv Hf ltac:(lia)) as (l1 & g1' & Hloop' & Hfinal).
  rewrite Hloop' in Hloop. injection Hloop as <- <-.
  destruct Hrest as (l2 & g2 & Hver & r3 & g3 & Hchan & Hr3).
  assert (Hfinal2 : final l2 = step_up cfg m).
  { destruct verify; [|destruct Hver as [-> _]; exact Hfinal].
    rewrite <- Hfinal.
    apply (minimum_verify_loop cfg m _ _ _ _ _ _ _ Hrouter) in Hver; [exact Hver|].
    cbn [current set_current]. pose proof (step_up_near cfg m ltac:(lia)). lia. }
  destruct (init_chan_returns cfg (final l2) (Chans cfg) g2 Hx Hy) as (g4 & Hchan' & _).
  rewrite Hchan' in Hchan. injection Hchan as <- <-.
  destruct Hr3 as [-> _]. rewrite Hfinal2. reflexivity.
Qed.
End MinimumRun.

(** ** A small hint under unidirectional routing *)

Section SmallHint.
Context {World : Type} {env : Environment World}.

Lemma small_hint_division h :
  Z.even h = true -> 2 <= h <= 10 -> div_scale h scale_hint = h - 1.
Proof.
  intros Heven Hh.
  assert (Hcases : h = 2 \/ h = 4 \/ h = 6 \/ h = 8 \/ h = 10).
  { assert (Hodd : h <> 3 /\ h <> 5 /\ h <> 7 /\ h <> 9)
      by (repeat split; intros ->; discriminate).
    lia. }
  destruct Hcases as [-> | [-> | [-> | [-> | ->]]]]; vm_compute; reflexivity.
Qed.

Lemma trials_of_app evs1 evs2 :
  trials_of (evs1 ++ evs2) = trials_of evs1 ++ trials_of evs2.
Proof. unfold trials_of. apply flat_map_app. Qed.

Lemma trials_of_closing l cw : trials_of (closing_events l cw) = [].
Proof. unfold closing_events. destruct (Fc_clipped l); reflexivity. Qed.

Lemma trials_of_init cfg hint : trials_of (init_events cfg hint) = [].
Proof.
  unfold init_events.
  destruct (fixed_width_mode cfg); [|destruct (hint >? 0)]; reflexivity.
Qed.

Lemma trials_of_placing (b : bool) c :
  trials_of (if b then [Called (TryPlace c)] else []) = [].
Proof. destruct b; reflexivity. Qed.

(** An iteration of an unconstrained search at a width the guard and
    the floor let through reaches the bottom of the body. *)
Lemma iteration_continues cfg l s :
  fixed_width_mode cfg = false -> current l <= 1000 -> Fs cfg <= current l * 3 ->
  exists l', iteration_result cfg l s = Ok (Continue, l').
Proof.
  intros Hmode Hc HFs.
  pose proof (iteration_result_cases cfg l s) as Hcases.
  assert (Hguard : width_guard cfg l = None).
  { unfold width_guard. rewrite Hmode.
    destruct (Z.gtb_spec (current l) 1000); [lia|reflexivity]. }
  destruct (iteration_result cfg l s) as [[[] l']|e| |]; try contradiction.
  - eauto.
  - lia.
  - destruct Hcases as [H|(_ & _ & _ & _ & _ & H & _)]; congruence.
Qed.

(** The first two iterations of a unidirectional search from an even
    hint of at most 10 at which the router succeeds: the second trial
    is at the hint again, and ends the loop. *)
Lemma small_hint_loop cfg hint fuel (g : globals World) :
  directionality cfg = UNI_DIRECTIONAL -> fixed_width_mode cfg = false ->
  Z.even hint = true -> 2 <= hint <= 10 -> Fs cfg <= 3 * hint ->
  (forall w, fst (try_route hint w) = true) ->
  exists l g' evs,
    search_loop cfg (S (S fuel)) (initial_guess cfg hint) g = (Ok l, g') /\
    final l = hint /\ Fc_clipped l = false /\
    log g' = log g ++ evs /\
    trials_of evs = [(hint, true); (hint, true)].
Proof.
  intros Hdir Hmode Heven Hh HFs Hrouter.
  assert (Hmult : udsd_multiplier cfg = 2)
    by (unfold udsd_multiplier; rewrite Hdir; reflexivity).
  assert (Hguess : initial_guess cfg hint
                   = {| current := hint; low := -1; high := -1; final := -1;
                        attempt_count := 0; using_minw_hint := true;
                        Fc_clipped := false |}).
  { unfold initial_guess. rewrite Hmode.
    destruct (Z.gtb_spec hint 0); [reflexivity|lia]. }
  rewrite Hguess. clear Hguess.
  set (l0 := {| current := hint; low := -1; high := -1; final := -1;
                attempt_count := 0; using_minw_hint := true; Fc_clipped := false |}).
  destruct (iteration_continues cfg l0 true Hmode) as [l1 Hstep0];
    [cbn; lia|cbn; lia|].
  destruct (continue_cases cfg l0 true l1 eq_refl Hstep0)
    as (Hguard0 & HFs0 & Hclip1 & _ & _ & Hh1 & Hl1 & Hf1 & Hc1).
  cbn [current low high final attempt_count using_minw_hint l0 andb] in Hh1, Hl1, Hf1, Hc1.
  cbn [Z.eqb Pos.eqb] in Hc1.
  rewrite small_hint_division in Hc1 by assumption.
  assert (Hcur1 : current l1 = hint).
  { rewrite Hc1. unfold step_up. rewrite Hmult.
    apply Z.even_spec in Heven. destruct Heven as [k ->]. lia. }
  assert (Hfin1 : final l1 = -1).
  { rewrite Hf1, Hmult.
    destruct (Z.leb_spec (hint - -1) (1 * 2)); [lia|].
    destruct (Z.eqb_spec hint (-1)); [lia|reflexivity]. }
  clear Hf1 Hc1.
  destruct (iteration_continues cfg l1 true Hmode) as [l2 Hstep1]; [lia|lia|].
  destruct (continue_cases cfg l1 true l2 Hclip1 Hstep1)
    as (Hguard1 & HFs1 & Hclip2 & _ & _ & _ & _ & Hf2 & _).
  assert (Hfin2 : final l2 = hint).
  { rewrite Hf2, Hcur1, Hh1, Z.eqb_refl, orb_true_r. reflexivity. }
  clear Hf2.
  cbn [search_loop]. cbn [final l0]. cbn [Z.eqb Pos.eqb].
  unfold bind at 1.
  destruct (search_iteration_eq cfg l0 g) as [w0 Heq0]. rewrite Heq0.
  assert (Ha0 : trial_answer cfg l0 g = true) by (apply Hrouter).
  rewrite Ha0, Hstep0, Hfin1. cbn [Z.eqb Pos.eqb].
  match goal with
  | |- context [bind (search_iteration cfg l1) _ ?g1] =>
      destruct (search_iteration_eq cfg l1 g1) as [w1 Heq1];
      assert (Ha1 : trial_answer cfg l1 g1 = true)
        by (unfold trial_answer; rewrite Hcur1; apply Hrouter)
  end.
  unfold bind at 1. rewrite Heq1, Ha1, Hstep1.
  assert (Hdone : forall fuel' g2, search_loop cfg fuel' l2 g2 = (Ok l2, g2)).
  { intros fuel' g2. destruct fuel'; cbn [search_loop];
      (destruct (Z.eqb_spec (final l2) (-1)); [lia|reflexivity]). }
  rewrite Hdone.
  eexists l2, _, _. split; [reflexivity|].
  split; [exact Hfin2|]. split; [exact Hclip2|].
  cbn [log]. rewrite <- app_assoc. split; [reflexivity|].
  rewrite !trial_events by (assumption || reflexivity).
  rewrite trials_of_app. unfold trials_of at 1 2. cbn [flat_map app].
  rewrite !flat_map_app.
  fold (trials_of (if place_always cfg then [Called (TryPlace (current l0))] else [])).
  fold (trials_of (if place_always cfg then [Called (TryPlace (current l1))] else [])).
  rewrite !trials_of_placing. cbn [flat_map app]. rewrite Hcur1. reflexivity.
Qed.
End SmallHint.

Section SmallHintRun.
Context {World : Type} {env : Environment World}.

(** X6. Under unidirectional routing, an unconstrained search without
    the verification, from an even hint between 2 and 10 that is not
    below the floor of Fs ([Fs <= 3 * hint]) and at which the router
    succeeds, with profiles of known kinds, calls the router twice,
    both times at the hint, and returns the hint: the hint divided by
    1.1 and rounded up to an even width is the hint again, and a
    success at the upper bound ends the loop. *)
Theorem small_hint_is_returned cfg hint fuel (g : globals World) :
  directionality cfg = UNI_DIRECTIONAL -> fixed_width_mode cfg = false ->
  Z.even hint = true -> 2 <= hint <= 10 -> Fs cfg <= 3 * hint ->
  (forall w, fst (try_route hint w) = true) ->
  known_chan_type (type (chan_x_dist (Chans cfg))) = true ->
  known_chan_type (type (chan_y_dist (Chans cfg))) = true ->
  exists g' evs,
    binary_search_place_and_route cfg false hint (S (S fuel)) g = (Ok hint, g') /\
    log g' = log g ++ evs /\
    trials_of evs = [(hint, true); (hint, true)].
Proof.
  intros Hdir Hmode Heven Hh HFs Hrouter Hx Hy.
  destruct (binary_search_place_and_route cfg false hint (S (S fuel)) g)
    as [r g'] eqn:Hrun.
  pose proof (binary_search_run _ _ _ _ _ _ _ Hrun) as Hcut.
  assert (Hinit : init_result cfg hint = Ok (initial_guess cfg hint)).
  { unfold init_result. rewrite Hdir.
    assert (Hc : current (initial_guess cfg hint) = hint).
    { unfold initial_guess. rewrite Hmode.
      destruct (Z.gtb_spec hint 0); [reflexivity|lia]. }
    rewrite Hc.
    assert (Hrem : Z.rem hint 2 = 0).
    { apply Z.even_spec in Heven. destruct Heven as [k ->]. lia. }
    rewrite Hrem. cbn [Z.eqb negb].
    destruct (Z.gtb_spec hint 0); [reflexivity|lia]. }
  rewrite Hinit in Hcut. destruct Hcut as (r1 & g1 & Hloop & Hrest).
  destruct (small_hint_loop cfg hint fuel (add_events g (init_events cfg hint))
              Hdir Hmode Heven Hh HFs Hrouter)
    as (l1 & g1' & evs1 & Hloop' & Hfinal & Hclip & Hlog1 & Htrials).
  rewrite Hloop' in Hloop. injection Hloop as <- <-.
  destruct Hrest as (l2 & g2 & [-> ->] & r3 & g3 & Hchan & Hr3).
  destruct (init_chan_returns cfg (final l1) (Chans cfg) g1' Hx Hy) as (g4 & Hchan' & _).
  rewrite Hchan' in Hchan. injection Hchan as <- <-.
  destruct Hr3 as [-> Hlog]. rewrite Hfinal.
  exists g', (init_events cfg hint ++ evs1 ++ closing_events l1 (chan_width g4)).
  split; [reflexivity|]. split.
  - rewrite Hlog, Hlog1. cbn [log add_events]. rewrite <- !app_assoc. reflexivity.
  - rewrite !trials_of_app, trials_of_init, trials_of_closing, Htrials. reflexivity.
Qed.
End SmallHintRun.

(** ** Placement and trials *)

Section Placing.
Context {World : Type} {env : Environment World}.

(** The events of a trial made after a placement keep the flag. *)
Lemma placed_trial c s (tail : list event) st :
  snd st = true ->
  (forall st', snd (fold_left placed_step tail st') = snd st') ->
  snd (fold_left placed_step
         ([Called (TryPlace c)] ++ Routed_at c s :: tail) st) = true.
Proof.
  intros Hst Htail. cbn [app fold_left placed_step fst snd].
  rewrite Htail. cbn [snd]. rewrite Hst, Z.eqb_refl. reflexivity.
Qed.

Lemma placed_closing l cw st :
  snd (fold_left placed_step (closing_events l cw) st) = snd st.
Proof. unfold closing_events. destruct (Fc_clipped l); reflexivity. Qed.

(** X7. In a search that returns: under the policy [PLACE_ALWAYS]
    every call of the router directly follows a call of [try_place]
    for the same width; under any other policy the search does not
    call [try_place]. *)
Theorem placement_with_every_trial cfg verify hint fuel (g : globals World) w g' :
  binary_search_place_and_route cfg verify hint fuel g = (Ok w, g') ->
  exists evs,
    log g' = log g ++ evs /\
    if place_always cfg then placed_before_trials evs = true
    else Forall no_placement evs.
Proof.
  intros Hrun.
  set (Phi := fun (l : locals) evs =>
                Fc_clipped l = false /\
                if place_always cfg
                then snd (fold_left placed_step evs (None, true)) = true
                else Forall no_placement evs).
  destruct (binary_search_tracks cfg verify hint fuel Phi Phi Phi g w g')
    as (l & evs & cw & Hl & _ & Hlog); [..|exact Hrun|].
  - intros l0 Hinit. destruct (initial_bounds cfg hint l0 Hinit) as (Hclip & _).
    split; [exact Hclip|]. unfold init_events.
    destruct (place_always cfg), (fixed_width_mode cfg); [| |destruct (hint >? 0)..];
      try reflexivity; try destruct (hint >? 0); try reflexivity; repeat constructor.
  - intros l evs g0 l' [Hclip Hev] Hf Hres.
    destruct (continue_cases cfg l _ l' Hclip Hres) as (Hguard & HFs & Hclip' & _).
    split; [exact Hclip'|].
    rewrite trial_events by assumption.
    destruct (place_always cfg).
    + rewrite fold_left_app.
      change (Printed (Attempting (current l) (low l) (high l)) :: ?x)
        with ([Printed (Attempting (current l) (low l) (high l))] ++ x).
      rewrite fold_left_app. apply placed_trial.
      * cbn [fold_left placed_step snd]. exact Hev.
      * intros st'. destruct (trial_answer cfg l g0); reflexivity.
    + apply Forall_app. split; [exact Hev|].
      destruct (trial_answer cfg l g0); repeat constructor.
  - intros l evs [Hclip Hev] Hf Hguard HFs.
    split; [exact Hclip|].
    destruct (place_always cfg).
    + rewrite fold_left_app. cbn [fold_left placed_step snd]. exact Hev.
    + apply Forall_app. split; [exact Hev|repeat constructor].
  - intros l evs Hexit.
    assert (HPhi : Phi l evs) by (destruct Hexit as [[H _]|H]; exact H).
    destruct HPhi as [Hclip Hev]. split; [exact Hclip|].
    destruct (place_always cfg).
    + rewrite fold_left_app. cbn [fold_left placed_step snd]. exact Hev.
    + apply Forall_app. split; [exact Hev|repeat constructor].
  - intros l evs g0 [Hclip Hev] Hone _.
    split; [rewrite verified_keeps_flag; exact Hclip|].
    unfold verify_events.
    destruct (place_always cfg).
    + rewrite fold_left_app. apply placed_trial; [exact Hev|].
      intros st'. destruct (trial_answer cfg l g0 && _); reflexivity.
    + apply Forall_app. split; [exact Hev|].
      destruct (trial_answer cfg l g0 && _); repeat constructor.
  - exists (evs ++ closing_events l cw). split; [exact Hlog|].
    assert (HPhi : Phi l evs).
    { destruct verify; [exact Hl|]. destruct Hl as [[H _]|H]; exact H. }
    destruct HPhi as [_ Hev].
    destruct (place_always cfg).
    + unfold placed_before_trials. rewrite fold_left_app, placed_closing. exact Hev.
    + apply Forall_app. split; [exact Hev|].
      unfold closing_events. destruct (Fc_clipped l); repeat constructor.
Qed.
End Placing.

(** ** The verification, trial by trial *)

Section VerifyTrials.
Context {World : Type} {env : Environment World}.

Lemma verified_fields cfg l s :
  Fc_clipped l = false ->
  let l' := verified_locals cfg l s in
  Fc_clipped l' = false /\
  final l' = (if s then current l else final l) /\
  current l' = current l - udsd_multiplier cfg.
Proof.
  intros Hclip. unfold verified_locals, udsd_multiplier. rewrite Hclip.
  destruct (directionality cfg), s; cbn; repeat split; auto; lia.
Qed.

Lemma trials_of_verify cfg l s :
  trials_of (verify_events cfg l s) = [(current l, s)].
Proof.
  unfold verify_events. rewrite trials_of_app, trials_of_placing.
  cbn [app trials_of flat_map].
  destruct (s && _); [destruct (place_always cfg)|]; reflexivity.
Qed.

Lemma verify_loop_stops cfg fuel l prev prev2 (g : globals World) :
  verification_goes_on cfg (current l) prev prev2 = false ->
  verify_loop cfg fuel l prev prev2 g = (Ok l, g).
Proof.
  unfold verification_goes_on. intros Hgo.
  destruct fuel; cbn [verify_loop]; destruct (prev2 || prev); try reflexivity;
    destruct (fixed_width_mode cfg && _); try reflexivity;
    destruct (current l <? 1); try reflexivity; discriminate.
Qed.

Lemma verify_loop_goes_on cfg fuel l prev prev2 (g : globals World) :
  verification_goes_on cfg (current l) prev prev2 = true ->
  verify_loop cfg (S fuel) l prev prev2 g
  = bind (verify_iteration cfg l)
      (fun r => verify_loop cfg fuel (snd r) (fst r) prev) g /\
  verify_loop cfg 0 l prev prev2 g = (OutOfFuel, g).
Proof.
  unfold verification_goes_on. intros Hgo. cbn [verify_loop].
  destruct (prev2 || prev); [|discriminate].
  destruct (fixed_width_mode cfg && _); [discriminate|].
  destruct (current l <? 1); [discriminate|]. split; reflexivity.
Qed.

(** The trials of a run of the verification that returns: one for each
    answer, at widths that go down by the step, as many as the
    condition of the loop and its two tests allow and no more. *)
Lemma verify_loop_trials cfg fuel :
  forall l prev prev2 (g : globals World) l' g',
    Fc_clipped l = false ->
    verify_loop cfg fuel l prev prev2 g = (Ok l', g') ->
    exists evs answers,
      log g' = log g ++ evs /\
      trials_of evs = descending (current l) (udsd_multiplier cfg) answers /\
      answers_of_verification cfg (current l) prev prev2 answers = true /\
      stops_after_two_failures prev answers = true /\
      (prev2 || prev = false -> answers = []) /\
      final l' = last_success (final l) (trials_of evs).
Proof.
  induction fuel as [|fuel IH]; intros l prev prev2 g l' g' Hclip;
    (destruct (verification_goes_on cfg (current l) prev prev2) eqn:Hgo;
     [|rewrite verify_loop_stops by exact Hgo;
       intros [= <- <-]; exists [], []; rewrite app_nil_r;
       cbn [answers_of_verification]; rewrite Hgo; repeat split; auto;
       unfold verification_goes_on in Hgo; intros Hprev; rewrite Hprev in Hgo;
       destruct (fixed_width_mode cfg && _), (current l <? 1); discriminate]).
  { destruct (verify_loop_goes_on cfg 0 l prev prev2 g Hgo) as [_ Hzero].
    rewrite Hzero. discriminate. }
  destruct (verify_loop_goes_on cfg fuel l prev prev2 g Hgo) as [Hstep _].
  rewrite Hstep. clear Hstep.
  assert (Hprev : prev2 || prev = true).
  { unfold verification_goes_on in Hgo. destruct (prev2 || prev); [reflexivity|].
    discriminate. }
  unfold bind. destruct (verify_iteration_eq cfg l g) as [w ->]. cbn [fst snd].
  set (s := trial_answer cfg l g).
  destruct (verified_fields cfg l s Hclip) as (Hclip1 & Hfin1 & Hcur1).
  cbv zeta in Hclip1, Hfin1, Hcur1.
  intros Hrun.
  destruct (IH _ _ _ _ _ _ Hclip1 Hrun)
    as (evs & answers & Hlog & Htr & Hall & Hstop & Hnone & Hfin).
  exists (verify_events cfg l s ++ evs), (s :: answers).
  cbn [log] in Hlog. rewrite <- app_assoc in Hlog.
  split; [exact Hlog|].
  rewrite trials_of_app, trials_of_verify, Htr, Hcur1.
  split; [reflexivity|].
  split; [cbn [answers_of_verification]; rewrite Hgo, <- Hcur1; exact Hall|].
  split; [|split; [rewrite Hprev; discriminate|]].
  - cbn [stops_after_two_failures].
    destruct prev, s; cbn [negb andb]; try exact Hstop.
    rewrite Hnone by reflexivity. reflexivity.
  - rewrite Hfin, Htr, Hfin1, Hcur1. reflexivity.
Qed.



(** X8. The verification returns.  It tries the widths [final - 2],
    [final - 2 - step], ... in this order, one for each of the
    router's answers: it makes a trial as long as one of the last two
    answers was a success (both count as successes at the start) and
    the width is at least 1 (and not below a fixed width), and makes
    no trial after that; so the first trial, at [final - 2], is made
    whenever that width is at least 1.  It leaves in [final] the
    width of its last successful trial, or [final] as it was when it
    has none. *)
Theorem verification_trials cfg l (g : globals World) :
  Fc_clipped l = false ->
  exists l' g' evs answers,
    verify_loop cfg (Z.to_nat (final l - 2)) (set_current (final l - 2) l)
      true true g = (Ok l', g') /\
    log g' = log g ++ evs /\
    trials_of evs = descending (final l - 2) (udsd_multiplier cfg) answers /\
    answers_of_verification cfg (final l - 2) true true answers = true /\
    stops_after_two_failures true answers = true /\
    final l' = last_success (final l) (trials_of evs).
Proof.
  intros Hclip.
  destruct (verify_loop_returns cfg l g) as (l' & g' & Hrun).
  destruct (verify_loop_trials cfg _ (set_current (final l - 2) l) _ _ _ _ _
              Hclip Hrun)
    as (evs & answers & Hlog & Htr & Hall & Hstop & _ & Hfin).
  exists l', g', evs, answers. repeat (split; [assumption|]). exact Hfin.
Qed.
End VerifyTrials.

(** ** The verification from a result of 20 *)

Section Verifier.
Context {World : Type} {env : Environment World}.

End Verifier.

(** ** A search that returns no width *)

Section NoWidth.
Context {World : Type} {env : Environment World}.

Lemma step_up_above cfg v : 0 <= v -> v <= step_up cfg v.
Proof.
  intros Hv. unfold step_up. destruct (udsd_multiplier_cases cfg) as [-> | ->]; lia.
Qed.

Lemma initial_attempt_count cfg hint l0 :
  init_result cfg hint = Ok l0 -> attempt_count l0 = 0.
Proof.
  intros Hinit. unfold init_result in Hinit.
  destruct (match directionality cfg with
            | UNI_DIRECTIONAL => _
            | BI_DIRECTIONAL => _
            end); [discriminate|].
  destruct (_ >? 0); [|discriminate]. injection Hinit as <-.
  unfold initial_guess.
  destruct (fixed_width_mode cfg); [|destruct (hint >? 0)]; reflexivity.
Qed.

(** A search that returns a width that is not positive returns [-1]:
    the floor of Fs stopped it at its first iteration, at the initial
    width, and it made no trial. *)
Lemma nonpositive_result cfg verify hint fuel (g : globals World) w g' :
  1 <= Fs cfg ->
  binary_search_place_and_route cfg verify hint fuel g = (Ok w, g') ->
  w <= 0 ->
  w = -1 /\
  (exists l0, init_result cfg hint = Ok l0 /\ width_guard cfg l0 = None /\
              current l0 * 3 < Fs cfg) /\
  exists evs, log g' = log g ++ evs /\ trials_of evs = [].
Proof.
  intros HFs1 Hrun Hw.
  set (floor0 := exists l0, init_result cfg hint = Ok l0 /\ width_guard cfg l0 = None /\
                            current l0 * 3 < Fs cfg).
  set (Phi := fun l evs =>
                Fc_clipped l = false /\ 0 <= attempt_count l /\
                (final l = -1 \/ final l = high l) /\
                (high l <> -1 -> 1 <= high l) /\
                (attempt_count l = 0 ->
                 init_result cfg hint = Ok l /\ trials_of evs = []) /\
                (0 < attempt_count l -> high l = -1 -> Fs cfg <= current l * 3)).
  set (Q := fun l evs =>
              (final l <> -1 -> 1 <= final l) /\
              (final l = -1 -> floor0 /\ trials_of evs = [])).
  set (Psi := fun l evs =>
                (final l <> -1 -> 1 <= final l) /\
                (final l = -1 -> current l < 1 /\ floor0 /\ trials_of evs = [])).
  destruct (binary_search_tracks cfg verify hint fuel Phi Q Psi g w g')
    as (l & evs & cw & Hl & -> & Hlog); [..|exact Hrun|].
  - intros l0 Hinit. destruct (initial_bounds cfg hint l0 Hinit) as (Hclip & Hh & Hf).
    pose proof (initial_attempt_count cfg hint l0 Hinit) as Hcount.
    unfold Phi. split; [exact Hclip|]. split; [lia|]. split; [auto|].
    split; [intros; congruence|]. split; [|intros; lia].
    intros _. split; [exact Hinit|apply trials_of_init].
  - intros l evs g0 l' (Hclip & Hcount & Hfin & Hhigh & Hfirst & Hlater) Hf Hres.
    destruct (continue_cases cfg l _ l' Hclip Hres)
      as (Hguard & HFs & Hclip' & _ & Hcount' & Hfields).
    pose proof (guard_bound cfg l Hguard) as Hbound.
    unfold Phi. split; [exact Hclip'|]. split; [lia|].
    destruct (trial_answer cfg l g0).
    + destruct Hfields as (Hh' & _ & Hf' & _). rewrite Hh', Hf', Hf.
      split; [destruct (_ || _); auto|]. split; [intros; lia|].
      split; intros; lia.
    + destruct Hfields as (_ & Hh' & Hf' & Hc'). rewrite Hh', Hf', Hf.
      split; [destruct (_ && _); auto|]. split; [exact Hhigh|].
      split; [intros; lia|]. intros _ Hh. rewrite Hc', Hh.
      change (-1 =? -1) with true. cbn [negb].
      assert (Hnext : current l <= step_up cfg
                (if fixed_width_mode cfg then current l + 5 * udsd_multiplier cfg
                 else mul_scale (current l) scale_two)); [|lia].
      unfold width_bound in Hbound.
      destruct (fixed_width_mode cfg).
      * pose proof (step_up_above cfg (current l + 5 * udsd_multiplier cfg)).
        destruct (udsd_multiplier_cases cfg) as [Hm | Hm]; rewrite Hm in *; lia.
      * rewrite doubled by lia. pose proof (step_up_above cfg (2 * current l)). lia.
  - intros l evs (Hclip & Hcount & Hfin & Hhigh & Hfirst & Hlater) Hf Hguard HFs.
    unfold Q. cbn [final set_final]. split; [exact Hhigh|].
    intros Hh.
    destruct (Z.eq_dec (attempt_count l) 0) as [Hzero|Hnz].
    + destruct (Hfirst Hzero) as [Hinit Htr].
      split; [exists l; auto|]. rewrite trials_of_app, Htr. reflexivity.
    + specialize (Hlater ltac:(lia) Hh). lia.
  - intros l evs Hexit. unfold Psi. cbn [final current set_current].
    destruct Hexit as [[(_ & _ & Hfin & Hhigh & _) Hne]|[Hpos Hnone]].
    + split; [|contradiction]. intros _.
      destruct Hfin as [Hfin|Hfin]; [contradiction|]. rewrite Hfin in *. auto.
    + split; [exact Hpos|]. intros Hf. destruct (Hnone Hf) as [Hfloor Htr].
      split; [lia|]. split; [exact Hfloor|].
      rewrite trials_of_app, Htr. reflexivity.
  - intros l evs g0 [Hpos Hnone] Hone _.
    assert (Hf : final l <> -1) by (intros Hf; destruct (Hnone Hf); lia).
    specialize (Hpos Hf).
    assert (Hf' : 1 <= final (verified_locals cfg l (trial_answer cfg l g0))).
    { unfold verified_locals.
      destruct (directionality cfg), (trial_answer cfg l g0 && _);
        cbn [final set_current set_final]; lia. }
    unfold Psi. split; [intros _; exact Hf'|intros; lia].
  - assert (Hend : (final l <> -1 -> 1 <= final l) /\
                   (final l = -1 -> floor0 /\ trials_of evs = [])).
    { destruct verify.
      - destruct Hl as [Hpos Hnone]. split; [exact Hpos|].
        intros Hf. destruct (Hnone Hf) as (_ & Hfloor & Htr). auto.
      - destruct Hl as [[(_ & _ & Hfin & Hhigh & _) Hne]|Hq]; [|exact Hq].
        split; [|contradiction]. intros _.
        destruct Hfin as [Hfin|Hfin]; [contradiction|]. rewrite Hfin in *. auto. }
    destruct Hend as [Hpos Hnone].
    assert (Hf : final l = -1).
    { destruct (Z.eq_dec (final l) (-1)); [assumption|]. specialize (Hpos n). lia. }
    destruct (Hnone Hf) as [Hfloor Htr].
    split; [exact Hf|]. split; [exact Hfloor|].
    exists (evs ++ closing_events l cw). split; [exact Hlog|].
    rewrite trials_of_app, Htr, trials_of_closing. reflexivity.
Qed.

(** When the floor of Fs is above the initial width, the search
    returns [-1]. *)
Lemma floor_above_initial_width cfg verify hint fuel (g : globals World) l0 :
  known_chan_type (type (chan_x_dist (Chans cfg))) = true ->
  known_chan_type (type (chan_y_dist (Chans cfg))) = true ->
  init_result cfg hint = Ok l0 -> width_guard cfg l0 = None ->
  current l0 * 3 < Fs cfg ->
  exists g', binary_search_place_and_route cfg verify hint (S fuel) g = (Ok (-1), g').
Proof.
  intros Hx Hy Hinit Hguard HFs.
  destruct (initial_bounds cfg hint l0 Hinit) as (_ & Hh & Hf).
  unfold binary_search_place_and_route. unfold bind at 1.
  rewrite init_search_eq, Hinit. unfold bind at 1.
  cbn [search_loop]. rewrite Hf. cbn [Z.eqb Pos.eqb]. unfold bind at 1.
  destruct (search_iteration_eq cfg l0 (add_events g (init_events cfg hint)))
    as [w0 Heq].
  rewrite Heq. unfold iteration_result. rewrite Hguard.
  destruct (Z.ltb_spec (current l0 * 3) (Fs cfg)); [|lia].
  unfold ret at 1. unfold bind at 1.
  destruct verify.
  - unfold bind at 1. unfold printf, emit.
    rewrite verify_loop_below_one
      by (cbn [current final set_current set_final]; lia).
    unfold bind at 1.
    match goal with
    | |- context [init_chan cfg ?c (Chans cfg) ?g3] =>
        destruct (init_chan_returns cfg c (Chans cfg) g3 Hx Hy) as (g4 & Hchan & _)
    end.
    rewrite Hchan.
    unfold bind, get_chan_width, extern, when, printf, emit, ret.
    cbn [Fc_clipped final set_current set_final]. rewrite Hh.
    destruct (Fc_clipped l0); eexists; reflexivity.
  - unfold ret at 1. unfold bind at 1.
    match goal with
    | |- context [init_chan cfg ?c (Chans cfg) ?g3] =>
        destruct (init_chan_returns cfg c (Chans cfg) g3 Hx Hy) as (g4 & Hchan & _)
    end.
    rewrite Hchan.
    unfold bind, get_chan_width, extern, when, printf, emit, ret.
    cbn [Fc_clipped final set_final]. rewrite Hh.
    destruct (Fc_clipped l0); eexists; reflexivity.
Qed.

(** C7, as the code has it.  When the width is below the floor of Fs
    at the top of an iteration that passes the overflow guard, the
    loop stops there with [final = high].  When this happens at the
    initial width, the search makes no trial and returns [-1], and
    [place_and_route] returns [false] without throwing.  Conversely,
    with a floor of Fs of at least 1, a search that returns a width
    that is not positive returns [-1], was stopped by the floor at the
    initial width and made no trial: a search whose trials all fail
    does not return.  And [place_and_route], given a result of the
    search that is not positive, returns [false]. *)
Theorem below_fs_floor cfg verify hint fuel :
  (forall l (g : globals World),
     final l = -1 -> width_guard cfg l = None -> current l * 3 < Fs cfg ->
     exists g',
       search_loop cfg (S fuel) l g = (Ok (set_final (high l) l), g') /\
       log g' = log g ++ [Printed (Attempting (current l) (low l) (high l));
                          Printed BelowFs]) /\
  (forall (g : globals World) l0,
     known_chan_type (type (chan_x_dist (Chans cfg))) = true ->
     known_chan_type (type (chan_y_dist (Chans cfg))) = true ->
     init_result cfg hint = Ok l0 -> width_guard cfg l0 = None ->
     current l0 * 3 < Fs cfg ->
     exists g' evs,
       binary_search_place_and_route cfg verify hint (S fuel) g = (Ok (-1), g') /\
       log g' = log g ++ evs /\ trials_of evs = []) /\
  (forall (g : globals World) w g',
     1 <= Fs cfg ->
     binary_search_place_and_route cfg verify hint fuel g = (Ok w, g') -> w <= 0 ->
     w = -1 /\
     (exists l0, init_result cfg hint = Ok l0 /\ width_guard cfg l0 = None /\
                 current l0 * 3 < Fs cfg) /\
     exists evs, log g' = log g ++ evs /\ trials_of evs = []) /\
  (forall (g : globals World) l0,
     doRouting cfg = true ->
     fixed_channel_width cfg = NO_FIXED_CHANNEL_WIDTH ->
     known_chan_type (type (chan_x_dist (Chans cfg))) = true ->
     known_chan_type (type (chan_y_dist (Chans cfg))) = true ->
     init_result cfg (min_channel_width_hint cfg) = Ok l0 ->
     width_guard cfg l0 = None -> current l0 * 3 < Fs cfg ->
     exists g', place_and_route cfg (S fuel) g = (Ok false, g')) /\
  (forall (g : globals World) g0 channel_width g',
     doRouting cfg = true ->
     fixed_channel_width cfg = NO_FIXED_CHANNEL_WIDTH ->
     placement cfg g = (Ok tt, g0) ->
     binary_search_place_and_route cfg (verify_binary_search cfg)
       (min_channel_width_hint cfg) fuel g0 = (Ok channel_width, g') ->
     channel_width <= 0 ->
     place_and_route cfg fuel g = (Ok false, g')).
Proof.
  assert (Hcaller : forall fuel0 (g : globals World) g0 channel_width g',
     doRouting cfg = true ->
     fixed_channel_width cfg = NO_FIXED_CHANNEL_WIDTH ->
     placement cfg g = (Ok tt, g0) ->
     binary_search_place_and_route cfg (verify_binary_search cfg)
       (min_channel_width_hint cfg) fuel0 g0 = (Ok channel_width, g') ->
     channel_width <= 0 ->
     place_and_route cfg fuel0 g = (Ok false, g')).
  { intros fuel0 g g0 channel_width g' Hroute Hfixed Hplace Hsearch Hle.
    unfold place_and_route, bind. rewrite Hplace, Hroute. cbn [negb].
    rewrite Hfixed, Z.eqb_refl, Hsearch. unfold ret.
    destruct (Z.gtb_spec channel_width 0); [lia|reflexivity]. }
  split; [|split; [|split; [|split]]].
  - intros l g Hfinal Hguard HFs. cbn [search_loop].
    rewrite Hfinal. cbn [Z.eqb Pos.eqb]. unfold bind.
    destruct (search_iteration_eq cfg l g) as [w Heq]. rewrite Heq.
    unfold iteration_result, iteration_events. rewrite Hguard.
    destruct (Z.ltb_spec (current l * 3) (Fs cfg)); [|lia].
    eexists. split; reflexivity.
  - intros g l0 Hx Hy Hinit Hguard HFs.
    destruct (floor_above_initial_width cfg verify hint fuel g l0 Hx Hy Hinit Hguard HFs)
      as (g' & Hrun).
    assert (Hpos : 0 < current l0).
    { unfold init_result in Hinit.
      destruct (match directionality cfg with
                | UNI_DIRECTIONAL => _
                | BI_DIRECTIONAL => _
                end); [discriminate|].
      destruct (Z.gtb_spec (current (initial_guess cfg hint)) 0); [|discriminate].
      injection Hinit as <-. assumption. }
    destruct (nonpositive_result cfg verify hint (S fuel) g (-1) g' ltac:(lia) Hrun
                ltac:(lia)) as (_ & _ & evs & Hlog & Htr).
    exists g', evs. auto.
  - intros g w g'. apply nonpositive_result.
  - intros g l0 Hroute Hfixed Hx Hy Hinit Hguard HFs.
    destruct (placement_returns cfg g) as (g0 & Hplace & _).
    destruct (floor_above_initial_width cfg (verify_binary_search cfg)
                (min_channel_width_hint cfg) fuel g0 l0 Hx Hy Hinit Hguard HFs)
      as (g' & Hrun).
    exists g'. apply (Hcaller (S fuel) g g0 (-1) g'); auto. lia.
  - apply Hcaller.
Qed.
End NoWidth.

(** ** The entries of the lists *)

Section Entries.
Context {World : Type} {env : Environment World}.

Lemma comp_width_result chan x separation (g g0 : globals World) :
  fst (comp_width chan x separation g) = fst (comp_width chan x separation g0).
Proof.
  unfold comp_width.
  repeat match goal with
         | |- context [if ?b then _ else _] => destruct b
         end; reflexivity.
Qed.

Lemma insert_max_default (l : list Z) i r :
  <[i := Z.max (default 0 (<[i := r]> l !! i)) 1]> (<[i := r]> l)
  = <[i := Z.max r 1]> l.
Proof.
  rewrite list_insert_insert_eq.
  destruct (Nat.lt_ge_cases i (length l)) as [Hlt|Hge].
  - rewrite list_lookup_insert_eq by exact Hlt. reflexivity.
  - rewrite !list_insert_ge by lia. reflexivity.
Qed.

(** An interior entry is set to the count of the profile at [pos]. *)
Lemma set_interior_exact a i cfactor dist pos separation (g g' : globals World) :
  set_interior a i cfactor dist pos separation g = (Ok tt, g') ->
  exists w,
    (forall g0 : globals World, fst (comp_width dist pos separation g0) = Ok w) /\
    g' = {| world := world g;
            chan_width := set_axis_list a
                            (<[Z.to_nat i := interior_count cfactor w]>
                               (axis_list a (chan_width g)))
                            (chan_width g);
            log := log g |}.
Proof.
  unfold set_interior, bind.
  pose proof (comp_width_state dist pos separation g) as Hg.
  pose proof (fun g0 => comp_width_result dist pos separation g0 g) as Hres.
  destruct (comp_width dist pos separation g) as [r g1]. cbn [fst snd] in Hg, Hres.
  subst g1.
  destruct r as [v| | |]; try discriminate.
  unfold store, load, bind, get_chan_width, put_chan_width, ret.
  cbn [world chan_width log]. intros [= <-].
  exists v. split; [exact Hres|].
  unfold interior_count. f_equal.
  destruct a, (chan_width g); cbn; rewrite insert_max_default; reflexivity.
Qed.

Lemma filled_from_refl cfactor chan n lo l : filled_from cfactor chan n lo lo l l.
Proof. repeat split; intros; lia || reflexivity. Qed.

Lemma entry_of_same cfactor chan n l l' j :
  l' !! j = l !! j -> entry_of cfactor chan n l j -> entry_of cfactor chan n l' j.
Proof. intros Heq (w & Hw & Hl). exists w. split; [exact Hw|]. congruence. Qed.

(** Filling [lo + 1] and then [lo + 2 .. hi]. *)
Lemma filled_from_step cfactor chan n lo hi l w l' :
  (forall g : globals World,
     fst (comp_width chan (channel_position n (S lo)) (channel_separation n) g) = Ok w) ->
  (lo < hi)%nat ->
  filled_from cfactor chan n (S lo) hi (<[S lo := interior_count cfactor w]> l) l' ->
  filled_from cfactor chan n lo hi l l'.
Proof.
  intros Hw Hlt (Hlen & Hout & Hin). rewrite length_insert in Hlen, Hin.
  split; [exact Hlen|]. split.
  - intros j Hj. rewrite Hout by lia. apply list_lookup_insert_ne. lia.
  - intros j Hj Hjl. destruct (Nat.eq_dec j (S lo)) as [->|Hne].
    + exists w. split; [exact Hw|].
      rewrite Hout by lia. apply list_lookup_insert_eq. exact Hjl.
    + apply Hin; lia.
Qed.

Lemma fill_interior_exact todo a i n cfactor dist (g g' : globals World) :
  1 <= i ->
  fill_interior todo a i n cfactor dist (channel_separation n) g = (Ok tt, g') ->
  exists l',
    filled_from cfactor dist n (Z.to_nat i) (Z.to_nat i + todo)
      (axis_list a (chan_width g)) l' /\
    g' = {| world := world g; chan_width := set_axis_list a l' (chan_width g);
            log := log g |}.
Proof.
  revert i g. induction todo as [|todo IH]; intros i g Hi; cbn [fill_interior].
  - intros [= <-]. exists (axis_list a (chan_width g)).
    rewrite Nat.add_0_r, set_axis_list_same. split; [apply filled_from_refl|].
    destruct g; reflexivity.
  - unfold bind at 1.
    destruct (set_interior a (i + 1) cfactor dist _ _ g) as [r g1] eqn:Hset.
    destruct r as [[]| | |]; try discriminate.
    destruct (set_interior_exact _ _ _ _ _ _ _ _ Hset) as (w & Hw & ->).
    intros Hrest. apply IH in Hrest; [|lia].
    destruct Hrest as (l' & Hfilled & ->).
    cbn [world chan_width log] in *.
    rewrite axis_list_set in Hfilled. rewrite set_axis_list_twice.
    exists l'. split; [|reflexivity].
    replace (Z.to_nat (i + 1)) with (S (Z.to_nat i)) in Hfilled by lia.
    apply filled_from_step with (w := w); [|lia|].
    + intros g0. rewrite <- (Hw g0). unfold channel_position.
      destruct (Z.to_nat i) as [|k] eqn:Hk; [lia|].
      replace (Z.of_nat (S (S k)) - 1) with i by lia. reflexivity.
    + replace (Z.to_nat i + S todo)%nat with (S (Z.to_nat i) + todo)%nat by lia.
      exact Hfilled.
Qed.

Lemma init_axis_exact a n cfactor dist (g g' : globals World) :
  init_axis a n cfactor dist g = (Ok tt, g') ->
  exists l',
    filled_from cfactor dist n 0 (Z.to_nat (n - 1)) (axis_list a (chan_width g)) l' /\
    g' = {| world := world g; chan_width := set_axis_list a l' (chan_width g);
            log := log g |}.
Proof.
  unfold init_axis, when. destruct (Z.gtb_spec n 1) as [Hn|Hn].
  - unfold bind at 1.
    fold (channel_separation n).
    destruct (set_interior a 1 cfactor dist _ _ g) as [r g1] eqn:Hset.
    destruct r as [[]| | |]; try discriminate.
    destruct (set_interior_exact _ _ _ _ _ _ _ _ Hset) as (w & Hw & ->).
    intros Hrest. apply fill_interior_exact in Hrest; [|lia].
    destruct Hrest as (l' & Hfilled & ->).
    cbn [world chan_width log] in *.
    rewrite axis_list_set in Hfilled. rewrite set_axis_list_twice.
    exists l'. split; [|reflexivity].
    change (Z.to_nat 1) with 1%nat in Hfilled.
    apply filled_from_step with (w := w); [exact Hw|lia|].
    replace (Z.to_nat (n - 1)) with (1 + Z.to_nat (n - 2))%nat by lia.
    exact Hfilled.
  - intros [= <-]. exists (axis_list a (chan_width g)).
    rewrite set_axis_list_same. split; [|destruct g; reflexivity].
    replace (Z.to_nat (n - 1)) with 0%nat by lia. apply filled_from_refl.
Qed.

Lemma entries_after_fill cfactor chan n edge l l' :
  0 <= n -> length l = S (Z.to_nat n) ->
  filled_from cfactor chan n 0 (Z.to_nat (n - 1))
    (<[0%nat := edge]> (<[Z.to_nat n := edge]> l)) l' ->
  entries_of cfactor chan n edge l'.
Proof.
  intros Hn Hlen (Hlen' & Hout & Hin). rewrite !length_insert in Hlen', Hin.
  split; [lia|]. split; [|split].
  - rewrite (Hout 0%nat) by lia.
    apply list_lookup_insert_eq. rewrite length_insert. lia.
  - destruct (Nat.eq_dec (Z.to_nat n) 0%nat) as [H0|H0].
    + rewrite H0. rewrite (Hout 0%nat) by lia.
      apply list_lookup_insert_eq. rewrite length_insert. lia.
    + rewrite (Hout (Z.to_nat n)) by lia. rewrite list_lookup_insert_ne by lia.
      apply list_lookup_insert_eq. lia.
  - intros j Hj. apply Hin; lia.
Qed.

Lemma update_stats_twice n_x n_y cw :
  update_stats n_x n_y (update_stats n_x n_y cw) = update_stats n_x n_y cw.
Proof. reflexivity. Qed.

(** What [init_chan] leaves: the two lists, entry by entry, and the
    statistics of these lists; the world and the log are untouched. *)
Lemma init_chan_lists cfg cfactor dist (g g' : globals World) :
  0 <= nx cfg -> 0 <= ny cfg ->
  length (x_list (chan_width g)) = S (Z.to_nat (ny cfg)) ->
  length (y_list (chan_width g)) = S (Z.to_nat (nx cfg)) ->
  init_chan cfg cfactor dist g = (Ok tt, g') ->
  entries_of cfactor (chan_x_dist dist) (ny cfg) (io_count cfactor dist)
    (x_list (chan_width g')) /\
  entries_of cfactor (chan_y_dist dist) (nx cfg) (io_count cfactor dist)
    (y_list (chan_width g')) /\
  chan_width g' = update_stats (nx cfg) (ny cfg) (chan_width g') /\
  world g' = world g /\ log g' = log g.
Proof.
  intros Hnx Hny Hlx Hly. unfold init_chan.
  fold (io_count cfactor dist).
  unfold store at 1 2 3 4. unfold bind, get_chan_width, put_chan_width.
  cbn [world chan_width log].
  match goal with
  | |- context [init_axis XList (ny cfg) cfactor (chan_x_dist dist) ?g1] =>
      destruct (init_axis XList (ny cfg) cfactor (chan_x_dist dist) g1)
        as [r g2] eqn:Hx
  end.
  destruct r as [[]| | |]; try discriminate.
  apply init_axis_exact in Hx. destruct Hx as (lx & Hfx & ->).
  cbn [world chan_width log] in *.
  match goal with
  | |- context [init_axis YList (nx cfg) cfactor (chan_y_dist dist) ?g1] =>
      destruct (init_axis YList (nx cfg) cfactor (chan_y_dist dist) g1)
        as [r g3] eqn:Hy
  end.
  destruct r as [[]| | |]; try discriminate.
  apply init_axis_exact in Hy. destruct Hy as (ly & Hfy & ->).
  cbn [world chan_width log axis_list set_axis_list x_list y_list] in *.
  intros [= <-]. cbn [world chan_width log]. rewrite update_stats_twice.
  cbn [update_stats x_list y_list].
  split; [|split; [|split; [|split]]]; try reflexivity.
  - eapply entries_after_fill; [exact Hny|exact Hlx|exact Hfx].
  - eapply entries_after_fill; [exact Hnx|exact Hly|exact Hfy].
Qed.

(** X9. With profiles of known kinds and lists of the sizes of the
    grid, [init_chan] returns; it puts the I/O count at the two ends of
    each list and, at every entry in between, the count of the profile
    at the position of the entry: the relative density [comp_width]
    returns there, scaled by [cfactor], rounded, and raised to 1 when
    it is less.  It logs nothing and calls no collaborator. *)
Theorem init_chan_entries cfg cfactor dist (g : globals World) :
  0 <= nx cfg -> 0 <= ny cfg ->
  length (x_list (chan_width g)) = S (Z.to_nat (ny cfg)) ->
  length (y_list (chan_width g)) = S (Z.to_nat (nx cfg)) ->
  known_chan_type (type (chan_x_dist dist)) = true ->
  known_chan_type (type (chan_y_dist dist)) = true ->
  exists g',
    init_chan cfg cfactor dist g = (Ok tt, g') /\
    entries_of cfactor (chan_x_dist dist) (ny cfg) (io_count cfactor dist)
      (x_list (chan_width g')) /\
    entries_of cfactor (chan_y_dist dist) (nx cfg) (io_count cfactor dist)
      (y_list (chan_width g')) /\
    world g' = world g /\ log g' = log g.
Proof.
  intros Hnx Hny Hlx Hly Hkx Hky.
  destruct (init_chan_returns cfg cfactor dist g Hkx Hky) as (g' & Hrun & _).
  destruct (init_chan_lists cfg cfactor dist g g' Hnx Hny Hlx Hly Hrun)
    as (Hx & Hy & _ & Hw & Hl).
  exists g'. auto.
Qed.
End Entries.

(** ** The cached extrema *)

Section Extrema.
Context {World : Type} {env : Environment World}.

Lemma fold_max_bounds l : forall a,
  a <= fold_left Z.max l a /\
  (forall v, In v l -> v <= fold_left Z.max l a) /\
  (fold_left Z.max l a = a \/ In (fold_left Z.max l a) l).
Proof.
  induction l as [|x l IH]; intros a; cbn [fold_left].
  - split; [lia|]. split; [intros v []|auto].
  - destruct (IH (Z.max a x)) as (Hge & Hall & Hin).
    split; [lia|]. split.
    + intros v [<-|Hv]; [lia|auto].
    + destruct Hin as [Heq|Hin]; [|right; right; exact Hin].
      rewrite Heq. destruct (Z.max_spec a x) as [[_ ->]|[_ ->]]; [right; left|left];
        reflexivity.
Qed.

Lemma fold_min_bounds l : forall a,
  fold_left Z.min l a <= a /\
  (forall v, In v l -> fold_left Z.min l a <= v) /\
  (fold_left Z.min l a = a \/ In (fold_left Z.min l a) l).
Proof.
  induction l as [|x l IH]; intros a; cbn [fold_left].
  - split; [lia|]. split; [intros v []|auto].
  - destruct (IH (Z.min a x)) as (Hge & Hall & Hin).
    split; [lia|]. split.
    + intros v [<-|Hv]; [lia|auto].
    + destruct Hin as [Heq|Hin]; [|right; right; exact Hin].
      rewrite Heq. destruct (Z.min_spec a x) as [[_ ->]|[_ ->]]; [left|right; left];
        reflexivity.
Qed.

Lemma round_half_up_range x : INT_MIN <= round_half_up x <= INT_MAX.
Proof.
  unfold round_half_up, int_of_floor, int_of_option.
  destruct (round_to_Z false _) as [n|]; [|unfold INT_MIN, INT_MAX; lia].
  destruct (Z.leb_spec INT_MIN n), (Z.leb_spec n INT_MAX); cbn [andb];
    unfold INT_MIN, INT_MAX in *; lia.
Qed.

Lemma io_count_range cfactor dist : INT_MIN <= io_count cfactor dist <= INT_MAX.
Proof.
  unfold io_count. cbv zeta.
  pose proof (round_half_up_range (F32.mul (F32.of_int cfactor) (chan_width_io dist))).
  destruct (_ =? 0); [unfold INT_MIN, INT_MAX; lia|assumption].
Qed.

(** The extrema of a list that holds an [int]. *)
Lemma extrema_of_list l edge :
  In edge l -> INT_MIN <= edge <= INT_MAX ->
  In (fold_left Z.max l INT_MIN) l /\ In (fold_left Z.min l INT_MAX) l /\
  (forall v, In v l -> fold_left Z.min l INT_MAX <= v <= fold_left Z.max l INT_MIN).
Proof.
  intros Hin Hrange.
  destruct (fold_max_bounds l INT_MIN) as (Hge & Hall & Hmax).
  destruct (fold_min_bounds l INT_MAX) as (Hle & Hall' & Hmin).
  pose proof (Hall edge Hin). pose proof (Hall' edge Hin).
  split; [|split].
  - destruct Hmax as [Heq|Hmax]; [|exact Hmax].
    replace (fold_left Z.max l INT_MIN) with edge by lia. exact Hin.
  - destruct Hmin as [Heq|Hmin]; [|exact Hmin].
    replace (fold_left Z.min l INT_MAX) with edge by lia. exact Hin.
  - intros v Hv. split; auto.
Qed.

Lemma fold_max_from l : forall a b,
  fold_left Z.max l (Z.max a b) = Z.max a (fold_left Z.max l b).
Proof.
  induction l as [|x l IH]; intros a b; cbn [fold_left]; [reflexivity|].
  rewrite <- IH. f_equal. lia.
Qed.

Lemma fold_max_above l a :
  INT_MIN <= a -> fold_left Z.max l a = Z.max a (fold_left Z.max l INT_MIN).
Proof. intros Ha. rewrite <- fold_max_from. f_equal. lia. Qed.

(** X10. After [init_chan], in lists of the sizes of the grid, the
    cached extrema are those of the lists: [x_max] and [x_min] are
    entries of [x_list] and bound its entries, [y_max] and [y_min]
    those of [y_list], and [max] is the largest of 0, [x_max] and
    [y_max]. *)
Theorem init_chan_extrema cfg cfactor dist (g g' : globals World) :
  0 <= nx cfg -> 0 <= ny cfg ->
  length (x_list (chan_width g)) = S (Z.to_nat (ny cfg)) ->
  length (y_list (chan_width g)) = S (Z.to_nat (nx cfg)) ->
  init_chan cfg cfactor dist g = (Ok tt, g') ->
  let cw := chan_width g' in
  In (x_max cw) (x_list cw) /\ In (x_min cw) (x_list cw) /\
  (forall v, In v (x_list cw) -> x_min cw <= v <= x_max cw) /\
  In (y_max cw) (y_list cw) /\ In (y_min cw) (y_list cw) /\
  (forall v, In v (y_list cw) -> y_min cw <= v <= y_max cw) /\
  cw_max cw = Z.max 0 (Z.max (x_max cw) (y_max cw)).
Proof.
  intros Hnx Hny Hlx Hly Hrun. cbv zeta.
  destruct (init_chan_lists cfg cfactor dist g g' Hnx Hny Hlx Hly Hrun)
    as ((Hlenx & Hx0 & _) & (Hleny & Hy0 & _) & Hstats & _).
  pose proof (io_count_range cfactor dist) as Hrange.
  rewrite Hstats. cbn [update_stats cw_max x_max x_min y_max y_min x_list y_list].
  rewrite !take_ge by lia.
  apply list_elem_of_lookup_2, list_elem_of_In in Hx0, Hy0.
  destruct (extrema_of_list _ _ Hx0 Hrange) as (Hxmax & Hxmin & Hxall).
  destruct (extrema_of_list _ _ Hy0 Hrange) as (Hymax & Hymin & Hyall).
  repeat split; auto; try apply Hxall; try apply Hyall; auto.
  set (lx := x_list (chan_width g')) in *. set (ly := y_list (chan_width g')) in *.
  destruct (fold_max_bounds lx 0) as (Hgx & _).
  rewrite (fold_max_above ly) by (unfold INT_MIN; lia).
  rewrite (fold_max_above lx) by (unfold INT_MIN; lia).
  lia.
Qed.
End Extrema.

(** ** Uniform profiles *)

Section Uniform.
Context {World : Type} {env : Environment World}.

Lemma lookup_framed n edge inner j :
  0 <= n ->
  framed n edge inner !! j =
    if decide (j = 0%nat \/ j = Z.to_nat n) then Some edge
    else if decide (j < Z.to_nat n)%nat then Some inner else None.
Proof.
  intros Hn. unfold framed.
  destruct (decide (j = 0%nat \/ j = Z.to_nat n)) as [[-> | ->]|Hne].
  - apply list_lookup_insert_eq. rewrite length_insert, length_replicate. lia.
  - destruct (Nat.eq_dec (Z.to_nat n) 0%nat) as [H0|H0].
    + rewrite H0. apply list_lookup_insert_eq.
      rewrite length_insert, length_replicate. lia.
    + rewrite list_lookup_insert_ne by lia.
      apply list_lookup_insert_eq. rewrite length_replicate. lia.
  - rewrite !list_lookup_insert_ne by lia.
    destruct (decide (j < Z.to_nat n)%nat).
    + apply lookup_replicate_2. lia.
    + apply lookup_replicate_None. lia.
Qed.

(** The entries of a uniform profile. *)
Lemma uniform_entries (g : globals World) cfactor chan n edge l :
  0 <= n -> type chan = UNIFORM ->
  entries_of cfactor chan n edge l ->
  l = framed n edge (interior_count cfactor (peak chan)).
Proof.
  intros Hn Htype (Hlen & H0 & Hend & Hin).
  apply list_eq. intros j. rewrite lookup_framed by exact Hn.
  destruct (decide (j = 0%nat \/ j = Z.to_nat n)) as [[-> | ->]|Hne]; [exact H0|exact Hend|].
  destruct (decide (j < Z.to_nat n)%nat).
  - destruct (Hin j ltac:(lia)) as (w & Hw & Hl).
    rewrite Hl. do 2 f_equal.
    specialize (Hw g). unfold comp_width in Hw. rewrite Htype in Hw. cbn in Hw. congruence.
  - apply lookup_ge_None. lia.
Qed.
End Uniform.

Section UniformRun.
Context {World : Type} {env : Environment World}.

Lemma known_uniform chan : type chan = UNIFORM -> known_chan_type (type chan) = true.
Proof. intros ->. reflexivity. Qed.

(** X11. With uniform profiles [init_chan] gives every interior
    channel of a list the same count, the peak of the profile scaled by
    [cfactor], rounded, and raised to 1 when it is less; the two ends
    hold the I/O count. *)
Theorem uniform_profile_counts cfg cfactor dist (g : globals World) :
  0 <= nx cfg -> 0 <= ny cfg ->
  length (x_list (chan_width g)) = S (Z.to_nat (ny cfg)) ->
  length (y_list (chan_width g)) = S (Z.to_nat (nx cfg)) ->
  type (chan_x_dist dist) = UNIFORM -> type (chan_y_dist dist) = UNIFORM ->
  exists g',
    init_chan cfg cfactor dist g = (Ok tt, g') /\
    x_list (chan_width g')
    = framed (ny cfg) (io_count cfactor dist)
        (interior_count cfactor (peak (chan_x_dist dist))) /\
    y_list (chan_width g')
    = framed (nx cfg) (io_count cfactor dist)
        (interior_count cfactor (peak (chan_y_dist dist))).
Proof.
  intros Hnx Hny Hlx Hly Htx Hty.
  destruct (init_chan_returns cfg cfactor dist g (known_uniform _ Htx) (known_uniform _ Hty))
    as (g' & Hrun & _).
  destruct (init_chan_lists cfg cfactor dist g g' Hnx Hny Hlx Hly Hrun)
    as (Hx & Hy & _).
  exists g'. split; [exact Hrun|].
  split; apply (uniform_entries g); assumption.
Qed.

Lemma unit_scaling w :
  1 <= w <= 1000 -> round_half_up (F32.mul (F32.of_int w) float_one) = w.
Proof.
  intros Hw.
  assert (Hall : forallb unit_scaling_ok (widths_upto 1000) = true)
    by (vm_compute; reflexivity).
  pose proof (forallb_widths _ 1000 w Hall ltac:(lia)) as Hok.
  unfold unit_scaling_ok in Hok. lia.
Qed.

Lemma framed_same n w : 0 <= n -> framed n w w = replicate (S (Z.to_nat n)) w.
Proof.
  intros Hn. unfold framed.
  rewrite (list_insert_id _ (Z.to_nat n)) by (apply lookup_replicate_2; lia).
  apply list_insert_id. apply lookup_replicate_2. lia.
Qed.

Lemma fold_max_replicate k w a :
  fold_left Z.max (replicate (S k) w) a = Z.max a w.
Proof.
  revert a. induction k as [|k IH]; intros a; [reflexivity|].
  change (replicate (S (S k)) w) with (w :: replicate (S k) w).
  cbn [fold_left]. rewrite IH. lia.
Qed.

Lemma fold_min_replicate k w a :
  fold_left Z.min (replicate (S k) w) a = Z.min a w.
Proof.
  revert a. induction k as [|k IH]; intros a; [reflexivity|].
  change (replicate (S (S k)) w) with (w :: replicate (S k) w).
  cbn [fold_left]. rewrite IH. lia.
Qed.

(** X12. With uniform profiles of peak 1.0 and an I/O ratio of 1.0,
    [init_chan] with a factor [W] between 1 and 1000 gives every
    channel [W] tracks, and all five cached extrema are [W]. *)
Theorem unit_profiles_give_the_factor cfg W dist (g : globals World) :
  1 <= W <= 1000 -> 0 <= nx cfg -> 0 <= ny cfg ->
  length (x_list (chan_width g)) = S (Z.to_nat (ny cfg)) ->
  length (y_list (chan_width g)) = S (Z.to_nat (nx cfg)) ->
  type (chan_x_dist dist) = UNIFORM -> peak (chan_x_dist dist) = float_one ->
  type (chan_y_dist dist) = UNIFORM -> peak (chan_y_dist dist) = float_one ->
  chan_width_io dist = float_one ->
  exists g',
    init_chan cfg W dist g = (Ok tt, g') /\
    chan_width g'
    = {| cw_max := W; x_max := W; y_max := W; x_min := W; y_min := W;
         x_list := replicate (S (Z.to_nat (ny cfg))) W;
         y_list := replicate (S (Z.to_nat (nx cfg))) W |}.
Proof.
  intros HW Hnx Hny Hlx Hly Htx Hpx Hty Hpy Hio.
  destruct (init_chan_returns cfg W dist g (known_uniform _ Htx) (known_uniform _ Hty))
    as (g' & Hrun & _).
  destruct (init_chan_lists cfg W dist g g' Hnx Hny Hlx Hly Hrun)
    as (Hx & Hy & Hstats & _).
  apply (uniform_entries g) in Hx, Hy; try assumption.
  assert (Hedge : io_count W dist = W).
  { unfold io_count. rewrite Hio, unit_scaling by exact HW.
    destruct (Z.eqb_spec W 0); [lia|reflexivity]. }
  assert (Hinner : forall p, p = float_one -> interior_count W p = W).
  { intros p ->. unfold interior_count. rewrite unit_scaling by exact HW. lia. }
  rewrite Hedge, Hinner, framed_same in Hx, Hy by assumption.
  exists g'. split; [exact Hrun|].
  rewrite Hstats. unfold update_stats. rewrite Hx, Hy.
  rewrite !take_ge by (rewrite length_replicate; lia).
  rewrite !fold_max_replicate, !fold_min_replicate.
  f_equal; unfold INT_MIN, INT_MAX; lia.
Qed.
End UniformRun.

(** ** A delta profile on a grid of two rows *)

Section TwoRows.
Context {World : Type} {env : Environment World}.

Lemma above_minus_infinity v :
  is_nan v = false -> v <> S754_infinity true ->
  F64.gt v (S754_infinity true) = true.
Proof.
  destruct v as [s|[]| |s m e]; cbn; intros Hn Hi; try reflexivity;
    try discriminate; contradiction.
Qed.

Lemma below_infinity v : is_nan v = false -> F64.le v (S754_infinity false) = true.
Proof. destruct v as [s|[]| |s m e]; cbn; intros Hn; reflexivity || discriminate. Qed.

(** The distance from 0 to a peak that is a number or minus infinity,
    as a [double]: a number or plus infinity. *)
Lemma distance_from_zero p :
  valid_binary 24 128 p = true -> is_nan p = false -> p <> S754_infinity false ->
  let d := F64.of_float (F32.sub F32.zero p) in
  is_nan d = false /\ d <> S754_infinity true.
Proof.
  intros Hv Hn Hi. cbv zeta.
  destruct p as [s|[]| |s m e]; try discriminate; try contradiction.
  - destruct s; cbn; split; [reflexivity|discriminate|reflexivity|discriminate].
  - cbn. split; [reflexivity|discriminate].
  - cbn [F32.sub F32.zero SFsub].
    destruct (of_float_finite (negb s) m e Hv) as (k & _ & ->).
    split; [reflexivity|discriminate].
Qed.

(** With two rows the separation [1.0 / (ny - 2.0)] is infinite, and a
    delta profile has its peak at the one interior position. *)
Lemma delta_two_rows chan (g : globals World) :
  type chan = DELTA ->
  valid_binary 24 128 (xpeak chan) = true -> is_nan (xpeak chan) = false ->
  xpeak chan <> S754_infinity false ->
  channel_separation 2 = S754_infinity false /\
  comp_width chan (channel_position 2 1) (channel_separation 2) g
  = (Ok (F32.add (peak chan) (dc chan)), g).
Proof.
  intros Htype Hv Hn Hi.
  assert (Hsep : channel_separation 2 = S754_infinity false)
    by (vm_compute; reflexivity).
  split; [exact Hsep|].
  rewrite Hsep. unfold comp_width, channel_position. rewrite Htype.
  change (DELTA =? UNIFORM) with false. change (DELTA =? GAUSSIAN) with false.
  change (DELTA =? PULSE) with false. change (DELTA =? DELTA) with true. cbv iota.
  change (F64.div (F64.of_float (F32.neg (S754_infinity false))) F64.two)
    with (S754_infinity true).
  change (F64.div (F64.of_float (S754_infinity false)) F64.two)
    with (S754_infinity false).
  destruct (distance_from_zero (xpeak chan) Hv Hn Hi) as [Hd Hd'].
  rewrite above_minus_infinity, below_infinity by assumption.
  reflexivity.
Qed.

(** X13. On a grid of two rows the distance between two channels,
    [1.0 / (ny - 2.0)], is infinite, and [init_chan] gives the one
    interior channel of [x_list] the count of the peak of a delta
    profile, wherever the peak is: [x_list] is the I/O count, the count
    of [peak + dc], the I/O count. *)
Theorem delta_on_two_rows cfg cfactor dist (g : globals World) :
  ny cfg = 2 -> 0 <= nx cfg ->
  length (x_list (chan_width g)) = 3%nat ->
  length (y_list (chan_width g)) = S (Z.to_nat (nx cfg)) ->
  type (chan_x_dist dist) = DELTA ->
  known_chan_type (type (chan_y_dist dist)) = true ->
  valid_binary 24 128 (xpeak (chan_x_dist dist)) = true ->
  is_nan (xpeak (chan_x_dist dist)) = false ->
  xpeak (chan_x_dist dist) <> S754_infinity false ->
  exists g',
    init_chan cfg cfactor dist g = (Ok tt, g') /\
    x_list (chan_width g')
    = [io_count cfactor dist;
       interior_count cfactor
         (F32.add (peak (chan_x_dist dist)) (dc (chan_x_dist dist)));
       io_count cfactor dist].
Proof.
  intros Hny Hnx Hlx Hly Htype Hky Hv Hn Hi.
  assert (Hkx : known_chan_type (type (chan_x_dist dist)) = true)
    by (rewrite Htype; reflexivity).
  destruct (init_chan_returns cfg cfactor dist g Hkx Hky) as (g' & Hrun & _).
  destruct (init_chan_lists cfg cfactor dist g g' Hnx ltac:(lia)
              ltac:(rewrite Hny; exact Hlx) Hly Hrun)
    as ((Hlen & H0 & H2 & Hin) & _).
  exists g'. split; [exact Hrun|].
  rewrite Hny in *. change (Z.to_nat 2) with 2%nat in *.
  destruct (Hin 1%nat ltac:(lia)) as (w & Hw & H1).
  destruct (delta_two_rows (chan_x_dist dist) g Htype Hv Hn Hi) as [_ Hpeak].
  specialize (Hw g). rewrite Hpeak in Hw. cbn [fst] in Hw. injection Hw as <-.
  destruct (x_list (chan_width g')) as [|a [|b [|c [|]]]]; try discriminate.
  cbn in H0, H1, H2. congruence.
Qed.
End TwoRows.

(** ** A circuit that does not route *)

Section Unroutable.
Context {World : Type} {env : Environment World}.

(** X14. When the router never succeeds, an unconstrained search that
    starts at or above the floor of Fs does not return: it throws the
    error of a width above 1000. *)
Theorem unroutable_search_throws cfg verify hint fuel l0 (g : globals World) :
  (forall width_fac w, fst (try_route width_fac w) = false) ->
  fixed_width_mode cfg = false ->
  init_result cfg hint = Ok l0 -> Fs cfg <= current l0 * 3 ->
  (search_fuel <= fuel)%nat ->
  exists g',
    binary_search_place_and_route cfg verify hint fuel g = (Throw WidthAbove1000, g').
Proof.
  intros Hrouter Hmode Hinit HFs Hfuel.
  destruct (binary_search_place_and_route cfg verify hint fuel g) as [r g'] eqn:Hrun.
  exists g'. f_equal.
  pose proof (binary_search_run _ _ _ _ _ _ _ Hrun) as Hcut.
  rewrite Hinit in Hcut. destruct Hcut as (r1 & g1 & Hloop & Hrest).
  destruct (search_inv_init cfg hint l0 Hmode Hinit) as [Hinv Hf].
  pose proof (initial_iterations_left cfg hint l0 Hmode Hinit) as Hleft.
  pose proof (search_loop_enough_fuel cfg fuel Hmode l0
                (add_events g (init_events cfg hint)) Hinv ltac:(lia)) as Hne.
  rewrite Hloop in Hne. cbn [fst] in Hne.
  set (Inv := fun l => search_inv l /\ final l = -1 /\ high l = -1 /\
                       current l0 <= current l).
  destruct (performs_search_loop (fun _ => True) cfg Inv)
    with (fuel := fuel) (l := l0) (g := add_events g (init_events cfg hint))
         (r := r1) (g' := g1) as [_ Hr]; auto.
  - intros l g0 l' (Hinv1 & Hf1 & Hh1 & Hc1) _ Hres.
    unfold trial_answer in Hres. rewrite Hrouter in Hres.
    destruct (search_inv_step cfg l _ l' Hmode Hinv1 Hf1 Hres) as [Hinv' _].
    destruct Hinv1 as (Hclip & _ & _ & Hstage).
    destruct (continue_cases cfg l _ l' Hclip Hres)
      as (Hguard & _ & _ & _ & _ & Hl' & Hh' & Hf' & Hc').
    pose proof (unconstrained_guard cfg l Hmode Hguard) as Hle.
    rewrite Hmode, Hh1 in Hc'. cbn [Z.eqb Pos.eqb negb] in Hc'.
    rewrite Hh1 in Hf'. cbn [Z.eqb Pos.eqb negb andb] in Hf'.
    destruct (Hstage Hf1) as [Hs|[Hs|Hs]]; unfold doubling, halving, bisecting in Hs;
      try lia.
    rewrite doubled in Hc' by lia.
    assert (Hcur : current l' = 2 * current l).
    { rewrite Hc'. unfold step_up.
      destruct (udsd_multiplier_cases cfg) as [-> | ->]; lia. }
    split; [exact Hinv'|]. split; [congruence|]. split; [congruence|]. lia.
  - intros. apply Forall_forall. auto.
  - unfold Inv. pose proof (initial_bounds cfg hint l0 Hinit) as (_ & Hh & _).
    split; [exact Hinv|]. split; [exact Hf|]. split; [exact Hh|]. lia.
  - destruct r1 as [l1|e| |]; try contradiction.
    + exfalso.
      destruct Hr as [[(_ & Hf1 & _) Hne1]|(l & g0 & (_ & _ & _ & Hc) & _ & Hres)];
        [contradiction|].
      pose proof (iteration_result_cases cfg l (trial_answer cfg l g0)) as Hcases.
      rewrite Hres in Hcases. lia.
    + destruct Hrest as [-> _]. f_equal.
      destruct Hr as (l & g0 & _ & _ & Hres).
      pose proof (iteration_result_cases cfg l (trial_answer cfg l g0)) as Hcases.
      rewrite Hres in Hcases.
      destruct Hcases as [Hguard|(_ & _ & _ & _ & _ & Hfixed & _)]; [|congruence].
      unfold width_guard in Hguard. rewrite Hmode in Hguard.
      destruct (current l >? 1000); congruence.
Qed.
End Unroutable.

(** ** The order of the connections of a switch block *)

(** X15. [operator<] of [SB_Side_Connection] is a strict total order on
    the connections: no connection is below itself, the order is
    transitive, and two connections neither of which is below the other
    are the same connection, so that [std::map] keeps one entry for each
    pair of sides. *)
Theorem side_connection_order :
  (forall c, SB_Side_Connection.lt c c = false) /\
  (forall a b c,
     SB_Side_Connection.lt a b = true -> SB_Side_Connection.lt b c = true ->
     SB_Side_Connection.lt a c = true) /\
  (forall a b,
     SB_Side_Connection.lt a b = false -> SB_Side_Connection.lt b a = false -> a = b).
Proof.
  split; [|split].
  - intros [[] []]; reflexivity.
  - intros [[] []] [[] []] [[] []]; cbn; congruence.
  - intros [[] []] [[] []]; cbn; congruence.
Qed.

(** ** The errors of [place_and_route] *)

Section Errors.
Context {World : Type} {env : Environment World}.

(** The errors of an unconstrained search. *)
Lemma unconstrained_errors cfg verify hint fuel (g : globals World) :
  fixed_width_mode cfg = false ->
  match fst (binary_search_place_and_route cfg verify hint fuel g) with
  | Throw (AppearsUnroutable _) | Throw (WneedTooLarge _)
  | Throw (GivenOddChanWidth _) => False
  | AssertFailed => hint <= 0 /\ max_pins_per_clb cfg = 0
  | _ => True
  end.
Proof.
  intros Hmode.
  destruct (binary_search_place_and_route cfg verify hint fuel g) as [r g'] eqn:Hrun.
  cbn [fst].
  destruct (performs_binary_search (fun _ => True) cfg verify hint fuel
              (fun _ => True) (fun _ => True)) with (g := g) (r := r) (g' := g')
    as [_ Hr]; try assumption; try (intros; apply Forall_forall; intros; exact I);
    try (intros; exact I).
  destruct r as [w|e| |]; try exact I.
  - destruct Hr as [Hinit|[(l & g0 & _ & _ & Hres)|(chan & _ & -> & _)]];
      [| |exact I].
    + unfold init_result in Hinit.
      destruct (directionality cfg);
        (destruct (negb _); [injection Hinit as <-; exact I|]);
        destruct (_ >? 0); discriminate.
    + pose proof (iteration_result_cases cfg l (trial_answer cfg l g0)) as Hc.
      rewrite Hres in Hc.
      destruct Hc as [Hguard|(_ & _ & _ & _ & _ & Hfixed & _)]; [|congruence].
      unfold width_guard in Hguard. rewrite Hmode in Hguard.
      destruct (current l >? 1000); [injection Hguard as <-; exact I|discriminate].
  - unfold init_result in Hr.
    destruct (match directionality cfg with
              | UNI_DIRECTIONAL => _
              | BI_DIRECTIONAL => _
              end); [discriminate|].
    destruct (Z.gtb_spec (current (initial_guess cfg hint)) 0) as [|Hle];
      [discriminate|].
    unfold initial_guess in Hle. rewrite Hmode in Hle.
    destruct (Z.gtb_spec hint 0); cbn [current] in Hle; [lia|].
    split; [lia|].
    destruct (fold_max_bounds (num_pins cfg) 0) as (Hge & _).
    unfold max_pins_per_clb in *. lia.
Qed.

(** X16. [place_and_route] calls the search only when no width is
    fixed, so the two errors of a search around a fixed width, "appears
    to be unroutable" and "exceedingly large Wneed", are never thrown.
    An assertion fails only when routing is on and either no width is
    fixed, no hint is given and no block type has a pin (the assertion
    of the search on its initial width), or a width is fixed and
    [alloc_net_delay], called after the placement, returned a null
    pointer (the assertion on [net_delay] after the routing).  In the
    second case, with a fixed width that passes the parity check, the
    assertion does fail. *)
Theorem place_and_route_errors cfg fuel (g : globals World) :
  match fst (place_and_route cfg fuel g) with
  | Throw (AppearsUnroutable _) | Throw (WneedTooLarge _) => False
  | AssertFailed =>
      doRouting cfg = true /\
      if NO_FIXED_CHANNEL_WIDTH =? fixed_channel_width cfg
      then min_channel_width_hint cfg <= 0 /\ max_pins_per_clb cfg = 0
      else fst (alloc_net_delay (world (snd (placement cfg g)))) = false
  | _ => True
  end /\
  (doRouting cfg = true ->
   fixed_channel_width cfg <> NO_FIXED_CHANNEL_WIDTH ->
   (directionality cfg = UNI_DIRECTIONAL -> Z.rem (fixed_channel_width cfg) 2 = 0) ->
   fst (alloc_net_delay (world (snd (placement cfg g)))) = false ->
   fst (place_and_route cfg fuel g) = AssertFailed).
Proof.
  destruct (placement_returns cfg g) as (g0 & Hplace & _). rewrite Hplace.
  cbn [snd]. split.
  - unfold place_and_route. unfold bind at 1. rewrite Hplace.
    destruct (doRouting cfg); cbn [negb].
    + destruct (Z.eqb_spec NO_FIXED_CHANNEL_WIDTH (fixed_channel_width cfg))
        as [Heq|Hne].
      * assert (Hmode : fixed_width_mode cfg = false)
          by (unfold fixed_width_mode; rewrite <- Heq, Z.eqb_refl; reflexivity).
        pose proof (unconstrained_errors cfg (verify_binary_search cfg)
                      (min_channel_width_hint cfg) fuel g0 Hmode) as Herr.
        unfold bind.
        destruct (binary_search_place_and_route cfg _ _ fuel g0) as [[w|e| |] g1];
          cbn [fst] in *.
        -- exact I.
        -- destruct e; auto.
        -- destruct Herr. auto.
        -- exact I.
      * unfold bind, allocate_net_delay, route, vpr_throw, ret, printf, emit, extern,
          VTR_ASSERT.
        destruct (directionality cfg);
          [destruct (negb (Z.rem (fixed_channel_width cfg) 2 =? 0)); [exact I|]|];
          destruct (alloc_net_delay (world g0)) as [[] w0];
          destruct (try_route _ _) as [[] w]; cbn [fst negb]; auto.
    + unfold bind, when, extern, ret. destruct (negb _); exact I.
  - intros Hroute Hfixed Heven Hnull.
    unfold place_and_route. unfold bind at 1. rewrite Hplace, Hroute. cbn [negb].
    destruct (Z.eqb_spec NO_FIXED_CHANNEL_WIDTH (fixed_channel_width cfg));
      [congruence|].
    unfold bind, allocate_net_delay, route, vpr_throw, ret, printf, emit, extern,
      VTR_ASSERT.
    destruct (directionality cfg);
      [rewrite Heven by reflexivity; cbn [Z.eqb negb]|];
      cbn beta iota;
      (destruct (alloc_net_delay (world g0)) as [b w0]; cbn [fst] in Hnull; subst b;
       cbn [world];
       destruct (try_route (fixed_channel_width cfg) w0) as [[] w]; reflexivity).
Qed.
End Errors.

(** ** The width returned *)

Section Returned.
Context {World : Type} {env : Environment World}.

(** The range of the width the search returns. *)
Lemma returned_width_bounds cfg verify hint fuel (g : globals World) w g' :
  binary_search_place_and_route cfg verify hint fuel g = (Ok w, g') ->
  w = -1 \/
  (w <= width_bound cfg /\ (Fs cfg <= w * 3 \/ 1 <= w) /\
   (directionality cfg = UNI_DIRECTIONAL -> Z.even w = true)).
Proof.
  intros Hrun.
  set (good := fun v => v <= width_bound cfg /\ (Fs cfg <= v * 3 \/ 1 <= v) /\
                        (directionality cfg = UNI_DIRECTIONAL -> Z.even v = true)).
  set (Inv := fun l => Fc_clipped l = false /\
                       (high l = -1 \/ good (high l)) /\
                       (final l = -1 \/ final l = high l) /\
                       (directionality cfg = UNI_DIRECTIONAL ->
                        Z.even (current l) = true)).
  set (J := fun l => Fc_clipped l = false /\
                     (final l = -1 \/ good (final l)) /\
                     (current l < 1 \/
                      (current l <= width_bound cfg /\
                       (directionality cfg = UNI_DIRECTIONAL ->
                        Z.even (current l) = true)))).
  assert (Hexit : forall l, search_exit cfg Inv l ->
            Fc_clipped l = false /\ (final l = -1 \/ good (final l))).
  { intros l [[(Hclip & Hhigh & Hfin & _) Hne]|(l0 & g0 & (Hclip & Hhigh & _) & _ & Hres)].
    - split; [exact Hclip|]. destruct Hfin as [Hfin|Hfin]; [auto|].
      rewrite Hfin. exact Hhigh.
    - pose proof (iteration_result_cases cfg l0 (trial_answer cfg l0 g0)) as Hc.
      rewrite Hres in Hc. destruct Hc as (_ & _ & ->).
      cbn [Fc_clipped high final set_final]. auto. }
  destruct (performs_binary_search (fun _ => True) cfg verify hint fuel Inv J)
    with (g := g) (r := Ok w) (g' := g') as [_ (l & Hl & ->)];
    try assumption; try (intros; apply Forall_forall; intros; exact I);
    try (intros; exact I).
  - intros l Hinit. destruct (initial_bounds cfg hint l Hinit) as (Hclip & Hh & Hf).
    repeat split; auto.
    intros Hdir. apply (parity_inv_init cfg hint l Hdir Hinit).
  - intros l g0 l' (Hclip & Hhigh & Hfin & Hpar) Hf Hres.
    destruct (continue_cases cfg l _ l' Hclip Hres)
      as (Hguard & HFs & Hclip' & _ & _ & Hfields).
    apply guard_bound in Hguard.
    assert (Hcur' : directionality cfg = UNI_DIRECTIONAL -> Z.even (current l') = true).
    { intros Hdir.
      assert (Hm : udsd_multiplier cfg = 2)
        by (unfold udsd_multiplier; rewrite Hdir; reflexivity).
      destruct (trial_answer cfg l g0);
        destruct Hfields as (_ & _ & _ & ->); unfold step_up; rewrite Hm;
        apply even_round_to_two. }
    split; [exact Hclip'|].
    destruct (trial_answer cfg l g0).
    + destruct Hfields as (-> & _ & -> & _).
      split; [right; repeat split; auto|]. split; [|exact Hcur'].
      destruct (_ || _); auto.
    + destruct Hfields as (_ & -> & -> & _).
      split; [exact Hhigh|]. split; [|exact Hcur'].
      destruct (_ && _); auto.
  - intros l Hl. destruct (Hexit l Hl) as [Hclip Hfin].
    split; [exact Hclip|]. split; [exact Hfin|].
    cbn [current set_current].
    destruct Hfin as [->|(Hb & _ & Hev)]; [left; lia|].
    right. split; [lia|]. intros Hdir.
    replace (final l - 2) with (final l + 2 * (-1)) by lia.
    rewrite Z.even_add_mul_2. auto.
  - intros l s (Hclip & Hfin & Hcur) Hone.
    destruct Hcur as [Hcur|[Hb Hev]]; [lia|].
    split; [rewrite verified_keeps_flag; exact Hclip|].
    unfold verified_locals. rewrite Hclip. cbn [Bool.eqb]. rewrite andb_true_r.
    destruct (directionality cfg) eqn:Hdir, s;
      cbn [current final set_current set_final]; (split; [|right; split; [lia|]]);
      try exact Hfin; try discriminate;
      try (right; repeat split; auto; lia);
      intros _; apply even_minus_two; auto.
  - destruct verify; [destruct Hl as (_ & Hfin & _)|destruct (Hexit l Hl) as [_ Hfin]];
      (destruct Hfin as [Hfin|Hfin]; [left; exact Hfin|right; exact Hfin]).
Qed.

(** A width the search returns, other than [-1], is the width of a
    trial that the router answered with a success. *)
Lemma returned_width_tried cfg verify hint fuel (g : globals World) w g' :
  binary_search_place_and_route cfg verify hint fuel g = (Ok w, g') ->
  w = -1 \/ exists evs, log g' = log g ++ evs /\ In (Routed_at w true) evs.
Proof.
  intros Hrun.
  set (Phi := fun l evs =>
                Fc_clipped l = false /\
                (high l = -1 \/ In (Routed_at (high l) true) evs) /\
                (final l = -1 \/ final l = high l)).
  set (Q := fun l evs =>
              Fc_clipped l = false /\
              (final l = -1 \/ In (Routed_at (final l) true) evs)).
  assert (Hexit : forall l evs, (Phi l evs /\ final l <> -1) \/ Q l evs -> Q l evs).
  { intros l evs [[(Hclip & Hhigh & Hfin) Hne]|Hq]; [|exact Hq].
    split; [exact Hclip|]. destruct Hfin as [Hfin|Hfin]; [auto|].
    rewrite Hfin. exact Hhigh. }
  destruct (binary_search_tracks cfg verify hint fuel Phi Q Q g w g')
    as (l & evs & cw & Hl & -> & Hlog); [..|exact Hrun|].
  - intros l0 Hinit. destruct (initial_bounds cfg hint l0 Hinit) as (Hclip & Hh & Hf).
    unfold Phi. auto.
  - intros l evs g0 l' (Hclip & Hhigh & Hfin) Hf Hres.
    destruct (continue_cases cfg l _ l' Hclip Hres)
      as (Hguard & HFs & Hclip' & _ & _ & Hfields).
    unfold Phi. split; [exact Hclip'|].
    rewrite trial_events by assumption.
    destruct (trial_answer cfg l g0).
    + destruct Hfields as (Hh' & _ & Hf' & _). rewrite Hh', Hf', Hf.
      split; [|destruct (_ || _); auto].
      right. apply in_or_app. right. right. apply in_or_app. right. left. reflexivity.
    + destruct Hfields as (_ & Hh' & Hf' & _). rewrite Hh', Hf', Hf.
      split; [|destruct (_ && _); auto].
      destruct Hhigh as [Hh|Hin]; [left; exact Hh|right].
      apply in_or_app. left. exact Hin.
  - intros l evs (Hclip & Hhigh & Hfin) Hf Hguard HFs.
    unfold Q. cbn [Fc_clipped final set_final]. split; [exact Hclip|].
    destruct Hhigh as [Hh|Hin]; [left; exact Hh|right].
    apply in_or_app. left. exact Hin.
  - intros l evs Hl. apply Hexit in Hl. destruct Hl as [Hclip Hfin].
    unfold Q. cbn [Fc_clipped final set_current]. split; [exact Hclip|].
    destruct Hfin as [Hf|Hin]; [left; exact Hf|right].
    apply in_or_app. left. exact Hin.
  - intros l evs g0 [Hclip Hfin] Hone _.
    destruct (verified_fields cfg l (trial_answer cfg l g0) Hclip)
      as (Hclip1 & Hfin1 & _).
    cbv zeta in Hclip1, Hfin1. unfold Q. split; [exact Hclip1|]. rewrite Hfin1.
    assert (Hin : In (Routed_at (current l) (trial_answer cfg l g0))
                     (verify_events cfg l (trial_answer cfg l g0))).
    { unfold verify_events. apply in_or_app. right. left. reflexivity. }
    destruct (trial_answer cfg l g0).
    + right. apply in_or_app. right. exact Hin.
    + destruct Hfin as [Hf|Hin']; [left; exact Hf|right].
      apply in_or_app. left. exact Hin'.
  - assert (Hq : Q l evs) by (destruct verify; [exact Hl|apply Hexit; exact Hl]).
    destruct Hq as [_ [Hf|Hin]]; [left; exact Hf|right].
    exists (evs ++ closing_events l cw). split; [exact Hlog|].
    apply in_or_app. left. exact Hin.
Qed.

(** X17. The width the search returns is [-1] or the width of one of
    its trials, which the router answered with a success: at most 1000
    (four times the fixed width in a search around one), not below the
    floor of Fs or at least 1, and even under unidirectional
    routing. *)
Theorem returned_width_range cfg verify hint fuel (g : globals World) w g' :
  binary_search_place_and_route cfg verify hint fuel g = (Ok w, g') ->
  w = -1 \/
  ((exists evs, log g' = log g ++ evs /\ In (Routed_at w true) evs) /\
   w <= width_bound cfg /\ (Fs cfg <= w * 3 \/ 1 <= w) /\
   (directionality cfg = UNI_DIRECTIONAL -> Z.even w = true)).
Proof.
  intros Hrun.
  destruct (returned_width_tried cfg verify hint fuel g w g' Hrun) as [Hw|Htried];
    [left; exact Hw|].
  destruct (returned_width_bounds cfg verify hint fuel g w g' Hrun) as [Hw|Hrange];
    [left; exact Hw|].
  right. split; [exact Htried|exact Hrange].
Qed.
End Returned.

(** ** The first trial of a search from a hint *)

Section FirstTrial.
Context {World : Type} {env : Environment World}.

Lemma hint_tenths h : 0 <= h <= 1000 -> div_scale h scale_hint = 10 * h / 11.
Proof.
  intros Hh.
  assert (Hall : forallb hint_tenths_ok (widths_upto 1000) = true)
    by (vm_compute; reflexivity).
  pose proof (forallb_widths _ 1000 h Hall ltac:(lia)) as Hok.
  unfold hint_tenths_ok in Hok. apply Z.eqb_eq in Hok. exact Hok.
Qed.

(** X18. The first iteration of an unconstrained search from a hint
    [h]: after a success the upper bound is [h] and the next width is
    [10 * h / 11], rounded up to the step; after a failure the lower
    bound is [h] and the next width is [2 * h]. *)
Theorem first_trial_from_hint cfg hint l0 (g : globals World) l' g' :
  fixed_width_mode cfg = false -> 0 < hint ->
  init_result cfg hint = Ok l0 ->
  search_iteration cfg l0 g = (Ok (Continue, l'), g') ->
  current l0 = hint /\
  if trial_answer cfg l0 g
  then high l' = hint /\ low l' = -1 /\ current l' = step_up cfg (10 * hint / 11)
  else low l' = hint /\ high l' = -1 /\ current l' = 2 * hint.
Proof.
  intros Hmode Hhint Hinit Hstep.
  destruct (search_iteration_eq cfg l0 g) as [w Heq]. rewrite Heq in Hstep.
  injection Hstep as Hres _. clear Heq.
  destruct (initial_bounds cfg hint l0 Hinit) as (Hclip & Hh & Hf).
  destruct (continue_cases cfg l0 _ l' Hclip Hres)
    as (Hguard & _ & _ & _ & _ & Hfields).
  pose proof (unconstrained_guard cfg l0 Hmode Hguard) as Hle.
  assert (Hl0 : current l0 = hint /\ low l0 = -1 /\ using_minw_hint l0 = true /\
                attempt_count l0 = 0).
  { unfold init_result in Hinit.
    destruct (match directionality cfg with
              | UNI_DIRECTIONAL => _
              | BI_DIRECTIONAL => _
              end); [discriminate|].
    destruct (_ >? 0); [|discriminate]. injection Hinit as <-.
    unfold initial_guess. rewrite Hmode.
    destruct (Z.gtb_spec hint 0); [cbn; auto|lia]. }
  destruct Hl0 as (Hc & Hl & Hu & Ha).
  split; [exact Hc|].
  rewrite Hmode, Hc, Hl, Hh, Hu, Ha in Hfields.
  cbn [Z.eqb Pos.eqb negb andb] in Hfields.
  destruct (trial_answer cfg l0 g).
  - destruct Hfields as (Hh' & Hl' & _ & Hc').
    rewrite hint_tenths in Hc' by lia. auto.
  - destruct Hfields as (Hl' & Hh' & _ & Hc').
    rewrite doubled in Hc' by lia.
    repeat split; auto.
    rewrite Hc'. unfold step_up.
    destruct (udsd_multiplier_cases cfg) as [-> | ->]; lia.
Qed.
End FirstTrial.

(** ** The error of an odd width *)

Section OddWidth.
Context {World : Type} {env : Environment World}.

(** Where the errors of a search come from. *)
Lemma search_throw_cases cfg verify hint fuel (g : globals World) e :
  fst (binary_search_place_and_route cfg verify hint fuel g) = Throw e ->
  init_result cfg hint = Throw e \/
  (exists l (g0 : globals World),
     iteration_result cfg l (trial_answer cfg l g0) = Throw e) \/
  (exists t, e = UnknownChannelType t).
Proof.
  destruct (binary_search_place_and_route cfg verify hint fuel g) as [r g'] eqn:Hrun.
  cbn [fst]. intros ->.
  destruct (performs_binary_search (fun _ => True) cfg verify hint fuel
              (fun _ => True) (fun _ => True)) with (g := g) (r := @Throw Z e) (g' := g')
    as [_ Hr]; try assumption; try (intros; apply Forall_forall; intros; exact I);
    try (intros; exact I).
  destruct Hr as [Hinit|[(l & g0 & _ & _ & Hres)|(chan & _ & -> & _)]]; eauto.
Qed.

Lemma init_throws cfg verify hint fuel (g : globals World) e :
  init_result cfg hint = Throw e ->
  fst (binary_search_place_and_route cfg verify hint fuel g) = Throw e.
Proof.
  intros Hinit. unfold binary_search_place_and_route, bind.
  rewrite init_search_eq, Hinit. reflexivity.
Qed.

Lemma max_pins_even_guess cfg :
  Z.rem (max_pins_per_clb cfg + Z.rem (max_pins_per_clb cfg) 2) 2 = 0.
Proof. lia. Qed.

(** X19. An unconstrained search throws the error of an odd width
    exactly when routing is unidirectional and the hint is positive
    and odd; without a hint the initial width, the largest pin count
    rounded up to an even number, is even. *)
Theorem odd_width_error cfg verify hint fuel (g : globals World) c :
  fixed_width_mode cfg = false ->
  fst (binary_search_place_and_route cfg verify hint fuel g)
  = Throw (TriedOddChanWidth c) <->
  directionality cfg = UNI_DIRECTIONAL /\ 0 < hint /\ Z.odd hint = true /\ c = hint.
Proof.
  intros Hmode.
  assert (Hguess : current (initial_guess cfg hint)
                   = if hint >? 0 then hint
                     else max_pins_per_clb cfg + Z.rem (max_pins_per_clb cfg) 2).
  { unfold initial_guess. rewrite Hmode. destruct (hint >? 0); reflexivity. }
  split.
  - intros Hrun.
    destruct (search_throw_cases _ _ _ _ _ _ Hrun)
      as [Hinit|[(l & g0 & Hres)|(t & Ht)]]; [| |discriminate Ht].
    + destruct (init_result_cases cfg hint)
        as [(Hdir & Hodd & He)|[(_ & _ & He)|(_ & _ & [(_ & He)|(_ & He)])]];
        rewrite He in Hinit; try discriminate Hinit.
      injection Hinit as <-. rewrite Hguess in *.
      destruct (Z.gtb_spec hint 0); [|pose proof (max_pins_even_guess cfg); lia].
      repeat split; auto.
      rewrite <- Z.negb_even.
      destruct (Z.even hint) eqn:Hev; [|reflexivity].
      apply Z.even_spec in Hev. destruct Hev as [k ->]. lia.
    + pose proof (iteration_result_cases cfg l (trial_answer cfg l g0)) as Hc.
      rewrite Hres in Hc.
      destruct Hc as [Hguard|(_ & _ & _ & He & _)]; [|discriminate He].
      unfold width_guard in Hguard. rewrite Hmode in Hguard.
      destruct (current l >? 1000); discriminate Hguard.
  - intros (Hdir & Hhint & Hodd & ->).
    apply init_throws. unfold init_result. rewrite Hdir, Hguess.
    destruct (Z.gtb_spec hint 0); [|lia].
    destruct (Z.eqb_spec (Z.rem hint 2) 0) as [Hrem|]; [|reflexivity].
    apply rem_two_even in Hrem. rewrite <- Z.negb_even, Hrem in Hodd. discriminate.
Qed.
End OddWidth.

(** ** What [init_chan] keeps of the lists it finds *)

Section Overwrites.
Context {World : Type} {env : Environment World}.

(** Two lists with the entries of the same profile are the same. *)
Lemma entries_of_unique (g : globals World) cfactor chan n edge l l' :
  entries_of cfactor chan n edge l -> entries_of cfactor chan n edge l' -> l = l'.
Proof.
  intros (Hlen & H0 & Hend & Hin) (Hlen' & H0' & Hend' & Hin').
  apply list_eq. intros j.
  destruct (decide (j = 0%nat \/ j = Z.to_nat n)) as [[-> | ->]|Hne]; [congruence..|].
  destruct (decide (j < Z.to_nat n)%nat).
  - destruct (Hin j ltac:(lia)) as (w & Hw & ->).
    destruct (Hin' j ltac:(lia)) as (w' & Hw' & ->).
    specialize (Hw g). specialize (Hw' g). congruence.
  - rewrite !lookup_ge_None_2 by lia. reflexivity.
Qed.

(** X20. With profiles of known kinds, [init_chan] leaves channel
    widths that depend on its arguments and on the sizes of the grid
    alone, not on what the lists held before; and a second call with
    the same arguments changes nothing. *)
Theorem init_chan_overwrites cfg cfactor dist (g h : globals World) :
  0 <= nx cfg -> 0 <= ny cfg ->
  length (x_list (chan_width g)) = S (Z.to_nat (ny cfg)) ->
  length (y_list (chan_width g)) = S (Z.to_nat (nx cfg)) ->
  length (x_list (chan_width h)) = S (Z.to_nat (ny cfg)) ->
  length (y_list (chan_width h)) = S (Z.to_nat (nx cfg)) ->
  known_chan_type (type (chan_x_dist dist)) = true ->
  known_chan_type (type (chan_y_dist dist)) = true ->
  exists g' h',
    init_chan cfg cfactor dist g = (Ok tt, g') /\
    init_chan cfg cfactor dist h = (Ok tt, h') /\
    chan_width g' = chan_width h' /\
    init_chan cfg cfactor dist g' = (Ok tt, g').
Proof.
  intros Hnx Hny Hgx Hgy Hhx Hhy Hkx Hky.
  assert (Hsame : forall a a' b b' : globals World,
            length (x_list (chan_width a)) = S (Z.to_nat (ny cfg)) ->
            length (y_list (chan_width a)) = S (Z.to_nat (nx cfg)) ->
            length (x_list (chan_width b)) = S (Z.to_nat (ny cfg)) ->
            length (y_list (chan_width b)) = S (Z.to_nat (nx cfg)) ->
            init_chan cfg cfactor dist a = (Ok tt, a') ->
            init_chan cfg cfactor dist b = (Ok tt, b') ->
            chan_width a' = chan_width b').
  { intros a a' b b' Hax Hay Hbx Hby Ha Hb.
    destruct (init_chan_lists cfg cfactor dist a a' Hnx Hny Hax Hay Ha)
      as (Hx & Hy & Hstats & _).
    destruct (init_chan_lists cfg cfactor dist b b' Hnx Hny Hbx Hby Hb)
      as (Hx' & Hy' & Hstats' & _).
    rewrite Hstats, Hstats'. unfold update_stats.
    rewrite (entries_of_unique g _ _ _ _ _ _ Hx Hx').
    rewrite (entries_of_unique g _ _ _ _ _ _ Hy Hy'). reflexivity. }
  destruct (init_chan_returns cfg cfactor dist g Hkx Hky) as (g' & Hg & _).
  destruct (init_chan_returns cfg cfactor dist h Hkx Hky) as (h' & Hh & _).
  exists g', h'. split; [exact Hg|]. split; [exact Hh|].
  split; [exact (Hsame g g' h h' Hgx Hgy Hhx Hhy Hg Hh)|].
  destruct (init_chan_lists cfg cfactor dist g g' Hnx Hny Hgx Hgy Hg)
    as ((Hlx & _) & (Hly & _) & _ & _ & _).
  destruct (init_chan_returns cfg cfactor dist g' Hkx Hky) as (g'' & Hg' & _).
  rewrite Hg'. f_equal.
  destruct (init_chan_lists cfg cfactor dist g' g'' Hnx Hny Hlx Hly Hg')
    as (_ & _ & _ & Hw & Hl).
  pose proof (Hsame g' g'' g g' Hlx Hly Hgx Hgy Hg' Hg) as Hcw.
  destruct g', g''. cbn in *. congruence.
Qed.
End Overwrites.

(** ** What the verification ensures *)

Section Ensured.
Context {World : Type} {env : Environment World}.
Variable f : Z -> bool.
Hypothesis Hrouter : forall width_fac w, fst (try_route width_fac w) = f width_fac.

Lemma verify_loop_ensures cfg fuel :
  fixed_width_mode cfg = false ->
  forall l prev prev2 (g : globals World) l' g',
    Fc_clipped l = false ->
    verify_loop cfg fuel l prev prev2 g = (Ok l', g') ->
    (final l' = final l /\
     (prev2 || prev = true -> 1 <= current l ->
      f (current l) = false /\
      (prev = true -> 1 <= current l - udsd_multiplier cfg ->
       f (current l - udsd_multiplier cfg) = false))) \/
    (f (final l') = true /\ 1 <= final l' <= current l /\
     two_below_fail f (udsd_multiplier cfg) (final l')).
Proof.
  intros Hmode.
  induction fuel as [|fuel IH]; intros l prev prev2 g l' g' Hclip;
    cbn [verify_loop]; rewrite Hmode; cbn [andb];
    (destruct (prev2 || prev) eqn:Hprev;
     [|intros [= <- <-]; left; split; [reflexivity|discriminate]]);
    (destruct (Z.ltb_spec (current l) 1);
     [intros [= <- <-]; left; split; [reflexivity|intros; lia]|]);
    try discriminate.
  unfold bind. destruct (verify_iteration_eq cfg l g) as [w ->]. cbn [fst snd].
  assert (Hs : trial_answer cfg l g = f (current l)) by (apply Hrouter).
  rewrite Hs.
  destruct (verified_fields cfg l (f (current l)) Hclip) as (Hclip1 & Hfin1 & Hcur1).
  cbv zeta in Hclip1, Hfin1, Hcur1.
  pose proof (udsd_multiplier_cases cfg) as Hm.
  intros Hrun. apply IH in Hrun; [|exact Hclip1].
  rewrite Hfin1, Hcur1 in Hrun.
  destruct (f (current l)) eqn:Hfc.
  - right. destruct Hrun as [[Hfin Hfail]|(Hok & Hrange & Hbelow)].
    + rewrite Hfin. split; [exact Hfc|]. split; [lia|].
      unfold two_below_fail.
      replace (current l - 2 * udsd_multiplier cfg)
        with (current l - udsd_multiplier cfg - udsd_multiplier cfg) by lia.
      rewrite orb_true_r in Hfail.
      split; intros Hone; destruct Hfail as [Hf1 Hf2]; auto; try lia.
    + split; [exact Hok|]. split; [lia|exact Hbelow].
  - destruct Hrun as [[Hfin Hfail]|(Hok & Hrange & Hbelow)].
    + left. split; [exact Hfin|]. intros _ _. split; [reflexivity|].
      intros -> Hone. rewrite orb_false_r in Hfail. apply Hfail; [reflexivity|lia].
    + right. split; [exact Hok|]. split; [lia|exact Hbelow].
Qed.

(** X21. When the router's answer depends on the width alone, the
    verification of an unconstrained search ends in one of two ways.
    Either [final] is as it was, and the router fails at [final - 2]
    and at the width one step below it; or [final] is a lower width at
    which the router succeeds and fails at the two widths one and two
    steps below it.  Widths below 1 are not tried. *)
Theorem verification_ensures cfg l (g : globals World) :
  fixed_width_mode cfg = false -> Fc_clipped l = false ->
  exists l' g',
    verify_loop cfg (Z.to_nat (final l - 2)) (set_current (final l - 2) l)
      true true g = (Ok l', g') /\
    ((final l' = final l /\
      two_below_fail f (udsd_multiplier cfg) (final l - 2 + udsd_multiplier cfg)) \/
     (f (final l') = true /\ 1 <= final l' <= final l - 2 /\
      two_below_fail f (udsd_multiplier cfg) (final l'))).
Proof.
  intros Hmode Hclip.
  destruct (verify_loop_returns cfg l g) as (l' & g' & Hrun).
  exists l', g'. split; [exact Hrun|].
  apply (verify_loop_ensures cfg _ Hmode) in Hrun; [|exact Hclip].
  cbn [current final set_current] in Hrun.
  destruct Hrun as [[Hfin Hfail]|Hlow]; [left|right; exact Hlow].
  split; [exact Hfin|]. unfold two_below_fail.
  replace (final l - 2 + udsd_multiplier cfg - udsd_multiplier cfg)
    with (final l - 2) by lia.
  replace (final l - 2 + udsd_multiplier cfg - 2 * udsd_multiplier cfg)
    with (final l - 2 - udsd_multiplier cfg) by lia.
  pose proof (udsd_multiplier_cases cfg) as Hm.
  split; intros Hone; apply Hfail; auto; lia.
Qed.
End Ensured.

(** ** A router whose answer depends on the width alone *)

Section LocalMinimum.
Context {World : Type} {env : Environment World}.
Variable f : Z -> bool.
Variable cfg : config.
Hypothesis Hmode : fixed_width_mode cfg = false.
Hypothesis Hdir : directionality cfg = BI_DIRECTIONAL.
Hypothesis HFs : 1 <= Fs cfg <= 3.

Lemma bidirectional_step v : step_up cfg v = v.
Proof.
  unfold step_up, udsd_multiplier. rewrite Hdir. rewrite Z.rem_1_r. lia.
Qed.

Lemma local_inv_step l l' :
  local_inv f l -> final l = -1 ->
  iteration_result cfg l (f (current l)) = Ok (Continue, l') ->
  local_inv f l'.
Proof.
  intros (Hinv & Hlow & Hhigh & Hhalf & Hfin) Hf Hres.
  destruct (search_inv_step cfg l _ l' Hmode Hinv Hf Hres) as [Hinv' _].
  pose proof Hinv as (Hclip & Hfirst & Hcount & Hstage).
  destruct (continue_cases cfg l _ l' Hclip Hres)
    as (Hguard & HFs' & Hclip' & Hhint' & Hcount' & Hfields).
  pose proof (unconstrained_guard cfg l Hmode Hguard) as Hle.
  specialize (Hstage Hf). specialize (Hhalf Hf).
  assert (Hmu : udsd_multiplier cfg = 1)
    by (unfold udsd_multiplier; rewrite Hdir; reflexivity).
  rewrite Hmode, Hmu in Hfields. rewrite bidirectional_step in Hfields.
  unfold local_inv. split; [exact Hinv'|]. clear Hinv Hinv'.
  destruct (f (current l)) eqn:Hfc.
  - (* the trial succeeds *)
    destruct Hfields as (Hh' & Hl' & Hf' & Hc').
    rewrite Hh', Hl', Hf', Hf.
    split; [exact Hlow|]. split; [intros _; split; [exact Hfc|lia]|].
    split.
    + intros _ _ Hl1. rewrite Hc'. rewrite Hl1. rewrite Z.eqb_refl.
      destruct (using_minw_hint l && (attempt_count l =? 0)).
      * destruct (hint_division (current l) ltac:(lia)) as (Hr & Hr0 & _).
        split; [lia|]. exact Hr0.
      * rewrite div_scale_two by lia. split; lia.
    + destruct (Z.leb_spec (current l - low l) (1 * 1)) as [Hgap|Hgap]; cbn [orb].
      * intros _. split; [exact Hfc|]. split; [lia|].
        intros Hone. replace (current l - 1) with (low l); [apply Hlow; lia|].
        destruct Hstage as [Hs|[Hs|Hs]];
          unfold doubling, halving, bisecting in Hs; lia.
      * destruct (Z.eqb_spec (current l) (high l)) as [Heq|];
          [|intros Hne; contradiction].
        destruct Hstage as [Hs|[Hs|Hs]];
          unfold doubling, halving, bisecting in Hs; lia.
  - (* the trial fails *)
    destruct Hfields as (Hl' & Hh' & Hf' & Hc').
    rewrite Hh', Hl', Hf', Hf.
    split; [intros _; exact Hfc|]. split; [exact Hhigh|].
    split; [intros; lia|].
    destruct (Z.eqb_spec (high l) (-1)) as [Hh|Hh]; cbn [negb andb];
      [intros Hne; contradiction|].
    destruct (Z.leb_spec (high l - current l) (1 * 1)) as [Hgap|Hgap];
      [|intros Hne; contradiction].
    intros _. destruct (Hhigh Hh) as [Hfh Hone].
    split; [exact Hfh|]. split; [exact Hone|].
    intros _. replace (high l - 1) with (current l); [exact Hfc|].
    destruct Hstage as [Hs|[Hs|Hs]];
      unfold doubling, halving, bisecting in Hs; lia.
Qed.

Lemma local_inv_break l :
  local_inv f l -> final l = -1 -> current l * 3 < Fs cfg ->
  high l = 1 /\ f 1 = true.
Proof.
  intros ((_ & _ & _ & Hstage) & _ & Hhigh & Hhalf & _) Hf Hbelow.
  specialize (Hhalf Hf).
  destruct (Hstage Hf) as [Hs|[Hs|Hs]]; unfold doubling, halving, bisecting in Hs;
    try lia.
  assert (Hone : high l = 1) by (apply Hhalf; lia).
  split; [exact Hone|]. rewrite <- Hone. apply Hhigh. lia.
Qed.

Hypothesis Hrouter : forall width_fac w, fst (try_route width_fac w) = f width_fac.

Lemma local_search_loop fuel l (g : globals World) l' g' :
  local_inv f l ->
  search_loop cfg fuel l g = (Ok l', g') ->
  Fc_clipped l' = false /\
  f (final l') = true /\ 1 <= final l' /\
  (1 <= final l' - 1 -> f (final l' - 1) = false).
Proof.
  intros Hinv Hrun.
  assert (Hanswer : forall l0 (g0 : globals World),
            trial_answer cfg l0 g0 = f (current l0))
    by (intros; apply Hrouter).
  destruct (performs_search_loop (fun _ => True) cfg (local_inv f))
    with (fuel := fuel) (l := l) (g := g) (r := Ok l') (g' := g') as [_ Hr]; auto.
  - intros l1 g0 l2 Hinv1 Hf1 Hres. rewrite Hanswer in Hres.
    eapply local_inv_step; eassumption.
  - intros. apply Forall_forall. auto.
  - destruct Hr as [[Hinv' Hf']|(l1 & g0 & Hinv1 & Hf1 & Hres)].
    + split; [apply Hinv'|]. apply Hinv'. exact Hf'.
    + pose proof (iteration_result_cases cfg l1 (trial_answer cfg l1 g0)) as Hc.
      rewrite Hres in Hc. destruct Hc as (_ & Hbelow & ->).
      cbn [final set_final Fc_clipped].
      destruct (local_inv_break l1 Hinv1 Hf1 Hbelow) as [-> Hone].
      split; [apply Hinv1|]. split; [exact Hone|]. split; lia.
Qed.

(** X22. Under bidirectional routing, when the router's answer depends
    on the width alone, the width an unconstrained search with a floor
    of Fs between 1 and 3 returns is one at which the router succeeds
    and below which it fails: the search finds a local minimum, whether
    or not wider channels always route.  With the verification the
    router fails at the width two below as well. *)
Theorem search_finds_local_minimum verify hint fuel (g : globals World) w g' :
  binary_search_place_and_route cfg verify hint fuel g = (Ok w, g') ->
  f w = true /\ 1 <= w /\
  (1 <= w - 1 -> f (w - 1) = false) /\
  (verify = true -> 1 <= w - 2 -> f (w - 2) = false).
Proof.
  intros Hrun.
  pose proof (binary_search_run _ _ _ _ _ _ _ Hrun) as Hcut.
  destruct (init_result cfg hint) as [l0|e| |] eqn:Hl0; try discriminate.
  destruct Hcut as (r1 & g1 & Hloop & Hrest).
  destruct r1 as [l1|e| |]; try (destruct Hrest; discriminate).
  destruct Hrest as (l2 & g2 & Hver & r3 & g3 & Hchan & Hr3).
  destruct r3 as [[]|e| |]; try contradiction; [|destruct Hr3; discriminate].
  destruct Hr3 as [[= ->] _].
  destruct (search_inv_init cfg hint l0 Hmode Hl0) as [Hinv0 Hf0].
  assert (Hlocal0 : local_inv f l0).
  { destruct (initial_bounds cfg hint l0 Hl0) as (_ & Hh0 & _).
    assert (Hlow0 : low l0 = -1).
    { destruct Hinv0 as (_ & _ & _ & Hstage).
      unfold init_result in Hl0.
      destruct (match directionality cfg with
                | UNI_DIRECTIONAL => _ | BI_DIRECTIONAL => _ end); [discriminate|].
      destruct (_ >? 0); [|discriminate]. injection Hl0 as <-.
      unfold initial_guess. rewrite Hmode. destruct (hint >? 0); reflexivity. }
    unfold local_inv. split; [exact Hinv0|].
    repeat split; try (intros; congruence). }
  destruct (local_search_loop _ _ _ _ _ Hlocal0 Hloop) as (Hclip & Hok & Hone & Hbelow).
  destruct verify.
  - apply (verify_loop_ensures f Hrouter cfg _ Hmode) in Hver; [|exact Hclip].
    cbn [current final set_current] in Hver.
    assert (Hmu : udsd_multiplier cfg = 1)
      by (unfold udsd_multiplier; rewrite Hdir; reflexivity).
    rewrite Hmu in Hver. unfold two_below_fail in Hver.
    destruct Hver as [[Hfin Hfail]|(Hok2 & Hrange & Hb1 & Hb2)].
    + rewrite Hfin. split; [exact Hok|]. split; [exact Hone|].
      split; [exact Hbelow|]. intros _ Hthree. apply Hfail; [reflexivity|lia].
    + split; [exact Hok2|]. split; [lia|]. split; [exact Hb1|].
      intros _ Htwo. replace (final l2 - 2) with (final l2 - 2 * 1) by lia.
      apply Hb2. lia.
  - destruct Hver as [-> _]. split; [exact Hok|]. split; [exact Hone|].
    split; [exact Hbelow|discriminate].
Qed.
End LocalMinimum.

(** * The theorems at concrete inputs *)





(** C3 at an odd hint: the search throws before any trial. *)
Lemma unidirectional_trials_even_witness :
  let cfg := search_config UNI_DIRECTIONAL 3 7 [2] true in
  exists evs,
    log (snd (@binary_search_place_and_route unit (width_router (fun _ => true))
                cfg true 7 10 (start tt)))
    = log (start tt) ++ evs /\
    Forall even_trial evs /\
    (Z.rem (current (@initial_guess unit (width_router (fun _ => true)) cfg 7)) 2 <> 0 ->
     fst (@binary_search_place_and_route unit (width_router (fun _ => true))
            cfg true 7 10 (start tt))
     = Throw (TriedOddChanWidth
                (current (@initial_guess unit (width_router (fun _ => true)) cfg 7))) /\
     Forall no_trial evs).
Proof.
  cbv zeta.
  apply (@unidirectional_trials_even unit (width_router (fun _ => true))
           (search_config UNI_DIRECTIONAL 3 7 [2] true) true 7 10 (start tt)).
  reflexivity.
Defined.

(** C4 at the second trial of a search that succeeded at 2 and tries 2
    again: [final] is set to the upper bound 2 with no lower bound known. *)
Lemma final_is_upper_bound_witness :
  let cfg := search_config UNI_DIRECTIONAL 3 (-1) [2] false in
  let l' := {| current := 2; low := -1; high := 2; final := 2; attempt_count := 2;
               using_minw_hint := false; Fc_clipped := false |} in
  (Continue = Break -> current second_attempt_at_two * 3 < Fs cfg /\ final l' = high l') /\
  (final l' <> -1 ->
   final l' = high l' /\
   (low l' < high l' -> low l' < final l' <= high l') /\
   (high l' - low l' <= 1 * udsd_multiplier cfg \/
    current second_attempt_at_two * 3 < Fs cfg \/
    (@trial_answer unit (width_router (fun _ => true)) cfg second_attempt_at_two
       (start tt) = true /\
     current second_attempt_at_two = high second_attempt_at_two))).
Proof.
  cbv zeta.
  eapply (@final_is_upper_bound unit (width_router (fun _ => true))
            (search_config UNI_DIRECTIONAL 3 (-1) [2] false)
            second_attempt_at_two (start tt)).
  - reflexivity.
  - vm_compute. reflexivity.
Defined.

(** C4 fails as stated.  With a router that always succeeds, the search
    from a largest pin count of 2 under unidirectional routing succeeds
    at 2, tries 2 again, and sets [final] with [high - low = 3], more
    than one step, and with the width above the floor of Fs.  With a
    router that succeeds and then fails at the same width, it sets
    [final = 2] with [low = 2]. *)
Lemma final_assignment_fails :
  ~ (forall (World : Type) (env : Environment World) cfg hint l (g : globals World)
            c l' g',
       reachable cfg hint l -> final l = -1 ->
       search_iteration cfg l g = (Ok (c, l'), g') -> final l' <> -1 ->
       high l' - low l' <= 1 * udsd_multiplier cfg \/ current l * 3 < Fs cfg) /\
  ~ (forall (World : Type) (env : Environment World) cfg hint l (g : globals World)
            c l' g',
       reachable cfg hint l -> final l = -1 ->
       search_iteration cfg l g = (Ok (c, l'), g') -> final l' <> -1 ->
       low l' <> -1 -> high l' <> -1 -> low l' < final l' <= high l').
Proof.
  split; intros H.
  - assert (Hreach : @reachable unit (width_router (fun _ => true))
                       (search_config UNI_DIRECTIONAL 3 (-1) [2] false) (-1)
                       second_attempt_at_two).
    { eapply reach_step with (g := start tt).
      - eapply reach_init with (g := start tt). vm_compute. reflexivity.
      - reflexivity.
      - vm_compute. reflexivity. }
    specialize (H unit (width_router (fun _ => true)) _ _ _ (start tt) Continue
                  {| current := 2; low := -1; high := 2; final := 2; attempt_count := 2;
                     using_minw_hint := false; Fc_clipped := false |}
                  (snd (@search_iteration unit (width_router (fun _ => true))
                          (search_config UNI_DIRECTIONAL 3 (-1) [2] false)
                          second_attempt_at_two (start tt)))
                  Hreach eq_refl).
    cbn in H. destruct H as [H|H]; [vm_compute; reflexivity|discriminate|lia|lia].
  - assert (Hreach : @reachable (list bool) scripted_router
                       (search_config UNI_DIRECTIONAL 3 (-1) [2] false) (-1)
                       second_attempt_at_two).
    { eapply reach_step with (g := start [true]).
      - eapply reach_init with (g := start [true]). vm_compute. reflexivity.
      - reflexivity.
      - vm_compute. reflexivity. }
    specialize (H (list bool) scripted_router _ _ _ (start [false]) Continue
                  {| current := 2; low := 2; high := 2; final := 2; attempt_count := 2;
                     using_minw_hint := false; Fc_clipped := false |}
                  (snd (@search_iteration (list bool) scripted_router
                          (search_config UNI_DIRECTIONAL 3 (-1) [2] false)
                          second_attempt_at_two (start [false])))
                  Hreach eq_refl).
    cbn in H. destruct H as [H _];
      [vm_compute; reflexivity|discriminate|discriminate|discriminate|lia].
Qed.

(** C5 at the first trial of a search around the fixed width 10: the
    trial at 15 fails and the next width is 20. *)
Lemma sub_search_step_witness :
  let cfg := fixed_config BI_DIRECTIONAL 3 10 in
  let l := @initial_guess unit (width_router (fun _ => false)) cfg (-1) in
  (current l + 5 * udsd_multiplier cfg <= fixed_channel_width cfg + 30 ->
   exists l' g',
     @search_iteration unit (width_router (fun _ => false)) cfg l (start tt)
     = (Ok (Continue, l'), g') /\
     low l' = current l /\ high l' = -1 /\ final l' = -1 /\
     current l' = low l' + 5 * udsd_multiplier cfg) /\
  (fixed_channel_width cfg + 30 < current l + 5 * udsd_multiplier cfg ->
   exists g',
     @search_iteration unit (width_router (fun _ => false)) cfg l (start tt)
     = (Throw (WneedTooLarge (current l)), g')).
Proof.
  cbv zeta.
  apply (@sub_search_step unit (width_router (fun _ => false))
           (fixed_config BI_DIRECTIONAL 3 10) (-1)).
  - reflexivity.
  - eapply unknown_init with (g := start tt). vm_compute. reflexivity.
  - reflexivity.
  - reflexivity.
  - vm_compute. discriminate.
  - reflexivity.
Defined.

(** C6 at an architecture whose block types have no pins: the initial
    width is 0 and the assertion fails. *)
Lemma fatal_outcomes_witness :
  fst (@binary_search_place_and_route unit (width_router (fun _ => true))
         (search_config UNI_DIRECTIONAL 3 (-1) [] false) false (-1) 10 (start tt))
  = AssertFailed.
Proof.
  apply (@fatal_outcomes unit (width_router (fun _ => true))
           (search_config UNI_DIRECTIONAL 3 (-1) [] false) false (-1) 10 (start tt)).
  - reflexivity.
  - discriminate.
  - vm_compute. discriminate.
Defined.

(** C6 fails as stated: on that architecture the run ends fatally, and
    none of the six cases holds. *)
Lemma fatal_outside_the_list :
  ~ (forall (World : Type) (env : Environment World) cfg verify hint fuel
            (g : globals World),
       let r := fst (binary_search_place_and_route cfg verify hint fuel g) in
       let c0 := current (initial_guess cfg hint) in
       (r = AssertFailed \/ exists e, r = Throw e) ->
       (directionality cfg = UNI_DIRECTIONAL /\ Z.rem c0 2 <> 0) \/
       (directionality cfg = BI_DIRECTIONAL /\ Z.rem (Fs cfg) 3 <> 0) \/
       (exists l, reachable cfg hint l /\ final l = -1 /\
          ((fixed_width_mode cfg = false /\ 1000 < current l) \/
           (fixed_width_mode cfg = true /\ fixed_channel_width cfg * 4 < current l) \/
           (fixed_width_mode cfg = true /\ high l = -1 /\
            fixed_channel_width cfg + 30 < current l + 5 * udsd_multiplier cfg))) \/
       (known_chan_type (type (chan_x_dist (Chans cfg))) = false \/
        known_chan_type (type (chan_y_dist (Chans cfg))) = false)).
Proof.
  intros H.
  specialize (H unit (width_router (fun _ => true))
                (search_config UNI_DIRECTIONAL 3 (-1) [] false) false (-1) 10%nat
                (start tt)).
  cbv zeta in H.
  destruct H as [[_ H]|[[H _]|[(l & Hreach & _)|[H|H]]]];
    try discriminate.
  - left. vm_compute. reflexivity.
  - apply H. reflexivity.
  - inversion Hreach as [g l0 g' Hinit|l0 g l1 g' Hprev _ Hstep].
    + rewrite init_search_eq in Hinit. vm_compute in Hinit. discriminate.
    + clear Hstep. revert Hprev. generalize l0. clear.
      intros l0 Hprev.
      induction Hprev as [g l g' Hinit|l g l' g' _ IH _ _]; [|exact IH].
      rewrite init_search_eq in Hinit. vm_compute in Hinit. discriminate.
Qed.

(** C7 at Fs = 18 and a hint of 5 under bidirectional routing: the first
    iteration stops the loop below the floor with nothing known, the
    search returns -1 and [place_and_route] returns [false]. *)
Lemma below_fs_floor_witness :
  let cfg := search_config BI_DIRECTIONAL 18 5 [2] true in
  exists g',
    @place_and_route unit (width_router (fun _ => true)) cfg 10 (start tt)
    = (Ok false, g').
Proof.
  cbv zeta.
  destruct (@below_fs_floor unit (width_router (fun _ => true))
              (search_config BI_DIRECTIONAL 18 5 [2] true) true 5 9)
    as (_ & _ & _ & Hstart & _).
  apply (Hstart (start tt)
           (@initial_guess unit (width_router (fun _ => true))
              (search_config BI_DIRECTIONAL 18 5 [2] true) 5)).
  - reflexivity.
  - reflexivity.
  - reflexivity.
  - reflexivity.
  - vm_compute. reflexivity.
  - reflexivity.
  - cbn. lia.
Defined.

(** C7 fails as stated.  With a router that never succeeds no success
    is ever recorded, yet the search does not return a width that is
    not positive and [place_and_route] does not return [false]: from a
    largest pin count of 2 the trials at 2, 4, ..., 512 fail and the
    search throws at 1024, above 1000. *)
Lemma no_success_is_fatal :
  ~ (forall (World : Type) (env : Environment World) cfg verify hint
            (g : globals World),
       fixed_width_mode cfg = false ->
       (forall width_fac w, fst (try_route width_fac w) = false) ->
       exists w g',
         binary_search_place_and_route cfg verify hint search_fuel g = (Ok w, g') /\
         w <= 0) /\
  ~ (forall (World : Type) (env : Environment World) cfg (g : globals World),
       doRouting cfg = true ->
       fixed_channel_width cfg = NO_FIXED_CHANNEL_WIDTH ->
       (forall width_fac w, fst (try_route width_fac w) = false) ->
       exists g', place_and_route cfg search_fuel g = (Ok false, g')) /\
  fst (@place_and_route unit (width_router (fun _ => false))
         (search_config BI_DIRECTIONAL 3 (-1) [2] false) search_fuel (start tt))
  = Throw WidthAbove1000.
Proof.
  split; [|split].
  - intros H.
    destruct (H unit (width_router (fun _ => false))
                (search_config BI_DIRECTIONAL 3 (-1) [2] false) false (-1) (start tt))
      as (w & g' & Hrun & _); [reflexivity|reflexivity|].
    vm_compute in Hrun. discriminate.
  - intros H.
    destruct (H unit (width_router (fun _ => false))
                (search_config BI_DIRECTIONAL 3 (-1) [2] false) (start tt))
      as (g' & Hrun); [reflexivity|reflexivity|reflexivity|].
    vm_compute in Hrun. discriminate.
  - vm_compute. reflexivity.
Qed.

(** C10 at a router that always succeeds: the successful trial at 2 is
    accepted. *)
Lemma fc_clipped_never_set_witness :
  let cfg := search_config UNI_DIRECTIONAL 3 (-1) [2] false in
  exists l' g',
    @search_iteration unit (width_router (fun _ => true)) cfg second_attempt_at_two
      (start tt)
    = (Ok (Continue, l'), g') /\
    high l' = current second_attempt_at_two /\
    exists before,
      log g' = log (start tt) ++ before ++ [Routed_at (current second_attempt_at_two) true;
                                            Called SaveRouting].
Proof.
  cbv zeta.
  destruct (@fc_clipped_never_set unit (width_router (fun _ => true))
              (search_config UNI_DIRECTIONAL 3 (-1) [2] false) false (-1) 10 (start tt))
    as (_ & _ & Haccept).
  apply Haccept.
  - eapply reach_step with (g := start tt).
    + eapply reach_init with (g := start tt). vm_compute. reflexivity.
    + reflexivity.
    + vm_compute. reflexivity.
  - reflexivity.
  - reflexivity.
  - vm_compute. discriminate.
  - reflexivity.
Defined.

(** C9 at a pulse of width 1 centred at 0 and the position 1: outside
    the pulse, the value is [0 + dc]. *)
Lemma comp_width_profiles_witness :
  @comp_width unit (width_router (fun _ => true)) pulse_one float_one F32.zero (start tt)
  = (Ok (F32.add F32.zero (dc pulse_one)), start tt).
Proof.
  destruct (@comp_width_profiles unit (width_router (fun _ => true))
              pulse_one float_one F32.zero (start tt))
    as (_ & _ & Hpulse & _).
  rewrite Hpulse; reflexivity.
Defined.

(** * The further properties at concrete inputs *)

(** X1 at a search on a 2 by 2 grid with a router that succeeds from
    width 4 on. *)
Lemma search_always_ends_witness :
  let cfg := search_config BI_DIRECTIONAL 3 (-1) [2] false in
  fst (@place_and_route unit (threshold_router 4) cfg search_fuel (start tt))
  <> OutOfFuel /\
  (forall verify hint,
     @fixed_width_mode unit (threshold_router 4) cfg = false ->
     fst (@binary_search_place_and_route unit (threshold_router 4) cfg verify hint
            search_fuel (start tt)) <> OutOfFuel).
Proof.
  cbv zeta.
  apply (@search_always_ends unit (threshold_router 4)
           (search_config BI_DIRECTIONAL 3 (-1) [2] false) search_fuel (start tt)).
  unfold search_fuel. lia.
Defined.

(** X3 at that search: it fails at 2, succeeds at 4, fails at 3 and
    returns 4, with the routing of the trial at 4 saved. *)
Lemma returned_width_is_saved_witness :
  saved_routing
    (log (snd (@binary_search_place_and_route unit (threshold_router 4)
                 (search_config BI_DIRECTIONAL 3 (-1) [2] false) false (-1) 10
                 (start tt))))
  = Some (4, true).
Proof.
  apply (@returned_width_is_saved unit (threshold_router 4)
           (search_config BI_DIRECTIONAL 3 (-1) [2] false) false (-1) 10 (start tt) 4).
  - vm_compute. reflexivity.
  - discriminate.
Defined.

(** X4 at the same circuit: [place_and_route] returns [true], and a call
    of the router succeeded. *)
Lemma success_means_routed_witness :
  let cfg := search_config BI_DIRECTIONAL 3 (-1) [2] false in
  exists evs,
    log (snd (@place_and_route unit (threshold_router 4) cfg 10 (start tt)))
    = log (start tt) ++ evs /\
    exists width_fac, In (Routed_at width_fac true) evs.
Proof.
  cbv zeta.
  apply (@success_means_routed unit (threshold_router 4)
           (search_config BI_DIRECTIONAL 3 (-1) [2] false) 10 (start tt) true).
  - reflexivity.
  - intros _. cbn. lia.
  - vm_compute. reflexivity.
Defined.

(** X5 at a router that succeeds from 5 on, under unidirectional
    routing: the search returns 6. *)
Lemma search_finds_minimum_witness :
  let cfg := search_config UNI_DIRECTIONAL 3 (-1) [2] true in
  exists g',
    @binary_search_place_and_route unit (threshold_router 5) cfg true (-1) search_fuel
      (start tt)
    = (Ok (step_up cfg 5), g').
Proof.
  cbv zeta.
  apply (@search_finds_minimum unit (threshold_router 5)
           (search_config UNI_DIRECTIONAL 3 (-1) [2] true) 5 true (-1) search_fuel
           (@initial_guess unit (threshold_router 5)
              (search_config UNI_DIRECTIONAL 3 (-1) [2] true) (-1))
           (start tt)).
  - reflexivity.
  - reflexivity.
  - cbn. lia.
  - lia.
  - vm_compute. reflexivity.
  - vm_compute. discriminate.
  - intros _. left. lia.
  - reflexivity.
  - reflexivity.
  - unfold search_fuel. lia.
Defined.

(** X6 at the hint 10 and a router that always succeeds. *)
Lemma small_hint_is_returned_witness :
  let cfg := search_config UNI_DIRECTIONAL 3 10 [2] false in
  exists g' evs,
    @binary_search_place_and_route unit (width_router (fun _ => true)) cfg false 10 2
      (start tt) = (Ok 10, g') /\
    log g' = log (start tt) ++ evs /\
    trials_of evs = [(10, true); (10, true)].
Proof.
  cbv zeta.
  apply (@small_hint_is_returned unit (width_router (fun _ => true))
           (search_config UNI_DIRECTIONAL 3 10 [2] false) 10 0%nat (start tt)).
  - reflexivity.
  - reflexivity.
  - reflexivity.
  - lia.
  - cbn. lia.
  - reflexivity.
  - reflexivity.
  - reflexivity.
Defined.

(** X7 at a search that places again before every trial. *)
Lemma placement_with_every_trial_witness :
  let cfg := replacing_config BI_DIRECTIONAL 3 (-1) [2] true in
  exists evs,
    log (snd (@binary_search_place_and_route unit (threshold_router 4) cfg true (-1) 10
                (start tt)))
    = log (start tt) ++ evs /\
    placed_before_trials evs = true.
Proof.
  cbv zeta.
  apply (@placement_with_every_trial unit (threshold_router 4)
           (replacing_config BI_DIRECTIONAL 3 (-1) [2] true) true (-1) 10 (start tt) 4).
  vm_compute. reflexivity.
Defined.

(** X8 at the verification of a search that found 20. *)
Lemma verification_trials_witness :
  let cfg := search_config BI_DIRECTIONAL 3 (-1) [2] true in
  exists l' g' evs answers,
    @verify_loop unit (threshold_router 17) cfg (Z.to_nat (final found_twenty - 2))
      (set_current (final found_twenty - 2) found_twenty) true true (start tt)
    = (Ok l', g') /\
    log g' = log (start tt) ++ evs /\
    trials_of evs
    = descending (final found_twenty - 2) (udsd_multiplier cfg) answers /\
    @answers_of_verification unit (threshold_router 17) cfg (final found_twenty - 2)
      true true answers = true /\
    stops_after_two_failures true answers = true /\
    final l' = last_success (final found_twenty) (trials_of evs).
Proof.
  cbv zeta.
  apply (@verification_trials unit (threshold_router 17)
           (search_config BI_DIRECTIONAL 3 (-1) [2] true) found_twenty (start tt)).
  reflexivity.
Defined.

(** X9 at uniform profiles on a 2 by 2 grid. *)
Lemma init_chan_entries_witness :
  let cfg := search_config BI_DIRECTIONAL 3 (-1) [2] false in
  let dist := uniform_chans float_one in
  exists g',
    @init_chan unit (threshold_router 4) cfg 4 dist (start tt) = (Ok tt, g') /\
    @entries_of unit (threshold_router 4) 4 (chan_x_dist dist) (ny cfg) (io_count 4 dist)
      (x_list (chan_width g')) /\
    @entries_of unit (threshold_router 4) 4 (chan_y_dist dist) (nx cfg) (io_count 4 dist)
      (y_list (chan_width g')) /\
    world g' = world (start tt) /\ log g' = log (start tt).
Proof.
  cbv zeta.
  apply (@init_chan_entries unit (threshold_router 4)
           (search_config BI_DIRECTIONAL 3 (-1) [2] false) 4 (uniform_chans float_one)
           (start tt)); reflexivity || (cbn; lia).
Defined.

(** X10 at the same call. *)
Lemma init_chan_extrema_witness :
  let cw := chan_width
              (snd (@init_chan unit (threshold_router 4)
                      (search_config BI_DIRECTIONAL 3 (-1) [2] false) 4
                      (uniform_chans float_one) (start tt))) in
  In (x_max cw) (x_list cw) /\ In (x_min cw) (x_list cw) /\
  (forall v, In v (x_list cw) -> x_min cw <= v <= x_max cw) /\
  In (y_max cw) (y_list cw) /\ In (y_min cw) (y_list cw) /\
  (forall v, In v (y_list cw) -> y_min cw <= v <= y_max cw) /\
  cw_max cw = Z.max 0 (Z.max (x_max cw) (y_max cw)).
Proof.
  apply (@init_chan_extrema unit (threshold_router 4)
           (search_config BI_DIRECTIONAL 3 (-1) [2] false) 4 (uniform_chans float_one)
           (start tt)).
  - cbn. lia.
  - cbn. lia.
  - reflexivity.
  - reflexivity.
  - vm_compute. reflexivity.
Defined.

(** X11 at the same call. *)
Lemma uniform_profile_counts_witness :
  let cfg := search_config BI_DIRECTIONAL 3 (-1) [2] false in
  let dist := uniform_chans float_one in
  exists g',
    @init_chan unit (threshold_router 4) cfg 4 dist (start tt) = (Ok tt, g') /\
    x_list (chan_width g')
    = framed (ny cfg) (io_count 4 dist) (interior_count 4 (peak (chan_x_dist dist))) /\
    y_list (chan_width g')
    = framed (nx cfg) (io_count 4 dist) (interior_count 4 (peak (chan_y_dist dist))).
Proof.
  cbv zeta.
  apply (@uniform_profile_counts unit (threshold_router 4)
           (search_config BI_DIRECTIONAL 3 (-1) [2] false) 4 (uniform_chans float_one)
           (start tt)); reflexivity || (cbn; lia).
Defined.

(** X12 at the same call: every channel gets 4 tracks. *)
Lemma unit_profiles_give_the_factor_witness :
  let cfg := search_config BI_DIRECTIONAL 3 (-1) [2] false in
  exists g',
    @init_chan unit (threshold_router 4) cfg 4 (uniform_chans float_one) (start tt)
    = (Ok tt, g') /\
    chan_width g'
    = {| cw_max := 4; x_max := 4; y_max := 4; x_min := 4; y_min := 4;
         x_list := replicate (S (Z.to_nat (ny cfg))) 4;
         y_list := replicate (S (Z.to_nat (nx cfg))) 4 |}.
Proof.
  cbv zeta.
  apply (@unit_profiles_give_the_factor unit (threshold_router 4)
           (search_config BI_DIRECTIONAL 3 (-1) [2] false) 4 (uniform_chans float_one)
           (start tt)); reflexivity || (cbn; lia).
Defined.

(** X13 at a delta at the middle of the chip: the interior row gets the
    peak although it is at position 0. *)
Lemma delta_on_two_rows_witness :
  let cfg := search_config BI_DIRECTIONAL 3 (-1) [2] false in
  exists g',
    @init_chan unit (threshold_router 4) cfg 4 delta_chans (start tt) = (Ok tt, g') /\
    x_list (chan_width g')
    = [io_count 4 delta_chans;
       interior_count 4 (F32.add (peak (chan_x_dist delta_chans))
                           (dc (chan_x_dist delta_chans)));
       io_count 4 delta_chans].
Proof.
  cbv zeta.
  apply (@delta_on_two_rows unit (threshold_router 4)
           (search_config BI_DIRECTIONAL 3 (-1) [2] false) 4 delta_chans (start tt));
    try reflexivity; try (cbn; lia).
  vm_compute. discriminate.
Defined.

(** X14 at a router that never succeeds. *)
Lemma unroutable_search_throws_witness :
  let cfg := search_config BI_DIRECTIONAL 3 (-1) [2] false in
  exists g',
    @binary_search_place_and_route unit (width_router (fun _ => false)) cfg false (-1)
      search_fuel (start tt)
    = (Throw WidthAbove1000, g').
Proof.
  cbv zeta.
  apply (@unroutable_search_throws unit (width_router (fun _ => false))
           (search_config BI_DIRECTIONAL 3 (-1) [2] false) false (-1) search_fuel
           (@initial_guess unit (width_router (fun _ => false))
              (search_config BI_DIRECTIONAL 3 (-1) [2] false) (-1))
           (start tt)).
  - reflexivity.
  - reflexivity.
  - vm_compute. reflexivity.
  - vm_compute. discriminate.
  - unfold search_fuel. lia.
Defined.

(** X17 at the search that returns 4. *)
Lemma returned_width_range_witness :
  let cfg := search_config BI_DIRECTIONAL 3 (-1) [2] false in
  fst (@binary_search_place_and_route unit (threshold_router 4) cfg false (-1) 10
         (start tt)) = Ok 4 /\
  (4 = -1 \/
   ((exists evs,
       log (snd (@binary_search_place_and_route unit (threshold_router 4) cfg false (-1)
                   10 (start tt)))
       = log (start tt) ++ evs /\
       In (Routed_at 4 true) evs) /\
    4 <= @width_bound unit (threshold_router 4) cfg /\ (Fs cfg <= 4 * 3 \/ 1 <= 4) /\
    (directionality cfg = UNI_DIRECTIONAL -> Z.even 4 = true))).
Proof.
  cbv zeta. split; [vm_compute; reflexivity|].
  apply (@returned_width_range unit (threshold_router 4)
           (search_config BI_DIRECTIONAL 3 (-1) [2] false) false (-1) 10 (start tt) 4
           (snd (@binary_search_place_and_route unit (threshold_router 4)
                   (search_config BI_DIRECTIONAL 3 (-1) [2] false) false (-1) 10
                   (start tt)))).
  vm_compute. reflexivity.
Defined.

(** X18 at the hint 10 and a router that succeeds from width 4 on: the
    next width is 9. *)
Lemma first_trial_from_hint_witness :
  let cfg := search_config BI_DIRECTIONAL 3 10 [2] false in
  let l0 := @initial_guess unit (threshold_router 4) cfg 10 in
  current l0 = 10 /\
  if @trial_answer unit (threshold_router 4) cfg l0 (start tt)
  then high after_hint_ten = 10 /\ low after_hint_ten = -1 /\
       current after_hint_ten = step_up cfg (10 * 10 / 11)
  else low after_hint_ten = 10 /\ high after_hint_ten = -1 /\
       current after_hint_ten = 2 * 10.
Proof.
  cbv zeta.
  apply (@first_trial_from_hint unit (threshold_router 4)
           (search_config BI_DIRECTIONAL 3 10 [2] false) 10
           (@initial_guess unit (threshold_router 4)
              (search_config BI_DIRECTIONAL 3 10 [2] false) 10)
           (start tt) after_hint_ten
           (snd (@search_iteration unit (threshold_router 4)
                   (search_config BI_DIRECTIONAL 3 10 [2] false)
                   (@initial_guess unit (threshold_router 4)
                      (search_config BI_DIRECTIONAL 3 10 [2] false) 10)
                   (start tt)))).
  - reflexivity.
  - lia.
  - vm_compute. reflexivity.
  - vm_compute. reflexivity.
Defined.

(** X19 at the odd hint 7 under unidirectional routing. *)
Lemma odd_width_error_witness :
  let cfg := search_config UNI_DIRECTIONAL 3 7 [2] false in
  fst (@binary_search_place_and_route unit (threshold_router 4) cfg false 7 10
         (start tt))
  = Throw (TriedOddChanWidth 7) <->
  directionality cfg = UNI_DIRECTIONAL /\ 0 < 7 /\ Z.odd 7 = true /\ 7 = 7.
Proof.
  cbv zeta.
  apply (@odd_width_error unit (threshold_router 4)
           (search_config UNI_DIRECTIONAL 3 7 [2] false) false 7 10 (start tt) 7).
  reflexivity.
Defined.

(** X20 at zeroed lists and at lists that hold other counts. *)
Lemma init_chan_overwrites_witness :
  let cfg := search_config BI_DIRECTIONAL 3 (-1) [2] false in
  let dist := uniform_chans float_one in
  exists g' h',
    @init_chan unit (threshold_router 4) cfg 4 dist (start tt) = (Ok tt, g') /\
    @init_chan unit (threshold_router 4) cfg 4 dist (used tt) = (Ok tt, h') /\
    chan_width g' = chan_width h' /\
    @init_chan unit (threshold_router 4) cfg 4 dist g' = (Ok tt, g').
Proof.
  cbv zeta.
  apply (@init_chan_overwrites unit (threshold_router 4)
           (search_config BI_DIRECTIONAL 3 (-1) [2] false) 4 (uniform_chans float_one)
           (start tt) (used tt)).
  - cbn. lia.
  - cbn. lia.
  - reflexivity.
  - reflexivity.
  - reflexivity.
  - reflexivity.
  - reflexivity.
  - reflexivity.
Defined.

(** X21 at the verification of a search that found 20, with a router
    that succeeds at 3 and from 6 on: it ends at 6. *)
Lemma verification_ensures_witness :
  let cfg := search_config BI_DIRECTIONAL 3 (-1) [2] true in
  exists l' g',
    @verify_loop unit gap_router cfg (Z.to_nat (final found_twenty - 2))
      (set_current (final found_twenty - 2) found_twenty) true true (start tt)
    = (Ok l', g') /\
    ((final l' = final found_twenty /\
      two_below_fail gap_answer (udsd_multiplier cfg)
        (final found_twenty - 2 + udsd_multiplier cfg)) \/
     (gap_answer (final l') = true /\ 1 <= final l' <= final found_twenty - 2 /\
      two_below_fail gap_answer (udsd_multiplier cfg) (final l'))).
Proof.
  cbv zeta.
  apply (@verification_ensures unit gap_router gap_answer (fun _ _ => eq_refl)
           (search_config BI_DIRECTIONAL 3 (-1) [2] true) found_twenty (start tt)).
  - reflexivity.
  - reflexivity.
Defined.

(** X22 at that router: the search with verification finds 6, then 3
    below it, and returns 3. *)
Lemma search_finds_local_minimum_witness :
  let cfg := search_config BI_DIRECTIONAL 3 (-1) [2] true in
  fst (@binary_search_place_and_route unit gap_router cfg true (-1) 10 (start tt))
  = Ok 3 /\
  gap_answer 3 = true /\ 1 <= 3 /\
  (1 <= 3 - 1 -> gap_answer (3 - 1) = false) /\
  (true = true -> 1 <= 3 - 2 -> gap_answer (3 - 2) = false).
Proof.
  cbv zeta. split; [vm_compute; reflexivity|].
  apply (@search_finds_local_minimum unit gap_router gap_answer
           (search_config BI_DIRECTIONAL 3 (-1) [2] true)
           eq_refl eq_refl ltac:(cbn; lia) (fun _ _ => eq_refl) true (-1) 10 (start tt) 3
           (snd (@binary_search_place_and_route unit gap_router
                   (search_config BI_DIRECTIONAL 3 (-1) [2] true) true (-1) 10
                   (start tt)))).
  vm_compute. reflexivity.
Defined.

(** X16 at a search around the fixed width 10 with an allocator that
    returns a null pointer: the assertion on [net_delay] fails. *)
Lemma place_and_route_errors_witness :
  fst (@place_and_route unit null_delay_router (fixed_config BI_DIRECTIONAL 3 10) 10
         (start tt))
  = AssertFailed.
Proof.
  apply (proj2 (@place_and_route_errors unit null_delay_router
                  (fixed_config BI_DIRECTIONAL 3 10) 10 (start tt))).
  - reflexivity.
  - discriminate.
  - discriminate.
  - reflexivity.
Defined.
